(** * Refer'd backend: application lifecycle, referral payments and counters

    A shallow embedding of the business core of the Refer'd recruitment
    backend: [controllers/applicationController.js],
    [controllers/jobController.js], [models/Application.js],
    [models/User.js] and the auth guards of [middleware/auth.js].

    The persistent store is modelled as four MongoDB collections, each a
    finite map from [_id] to document.  A controller is a function from the
    request, the clock reading and the store to the HTTP response and the
    new store.  A JavaScript [Number] is a double.  The counters, and the
    amounts where they are whole numbers, are modelled as exact integers
    ([Z]): on whole numbers of magnitude up to 2^53 the arithmetic of
    doubles is exact.  The schema also admits fees that are no whole
    numbers; module [Number] gives the arithmetic of doubles itself and
    [NumberStats] the earnings of a referrer computed with it.
    Documents carry the fields that the embedded operations read or write;
    passive payload (resume, consent flags, tracking headers, interviews)
    is left out. *)

From Stdlib Require Import ZArith DecimalString Floats.SpecFloat.
From stdpp Require Import gmap strings list fin_maps.

Local Open Scope string_scope.
Local Open Scope list_scope.

(** An [ObjectId]; two ids are compared through [toString()], that is, by
    equality. *)
Abbreviation ObjectId := positive (only parsing).

(** Milliseconds since the epoch, as returned by [new Date()]. *)
Abbreviation Date := Z (only parsing).

(** ** Status vocabularies *)

Inductive ApplicationStatus :=
  | pending | reviewing | shortlisted | interviewing
  | offered | hired | rejected | withdrawn.

Inductive JobStatus := draft | active | paused | closed | filled.

Inductive PaymentStatus := payPending | payProcessing | payPaid | payFailed.

Inductive ActorModel := UserModel | CompanyModel.

Inductive ApplicationSource := direct | referral.

#[global] Instance ApplicationStatus_eq_dec : EqDecision ApplicationStatus.
Proof. solve_decision. Defined.
#[global] Instance JobStatus_eq_dec : EqDecision JobStatus.
Proof. solve_decision. Defined.
#[global] Instance PaymentStatus_eq_dec : EqDecision PaymentStatus.
Proof. solve_decision. Defined.
#[global] Instance ActorModel_eq_dec : EqDecision ActorModel.
Proof. solve_decision. Defined.

(** The wire name of an application status. *)
Definition statusName (st : ApplicationStatus) : string :=
  match st with
  | pending => "pending" | reviewing => "reviewing"
  | shortlisted => "shortlisted" | interviewing => "interviewing"
  | offered => "offered" | hired => "hired"
  | rejected => "rejected" | withdrawn => "withdrawn"
  end.

(** The enum of [applicationSchema.status]: a string outside it has no
    status. *)
Definition parseStatus (str : string) : option ApplicationStatus :=
  if decide (str = "pending") then Some pending
  else if decide (str = "reviewing") then Some reviewing
  else if decide (str = "shortlisted") then Some shortlisted
  else if decide (str = "interviewing") then Some interviewing
  else if decide (str = "offered") then Some offered
  else if decide (str = "hired") then Some hired
  else if decide (str = "rejected") then Some rejected
  else if decide (str = "withdrawn") then Some withdrawn
  else None.

Definition jobStatusName (st : JobStatus) : string :=
  match st with
  | draft => "draft" | active => "active" | paused => "paused"
  | closed => "closed" | filled => "filled"
  end.

(** The enum of [jobSchema.status]. *)
Definition parseJobStatus (str : string) : option JobStatus :=
  if decide (str = "draft") then Some draft
  else if decide (str = "active") then Some active
  else if decide (str = "paused") then Some paused
  else if decide (str = "closed") then Some closed
  else if decide (str = "filled") then Some filled
  else None.

(** [Array.prototype.includes] on an array of strings. *)
Definition includes (l : list string) (x : string) : bool :=
  bool_decide (x ∈ l).

(** JavaScript truthiness of an optional string and of an optional number. *)
Definition truthyStr (o : option string) : bool :=
  match o with Some str => negb (bool_decide (str = EmptyString)) | None => false end.

Definition truthyNum (o : option Z) : bool :=
  match o with Some n => negb (bool_decide (n = 0%Z)) | None => false end.

(** [a || b] on an optional string with a string default. *)
Definition orStr (o : option string) (dflt : string) : string :=
  match o with
  | Some str => if bool_decide (str = EmptyString) then dflt else str
  | None => dflt
  end.

(** A number inside a template literal. *)
Definition numberToString (n : Z) : string :=
  NilZero.string_of_int (Z.to_int n).

(** ** Documents *)

Module User.
Record ReferralStats := mkStats {
  totalReferrals : Z;
  successfulReferrals : Z;
  totalEarnings : Z;
  pendingEarnings : Z;
  paidEarnings : Z
}.

Record t := mk {
  referralCode : option string;
  referralStats : ReferralStats;
  updatedAt : Date
}.

Definition setStats (f : ReferralStats → ReferralStats) (u : t) : t :=
  mk (referralCode u) (f (referralStats u)) (updatedAt u).

Definition touch (now : Date) (u : t) : t :=
  mk (referralCode u) (referralStats u) now.

Definition incTotalReferrals (n : Z) (r : ReferralStats) : ReferralStats :=
  mkStats (totalReferrals r + n) (successfulReferrals r)
          (totalEarnings r) (pendingEarnings r) (paidEarnings r).

Definition incSuccessfulReferrals (n : Z) (r : ReferralStats) : ReferralStats :=
  mkStats (totalReferrals r) (successfulReferrals r + n)
          (totalEarnings r) (pendingEarnings r) (paidEarnings r).

Definition incTotalEarnings (n : Z) (r : ReferralStats) : ReferralStats :=
  mkStats (totalReferrals r) (successfulReferrals r)
          (totalEarnings r + n) (pendingEarnings r) (paidEarnings r).

Definition incPendingEarnings (n : Z) (r : ReferralStats) : ReferralStats :=
  mkStats (totalReferrals r) (successfulReferrals r)
          (totalEarnings r) (pendingEarnings r + n) (paidEarnings r).

Definition incPaidEarnings (n : Z) (r : ReferralStats) : ReferralStats :=
  mkStats (totalReferrals r) (successfulReferrals r)
          (totalEarnings r) (pendingEarnings r) (paidEarnings r + n).
End User.

Module Company.
Record Stats := mkStats {
  totalJobsPosted : Z;
  activeJobs : Z;
  totalApplications : Z;
  totalHires : Z;
  totalReferralsPaid : Z
}.

(** [profile.contactPerson] of the company schema. *)
Record ContactPerson := mkContact {
  firstName : string;
  lastName : string;
  position : string
}.

Record t := mk {
  contactPerson : ContactPerson;
  stats : Stats;
  updatedAt : Date
}.

Definition setStats (f : Stats → Stats) (c : t) : t :=
  mk (contactPerson c) (f (stats c)) (updatedAt c).

Definition touch (now : Date) (c : t) : t :=
  mk (contactPerson c) (stats c) now.

Definition incTotalJobsPosted (n : Z) (r : Stats) : Stats :=
  mkStats (totalJobsPosted r + n) (activeJobs r) (totalApplications r)
          (totalHires r) (totalReferralsPaid r).

Definition incActiveJobs (n : Z) (r : Stats) : Stats :=
  mkStats (totalJobsPosted r) (activeJobs r + n) (totalApplications r)
          (totalHires r) (totalReferralsPaid r).

Definition incTotalApplications (n : Z) (r : Stats) : Stats :=
  mkStats (totalJobsPosted r) (activeJobs r) (totalApplications r + n)
          (totalHires r) (totalReferralsPaid r).

Definition incTotalHires (n : Z) (r : Stats) : Stats :=
  mkStats (totalJobsPosted r) (activeJobs r) (totalApplications r)
          (totalHires r + n) (totalReferralsPaid r).
End Company.

Module Job.
Record Stats := mkStats {
  views : Z;
  applications : Z;
  referrals : Z;
  referralViews : Z;
  referralApplications : Z
}.

Record t := mk {
  companyId : ObjectId;
  title : string;
  referralFee : Z;
  referralFeeCurrency : string;
  applicationDeadline : option Date;
  status : JobStatus;
  stats : Stats;
  postedDate : option Date;
  closedDate : option Date;
  updatedDate : option Date;
  updatedAt : Date
}.

Definition setStats (f : Stats → Stats) (j : t) : t :=
  mk (companyId j) (title j) (referralFee j) (referralFeeCurrency j)
     (applicationDeadline j) (status j) (f (stats j)) (postedDate j)
     (closedDate j) (updatedDate j) (updatedAt j).

Definition setStatus (st : JobStatus) (j : t) : t :=
  mk (companyId j) (title j) (referralFee j) (referralFeeCurrency j)
     (applicationDeadline j) st (stats j) (postedDate j)
     (closedDate j) (updatedDate j) (updatedAt j).

Definition setTitle (x : string) (j : t) : t :=
  mk (companyId j) x (referralFee j) (referralFeeCurrency j)
     (applicationDeadline j) (status j) (stats j) (postedDate j)
     (closedDate j) (updatedDate j) (updatedAt j).

Definition setReferralFee (x : Z) (j : t) : t :=
  mk (companyId j) (title j) x (referralFeeCurrency j)
     (applicationDeadline j) (status j) (stats j) (postedDate j)
     (closedDate j) (updatedDate j) (updatedAt j).

Definition setPostedDate (d : option Date) (j : t) : t :=
  mk (companyId j) (title j) (referralFee j) (referralFeeCurrency j)
     (applicationDeadline j) (status j) (stats j) d
     (closedDate j) (updatedDate j) (updatedAt j).

Definition setClosedDate (d : option Date) (j : t) : t :=
  mk (companyId j) (title j) (referralFee j) (referralFeeCurrency j)
     (applicationDeadline j) (status j) (stats j) (postedDate j)
     d (updatedDate j) (updatedAt j).

Definition setUpdatedDate (d : option Date) (j : t) : t :=
  mk (companyId j) (title j) (referralFee j) (referralFeeCurrency j)
     (applicationDeadline j) (status j) (stats j) (postedDate j)
     (closedDate j) d (updatedAt j).

Definition touch (now : Date) (j : t) : t :=
  mk (companyId j) (title j) (referralFee j) (referralFeeCurrency j)
     (applicationDeadline j) (status j) (stats j) (postedDate j)
     (closedDate j) (updatedDate j) now.

Definition incApplications (n : Z) (r : Stats) : Stats :=
  mkStats (views r) (applications r + n) (referrals r) (referralViews r)
          (referralApplications r).

Definition incReferralApplications (n : Z) (r : Stats) : Stats :=
  mkStats (views r) (applications r) (referrals r) (referralViews r)
          (referralApplications r + n).
End Job.

Module StatusEntry.
(** One element of [statusHistory]. *)
Record t := mk {
  status : ApplicationStatus;
  timestamp : Date;
  note : string;
  updatedBy : option ObjectId;
  updatedByModel : option ActorModel
}.
End StatusEntry.

Module ReferralPayment.
Record t := mk {
  isEligible : bool;
  amount : Z;
  currency : string;
  status : PaymentStatus;
  paidAt : option Date;
  paymentReference : option string;
  notes : option string
}.

(** The schema defaults. *)
Definition default : t := mk false 0 "GBP" payPending None None None.

Definition setIsEligible (b : bool) (p : t) : t :=
  mk b (amount p) (currency p) (status p) (paidAt p)
     (paymentReference p) (notes p).

Definition setStatus (st : PaymentStatus) (p : t) : t :=
  mk (isEligible p) (amount p) (currency p) st (paidAt p)
     (paymentReference p) (notes p).

Definition setAmount (a : Z) (p : t) : t :=
  mk (isEligible p) a (currency p) (status p) (paidAt p)
     (paymentReference p) (notes p).

Definition setCurrency (c : string) (p : t) : t :=
  mk (isEligible p) (amount p) c (status p) (paidAt p)
     (paymentReference p) (notes p).
End ReferralPayment.

Module CompanyFeedback.
Record t := mk {
  rating : option Z;
  notes : option string;
  strengths : list string;
  concerns : list string;
  recommendation : option string;
  reviewedByName : option string;
  reviewedByPosition : option string;
  reviewedAt : option Date
}.

Definition default : t := mk None None [] [] None None None None.

(** The validators of the [companyFeedback] paths: [rating] within 1..5,
    [notes] of at most 1000 characters, [recommendation] in its enum. *)
Definition valid (f : t) : bool :=
  match rating f with
  | Some r => bool_decide (1 ≤ r)%Z && bool_decide (r ≤ 5)%Z
  | None => true
  end
  && match notes f with
     | Some n => bool_decide (String.length n ≤ 1000)%nat
     | None => true
     end
  && match recommendation f with
     | Some r => includes ["hire"; "no-hire"; "maybe"; "interview"] r
     | None => true
     end.
End CompanyFeedback.

Module Application.
Record t := mk {
  jobId : ObjectId;
  applicantId : ObjectId;
  companyId : ObjectId;
  referredBy : option ObjectId;
  referralCode : option string;
  isReferral : bool;
  coverLetter : option string;
  status : ApplicationStatus;
  statusHistory : list StatusEntry.t;
  companyFeedback : CompanyFeedback.t;
  referralPayment : ReferralPayment.t;
  applicationSource : ApplicationSource;
  appliedAt : Date;
  createdAt : Date;
  updatedAt : Date
}.

Definition setStatus (st : ApplicationStatus) (a : t) : t :=
  mk (jobId a) (applicantId a) (companyId a) (referredBy a)
     (referralCode a) (isReferral a) (coverLetter a) st
     (statusHistory a) (companyFeedback a) (referralPayment a)
     (applicationSource a) (appliedAt a) (createdAt a) (updatedAt a).

Definition setStatusHistory (h : list StatusEntry.t) (a : t) : t :=
  mk (jobId a) (applicantId a) (companyId a) (referredBy a)
     (referralCode a) (isReferral a) (coverLetter a) (status a)
     h (companyFeedback a) (referralPayment a)
     (applicationSource a) (appliedAt a) (createdAt a) (updatedAt a).

Definition setCompanyFeedback (f : CompanyFeedback.t) (a : t) : t :=
  mk (jobId a) (applicantId a) (companyId a) (referredBy a)
     (referralCode a) (isReferral a) (coverLetter a) (status a)
     (statusHistory a) f (referralPayment a)
     (applicationSource a) (appliedAt a) (createdAt a) (updatedAt a).

Definition setReferralPayment (p : ReferralPayment.t) (a : t) : t :=
  mk (jobId a) (applicantId a) (companyId a) (referredBy a)
     (referralCode a) (isReferral a) (coverLetter a) (status a)
     (statusHistory a) (companyFeedback a) p
     (applicationSource a) (appliedAt a) (createdAt a) (updatedAt a).

Definition setApplicationSource (x : ApplicationSource) (a : t) : t :=
  mk (jobId a) (applicantId a) (companyId a) (referredBy a)
     (referralCode a) (isReferral a) (coverLetter a) (status a)
     (statusHistory a) (companyFeedback a) (referralPayment a)
     x (appliedAt a) (createdAt a) (updatedAt a).

Definition touch (now : Date) (a : t) : t :=
  mk (jobId a) (applicantId a) (companyId a) (referredBy a)
     (referralCode a) (isReferral a) (coverLetter a) (status a)
     (statusHistory a) (companyFeedback a) (referralPayment a)
     (applicationSource a) (appliedAt a) (createdAt a) now.

(** [statusHistory.push(e)]. *)
Definition pushHistory (e : StatusEntry.t) (a : t) : t :=
  setStatusHistory (statusHistory a ++ [e]) a.

(** The schema validators that a save runs: [coverLetter] of at most
    2000 characters, and those of [companyFeedback]. *)
Definition valid (a : t) : bool :=
  match coverLetter a with
  | Some c => bool_decide (String.length c ≤ 2000)%nat
  | None => true
  end
  && CompanyFeedback.valid (companyFeedback a).

(** [canBeWithdrawn] and [canBeUpdatedByCompany] of the model. *)
Definition canBeWithdrawn (a : t) : bool :=
  includes ["pending"; "reviewing"; "shortlisted"] (statusName (status a)).

Definition canBeUpdatedByCompany (a : t) : bool :=
  negb (includes ["hired"; "rejected"; "withdrawn"] (statusName (status a))).
End Application.

(** ** The store and the Mongoose primitives *)

Record Store := mkStore {
  users : gmap positive User.t;
  companies : gmap positive Company.t;
  jobs : gmap positive Job.t;
  applications : gmap positive Application.t
}.

Definition setUsers (f : gmap positive User.t → gmap positive User.t)
    (s : Store) : Store :=
  mkStore (f (users s)) (companies s) (jobs s) (applications s).

Definition setCompanies
    (f : gmap positive Company.t → gmap positive Company.t)
    (s : Store) : Store :=
  mkStore (users s) (f (companies s)) (jobs s) (applications s).

Definition setJobs (f : gmap positive Job.t → gmap positive Job.t)
    (s : Store) : Store :=
  mkStore (users s) (companies s) (f (jobs s)) (applications s).

Definition setApplications
    (f : gmap positive Application.t → gmap positive Application.t)
    (s : Store) : Store :=
  mkStore (users s) (companies s) (jobs s) (f (applications s)).

(** Every schema is declared with [timestamps: true]: an update through
    Mongoose also sets [updatedAt]. *)
Class Timestamped (A : Type) := touch : Date → A → A.
#[global] Instance User_timestamped : Timestamped User.t := User.touch.
#[global] Instance Company_timestamped : Timestamped Company.t := Company.touch.
#[global] Instance Job_timestamped : Timestamped Job.t := Job.touch.
#[global] Instance Application_timestamped : Timestamped Application.t :=
  Application.touch.

Definition findById {A} (i : ObjectId) (m : gmap positive A) : option A :=
  m !! i.

(** [Model.findByIdAndUpdate(id, update)]: the document with that [_id] is
    updated, and nothing happens when there is none. *)
Definition findByIdAndUpdate {A} `{Timestamped A} (now : Date) (i : ObjectId)
    (f : A → A) (m : gmap positive A) : gmap positive A :=
  alter (λ d, touch now (f d)) i m.

(** [Model.findOne(filter)]: a document that matches the filter, if any.  The
    filters used here are on uniquely indexed paths. *)
Definition findOne {A} (P : ObjectId → A → bool) (m : gmap positive A) :
    option (ObjectId * A) :=
  List.find (λ p, P p.1 p.2) (map_to_list m).

(** ** Requests and responses *)

(** [req.user] as [auth] leaves it: the document found for the token's id,
    first among the users, then among the companies. *)
Inductive Principal :=
  | AsUser (id : ObjectId) (u : User.t)
  | AsCompany (id : ObjectId) (c : Company.t).

Definition principalId (p : Principal) : ObjectId :=
  match p with AsUser i _ => i | AsCompany i _ => i end.

(** [req.userType]: the immutable [userType] path of either schema. *)
Definition userType (p : Principal) : string :=
  match p with AsUser _ _ => "user" | AsCompany _ _ => "company" end.

Definition auth (tokenId : ObjectId) (s : Store) : option Principal :=
  match findById tokenId (users s) with
  | Some u => Some (AsUser tokenId u)
  | None =>
      match findById tokenId (companies s) with
      | Some c => Some (AsCompany tokenId c)
      | None => None
      end
  end.

(** The body of a response, reduced to [success] and [error], and its
    HTTP status.  The error kinds of the specification are these responses:
    400 "Already applied" is its DuplicateApplication, 400 "Job not
    accepting applications" its JobNotAcceptingApplications, 400 "Cannot
    withdraw application" the InvalidTransition of a withdrawal, and 403
    "Access denied" its Unauthorized. *)
Record Response := mkResponse {
  statusCode : Z;
  success : bool;
  error : option string
}.

Definition respond (code : Z) : Response := mkResponse code true None.
Definition reject (code : Z) (err : string) : Response :=
  mkResponse code false (Some err).

(** What a rejected promise carries into a controller's [catch]. *)
Inductive Exception := ValidationError | MongoServerError.

(** ** Mongoose documents of the Application model *)

(** An application document in memory: its fields, [isNew],
    [isModified('status')], and the job document when [jobId] has been
    populated. *)
Record Document := mkDocument {
  this : Application.t;
  isNew : bool;
  statusModified : bool;
  populatedJob : option Job.t
}.

(** A document as a query returns it. *)
Definition hydrate (a : Application.t) : Document :=
  mkDocument a false false None.

Definition onThis (f : Application.t → Application.t) (d : Document) :
    Document :=
  mkDocument (f (this d)) (isNew d) (statusModified d) (populatedJob d).

(** [doc.status = st]: the path is marked modified when the value differs
    from the current one. *)
Definition assignStatus (st : ApplicationStatus) (d : Document) : Document :=
  mkDocument (Application.setStatus st (this d)) (isNew d)
    (statusModified d || bool_decide (Application.status (this d) ≠ st))
    (populatedJob d).

(** [models/Application.js], the first [pre('save')] middleware. *)
Definition preSaveStatusHistory (now : Date) (d : Document) : Document :=
  let d1 :=
    if statusModified d && negb (isNew d) then
      onThis (Application.pushHistory
        (StatusEntry.mk (Application.status (this d)) now
           ("Status changed to " +:+ statusName (Application.status (this d)))
           None None)) d
    else d in
  if statusModified d1
     && bool_decide (Application.status (this d1) = hired)
     && Application.isReferral (this d1)
  then
    let p := Application.referralPayment (this d1) in
    let p := ReferralPayment.setIsEligible true p in
    let p := ReferralPayment.setStatus payPending p in
    let p :=
      match populatedJob d1 with
      | Some j =>
          if bool_decide (Job.referralFee j ≠ 0%Z) then
            ReferralPayment.setCurrency
              (orStr (Some (Job.referralFeeCurrency j)) "GBP")
              (ReferralPayment.setAmount (Job.referralFee j) p)
          else p
      | None => p
      end in
    onThis (Application.setReferralPayment p) d1
  else d1.

(** [models/Application.js], the second [pre('save')] middleware. *)
Definition preSaveApplicationSource (d : Document) : Document :=
  if isNew d then
    onThis (Application.setApplicationSource
      (if Application.isReferral (this d) then referral else direct)) d
  else d.

(** [doc.save()]: validation, then the middleware in the order of their
    registration, then the write, which stamps [updatedAt]. *)
Definition save (now : Date) (id : ObjectId) (d : Document) (s : Store) :
    Exception + Store :=
  if Application.valid (this d) then
    let d' := preSaveApplicationSource (preSaveStatusHistory now d) in
    inr (setApplications (insert id (Application.touch now (this d'))) s)
  else inl ValidationError.

(** The filter [{ jobId, applicantId }]. *)
Definition sameJobAndApplicant (j u : ObjectId) (_ : ObjectId)
    (a : Application.t) : bool :=
  bool_decide (Application.jobId a = j)
  && bool_decide (Application.applicantId a = u).

(** [Application.create(fields)]: a new document with the schema defaults,
    saved.  The insert is refused when the [_id] is taken or when the unique
    index on [(jobId, applicantId)] already holds the pair. *)
Definition Application_create (now : Date) (newId : ObjectId)
    (job applicant company : ObjectId) (referredBy : option ObjectId)
    (referralCode : option string) (isReferral : bool)
    (coverLetter : option string) (s : Store) : Exception + Store :=
  let a := Application.mk job applicant company referredBy referralCode
             isReferral coverLetter pending [] CompanyFeedback.default
             ReferralPayment.default direct now now now in
  let d := mkDocument a true false None in
  if Application.valid a then
    match applications s !! newId,
          findOne (sameJobAndApplicant job applicant) (applications s) with
    | None, None => save now newId d s
    | _, _ => inl MongoServerError
    end
  else inl ValidationError.

(** ** [controllers/applicationController.js] *)

Module SubmitBody.
Record t := mk {
  jobId : ObjectId;
  coverLetter : option string;
  referralCode : option string
}.
End SubmitBody.

Module FeedbackBody.
Record t := mk {
  notes : option string;
  strengths : list string;
  concerns : list string;
  recommendation : option string
}.
End FeedbackBody.

Module StatusBody.
Record t := mk {
  status : string;
  note : option string;
  rating : option Z;
  feedback : option FeedbackBody.t
}.
End StatusBody.

Definition validStatuses : list string :=
  ["pending"; "reviewing"; "shortlisted"; "interviewing"; "offered";
   "hired"; "rejected"].

Section Controllers.

(** [String.prototype.toUpperCase] and [String.prototype.trim]. *)
Variable toUpperCase : string → string.
Variable trim : string → string.

(** The filter [{ referralCode: code }]. *)
Definition hasReferralCode (code : string) (_ : ObjectId) (u : User.t) :
    bool :=
  bool_decide (User.referralCode u = Some code).

(** The referral tracking of [submitApplication]: [(referredBy,
    isReferral)]. *)
Definition referralTracking (me : ObjectId) (referralCode : option string)
    (s : Store) : option ObjectId * bool :=
  match referralCode with
  | Some code =>
      if truthyStr referralCode then
        match findOne (hasReferralCode (toUpperCase code)) (users s) with
        | Some (referrer, _) =>
            if bool_decide (referrer ≠ me) then (Some referrer, true)
            else (None, false)
        | None => (None, false)
        end
      else (None, false)
  | None => (None, false)
  end.

Definition submitApplication (now : Date) (newId : ObjectId)
    (p : Principal) (body : SubmitBody.t) (s : Store) : Response * Store :=
  let jobId := SubmitBody.jobId body in
  if bool_decide (userType p ≠ "user") then (reject 403 "Access denied", s)
  else
    match findById jobId (jobs s) with
    | None => (reject 404 "Job not found", s)
    | Some job =>
        if bool_decide (Job.status job ≠ active) then
          (reject 400 "Job not accepting applications", s)
        else
          match findOne (sameJobAndApplicant jobId (principalId p))
                  (applications s) with
          | Some _ => (reject 400 "Already applied", s)
          | None =>
              let '(referredBy, isReferral) :=
                referralTracking (principalId p)
                  (SubmitBody.referralCode body) s in
              (* [job.companyId] was populated: it is null when the
                 company is gone, and [job.companyId._id] throws *)
              match findById (Job.companyId job) (companies s) with
              | None => (reject 500 "Server error", s)
              | Some _ =>
                  match
                    Application_create now newId jobId (principalId p)
                      (Job.companyId job) referredBy
                      (if isReferral
                       then toUpperCase <$> SubmitBody.referralCode body
                       else None)
                      isReferral (SubmitBody.coverLetter body) s
                  with
                  | inl ValidationError =>
                      (reject 400 "Validation Error", s)
                  | inl _ => (reject 500 "Server error", s)
                  | inr s1 =>
                      let s2 :=
                        setJobs (findByIdAndUpdate now jobId
                          (Job.setStats (λ r,
                             let r := Job.incApplications 1 r in
                             if isReferral
                             then Job.incReferralApplications 1 r
                             else r))) s1 in
                      let s3 :=
                        match isReferral, referredBy with
                        | true, Some referrer =>
                            setUsers (findByIdAndUpdate now referrer
                              (User.setStats (User.incTotalReferrals 1))) s2
                        | _, _ => s2
                        end in
                      let s4 :=
                        setCompanies (findByIdAndUpdate now
                          (Job.companyId job)
                          (Company.setStats
                             (Company.incTotalApplications 1))) s3 in
                      (respond 201, s4)
                  end
              end
          end
    end.

(** The helper [processReferralPayment(application)]: it writes on the
    document in memory and on the referrer's earnings in the store. *)
Definition processReferralPayment (now : Date) (d : Document) (s : Store) :
    Document * Store :=
  match Application.isReferral (this d), Application.referredBy (this d) with
  | true, Some referrer =>
      match findById (Application.jobId (this d)) (jobs s) with
      | None => (d, s)
      | Some job =>
          let payment :=
            ReferralPayment.mk true (Job.referralFee job)
              (orStr (Some (Job.referralFeeCurrency job)) "GBP")
              payPending None
              (Some ("REF-PAY-" +:+ numberToString now))
              (Some ("Referral payment for successful hire - "
                     +:+ Job.title job)) in
          (onThis (Application.setReferralPayment payment) d,
           setUsers (findByIdAndUpdate now referrer
             (User.setStats (λ r,
                User.incTotalEarnings (Job.referralFee job)
                  (User.incPendingEarnings (Job.referralFee job) r)))) s)
      end
  | _, _ => (d, s)
  end.

(** [reviewedBy] as [updateApplicationStatus] builds it from
    [req.user.profile?.contactPerson]. *)
Definition reviewerName (p : Principal) : string :=
  match p with
  | AsCompany _ c =>
      trim (orStr (Some (Company.firstName (Company.contactPerson c)))
              EmptyString
            +:+ " " +:+
            orStr (Some (Company.lastName (Company.contactPerson c)))
              EmptyString)
  | AsUser _ _ => trim (EmptyString +:+ " " +:+ EmptyString)
  end.

Definition reviewerPosition (p : Principal) : option string :=
  match p with
  | AsCompany _ c => Some (Company.position (Company.contactPerson c))
  | AsUser _ _ => None
  end.

Definition mergeFeedback (now : Date) (p : Principal)
    (rating : option Z) (feedback : option FeedbackBody.t)
    (old : CompanyFeedback.t) : CompanyFeedback.t :=
  let rating' :=
    if truthyNum rating then rating else CompanyFeedback.rating old in
  match feedback with
  | Some f =>
      CompanyFeedback.mk rating' (FeedbackBody.notes f)
        (FeedbackBody.strengths f) (FeedbackBody.concerns f)
        (FeedbackBody.recommendation f)
        (Some (reviewerName p)) (reviewerPosition p) (Some now)
  | None =>
      CompanyFeedback.mk rating' (CompanyFeedback.notes old)
        (CompanyFeedback.strengths old) (CompanyFeedback.concerns old)
        (CompanyFeedback.recommendation old)
        (Some (reviewerName p)) (reviewerPosition p) (Some now)
  end.

Definition updateApplicationStatus (now : Date) (p : Principal)
    (id : ObjectId) (body : StatusBody.t) (s : Store) : Response * Store :=
  match parseStatus (StatusBody.status body) with
  | None => (reject 400 "Invalid status", s)
  | Some status =>
  if negb (includes validStatuses (StatusBody.status body)) then
    (reject 400 "Invalid status", s)
  else
    match findById id (applications s) with
    | None => (reject 404 "Application not found", s)
    | Some a =>
        if bool_decide (Application.companyId a ≠ principalId p) then
          (reject 403 "Access denied", s)
        else
          let d := assignStatus status (hydrate a) in
          let d :=
            onThis (Application.pushHistory
              (StatusEntry.mk status now
                 (orStr (StatusBody.note body)
                    ("Status changed to " +:+ StatusBody.status body))
                 (Some (principalId p)) (Some CompanyModel))) d in
          let d :=
            if truthyNum (StatusBody.rating body)
               || bool_decide (is_Some (StatusBody.feedback body))
            then
              onThis (λ a, Application.setCompanyFeedback
                (mergeFeedback now p (StatusBody.rating body)
                   (StatusBody.feedback body)
                   (Application.companyFeedback a)) a) d
            else d in
          let '(d, s1) :=
            if bool_decide (status = hired)
               && Application.isReferral (this d)
            then
              let '(d, s1) := processReferralPayment now d s in
              let s2 :=
                setCompanies (findByIdAndUpdate now (principalId p)
                  (Company.setStats (Company.incTotalHires 1))) s1 in
              let s3 :=
                match Application.referredBy (this d) with
                | Some referrer =>
                    setUsers (findByIdAndUpdate now referrer
                      (User.setStats (User.incSuccessfulReferrals 1))) s2
                | None => s2
                end in
              (d, s3)
            else (d, s) in
          match save now id d s1 with
          | inl _ => (reject 500 "Server error", s1)
          | inr s2 => (respond 200, s2)
          end
    end
  end.

Definition withdrawApplication (now : Date) (p : Principal)
    (id : ObjectId) (reason : option string) (s : Store) :
    Response * Store :=
  match findById id (applications s) with
  | None => (reject 404 "Application not found", s)
  | Some a =>
      if bool_decide (Application.applicantId a ≠ principalId p) then
        (reject 403 "Access denied", s)
      else if negb (includes ["pending"; "reviewing"; "shortlisted"]
                      (statusName (Application.status a))) then
        (reject 400 "Cannot withdraw application", s)
      else
        let d := assignStatus withdrawn (hydrate a) in
        let d :=
          onThis (Application.pushHistory
            (StatusEntry.mk withdrawn now
               (orStr reason "Application withdrawn by applicant")
               (Some (principalId p)) (Some UserModel))) d in
        match save now id d s with
        | inl _ => (reject 500 "Server error", s)
        | inr s1 => (respond 200, s1)
        end
  end.

End Controllers.

(** ** [controllers/jobController.js] *)

Module CreateJobBody.
(** The paths of [req.body] embedded for [createJob].  The other required
    paths of the job schema ([description], [jobType], [workType],
    [experienceLevel], [location.city], [category]) are taken to be in the
    request and valid; a request without them is answered 400 and writes
    nothing. *)
Record t := mk {
  title : string;
  referralFee : option Z;
  applicationDeadline : option Date;
  status : option string
}.
End CreateJobBody.

Module UpdateJobBody.
(** The paths of [req.body] embedded for [updateJob], each optional.  The
    code applies the whole body ([{ ...req.body }]), so a request may also
    carry [stats.*], [companyId] and the other paths of the schema; what
    is stated below of the counters in [stats] is stated of sequences of
    requests without this one. *)
Record t := mk {
  title : option string;
  referralFee : option Z;
  status : option string
}.
End UpdateJobBody.

Section JobControllers.

Variable trim : string → string.

(** The validators of the job paths embedded here: [title] required and
    of at most 100 characters, [referralFee] not negative. *)
Definition validTitle (x : string) : bool :=
  negb (bool_decide (x = EmptyString)) && bool_decide (String.length x ≤ 100)%nat.

Definition validReferralFee (fee : Z) : bool := bool_decide (0 ≤ fee)%Z.

(** The validator of [applicationSettings.applicationDeadline]. *)
Definition validDeadline (now : Date) (d : option Date) : bool :=
  match d with Some v => bool_decide (now < v)%Z | None => true end.

Definition createJob (now : Date) (newId : ObjectId) (p : Principal)
    (body : CreateJobBody.t) (s : Store) : Response * Store :=
  let status := CreateJobBody.status body in
  if bool_decide (userType p ≠ "company") then
    (reject 403 "Access denied", s)
  else
    let fee :=
      if truthyNum (CreateJobBody.referralFee body)
      then default 1000%Z (CreateJobBody.referralFee body)
      else 1000%Z in
    let title := trim (CreateJobBody.title body) in
    match parseJobStatus (orStr status "active") with
    | None => (reject 400 "Validation Error", s)
    | Some st =>
        if negb (validTitle title && validReferralFee fee
                 && validDeadline now (CreateJobBody.applicationDeadline body))
        then (reject 400 "Validation Error", s)
        else
          match jobs s !! newId with
          | Some _ => (reject 500 "Server error", s)
          | None =>
              let job :=
                Job.mk (principalId p) title fee "GBP"
                  (CreateJobBody.applicationDeadline body) st
                  (Job.mkStats 0 0 0 0 0)
                  (* [postedDate]: [new Date()] for the status active,
                     and the schema default [Date.now] otherwise;
                     [updatedDate]: its default [Date.now] *)
                  (Some now) None (Some now) now in
              let s1 := setJobs (insert newId job) s in
              let s2 :=
                setCompanies (findByIdAndUpdate now (principalId p)
                  (Company.setStats (λ r,
                     let r := Company.incTotalJobsPosted 1 r in
                     if bool_decide (status = Some "active")
                     then Company.incActiveJobs 1 r else r))) s1 in
              (respond 201, s2)
          end
    end.

(** The update document [{ ...req.body, updatedDate: new Date() }] applied
    with [runValidators]. *)
Definition applyJobUpdate (now : Date) (body : UpdateJobBody.t)
    (j : Job.t) : Exception + Job.t :=
  let title := trim <$> UpdateJobBody.title body in
  let status :=
    match UpdateJobBody.status body with
    | Some str => parseJobStatus str
    | None => Some (Job.status j)
    end in
  match status with
  | None => inl ValidationError
  | Some st =>
      if from_option validTitle true title
         && from_option validReferralFee true
              (UpdateJobBody.referralFee body)
      then
        inr (Job.setUpdatedDate (Some now)
               (Job.setStatus st
                  (Job.setReferralFee
                     (default (Job.referralFee j)
                        (UpdateJobBody.referralFee body))
                     (Job.setTitle (default (Job.title j) title) j))))
      else inl ValidationError
  end.

Definition updateJob (now : Date) (p : Principal) (id : ObjectId)
    (body : UpdateJobBody.t) (s : Store) : Response * Store :=
  match findById id (jobs s) with
  | None => (reject 404 "Job not found", s)
  | Some job =>
      if bool_decide (Job.companyId job ≠ principalId p) then
        (reject 403 "Access denied", s)
      else
        match applyJobUpdate now body job with
        | inl _ => (reject 400 "Validation Error", s)
        | inr job' =>
            (respond 200, setJobs (insert id (Job.touch now job')) s)
        end
  end.

Definition updateJobStatus (now : Date) (p : Principal) (id : ObjectId)
    (status : option string) (s : Store) : Response * Store :=
  match status with
  | None => (reject 400 "Invalid status", s)
  | Some str =>
  match parseJobStatus str with
  | None => (reject 400 "Invalid status", s)
  | Some st =>
      match findById id (jobs s) with
      | None => (reject 404 "Job not found", s)
      | Some job =>
          if bool_decide (Job.companyId job ≠ principalId p) then
            (reject 403 "Access denied", s)
          else
            let oldStatus := Job.status job in
            let job1 := Job.setStatus st job in
            let job2 :=
              if bool_decide (st = active) && bool_decide (oldStatus = draft)
              then Job.setPostedDate (Some now) job1 else job1 in
            let job3 :=
              if includes ["closed"; "filled"] str
              then Job.setClosedDate (Some now) job2 else job2 in
            (* [job.save()]: the pre-save middleware stamps [updatedDate]
               when some path is modified; nothing is written otherwise *)
            let modified :=
              bool_decide (st ≠ oldStatus) || includes ["closed"; "filled"] str in
            let s1 :=
              if modified then
                setJobs (insert id
                  (Job.touch now (Job.setUpdatedDate (Some now) job3))) s
              else s in
            let s2 :=
              if bool_decide (st = active) && bool_decide (oldStatus ≠ active)
              then
                setCompanies (findByIdAndUpdate now (principalId p)
                  (Company.setStats (Company.incActiveJobs 1))) s1
              else if bool_decide (st ≠ active)
                      && bool_decide (oldStatus = active)
              then
                setCompanies (findByIdAndUpdate now (principalId p)
                  (Company.setStats (Company.incActiveJobs (-1)))) s1
              else s1 in
            (respond 200, s2)
      end
  end
  end.

(** The filter of the sweep: active, and the deadline passed. *)
Definition expired (now : Date) (j : Job.t) : bool :=
  bool_decide (Job.status j = active)
  && match Job.applicationDeadline j with
     | Some d => bool_decide (d < now)%Z
     | None => false
     end.

(** What [updateMany] with the sweep's filter and [$set] does to one job. *)
Definition closeIfExpired (now : Date) (j : Job.t) : Job.t :=
  if expired now j
  then Job.touch now (Job.setClosedDate (Some now) (Job.setStatus closed j))
  else j.

(** The body of the sweep's loop over the jobs it found. *)
Definition decrementActiveJobs (now : Date) (acc : Store)
    (p : ObjectId * Job.t) : Store :=
  setCompanies (findByIdAndUpdate now (Job.companyId p.2)
    (Company.setStats (Company.incActiveJobs (-1)))) acc.

Definition cleanupExpiredJobs (now : Date) (s : Store) : Store :=
  let expiredJobs :=
    List.filter (λ p, expired now p.2) (map_to_list (jobs s)) in
  if bool_decide (0 < length expiredJobs)%nat then
    let s1 := setJobs (fmap (closeIfExpired now)) s in
    foldl (decrementActiveJobs now) s1 expiredJobs
  else s.

End JobControllers.

(** ** [models/User.js]: [updateReferralStats] *)

(** The method runs on a user document and ends in
    [this.save({ validateBeforeSave: false })], which writes only when some
    path was modified. *)
Definition updateReferralStats (now : Date) (id : ObjectId) (type : string)
    (amount : Z) (s : Store) : Store :=
  match findById id (users s) with
  | None => s
  | Some u =>
      if bool_decide (type = "add_referral") then
        setUsers (insert id (User.touch now
          (User.setStats (User.incTotalReferrals 1) u))) s
      else if bool_decide (type = "successful_referral") then
        setUsers (insert id (User.touch now
          (User.setStats (λ r,
             User.incTotalEarnings amount
               (User.incPendingEarnings amount
                  (User.incSuccessfulReferrals 1 r))) u))) s
      else if bool_decide (type = "payment_processed") then
        if bool_decide (amount = 0%Z) then s
        else
          setUsers (insert id (User.touch now
            (User.setStats (λ r,
               User.incPaidEarnings amount
                 (User.incPendingEarnings (- amount) r)) u))) s
      else s
  end.

(** ** A concrete store

    Two job seekers, a company, an active job with a fee of 1000, and the
    string functions on ASCII text. *)

Definition upperChar (c : Ascii.ascii) : Ascii.ascii :=
  let n := Ascii.nat_of_ascii c in
  if bool_decide (97 ≤ n)%nat && bool_decide (n ≤ 122)%nat
  then Ascii.ascii_of_nat (n - 32) else c.

Fixpoint upperAscii (str : string) : string :=
  match str with
  | EmptyString => EmptyString
  | String c rest => String (upperChar c) (upperAscii rest)
  end.

Fixpoint trimLeft (str : string) : string :=
  match str with
  | String c rest =>
      if bool_decide (Ascii.nat_of_ascii c = 32%nat) then trimLeft rest
      else str
  | EmptyString => str
  end.

Definition trimAscii (str : string) : string :=
  String.rev (trimLeft (String.rev (trimLeft str))).

Module Fixture.
Definition john : User.t :=
  User.mk (Some "REF-JOHN-123456") (User.mkStats 0 0 0 0 0) 0.
Definition beth : User.t :=
  User.mk (Some "REF-BETH-654321") (User.mkStats 0 0 0 0 0) 0.
Definition acme : Company.t :=
  Company.mk (Company.mkContact "Ada" "Smith" "Recruiter")
    (Company.mkStats 1 1 0 0 0) 0.
Definition engineer : Job.t :=
  Job.mk 20 "Engineer" 1000 "GBP" (Some 5000%Z) active
    (Job.mkStats 0 0 0 0 0) (Some 0%Z) None None 0.

(** john is user 10, beth user 11, the company 20, its job 30. *)
Definition store : Store :=
  mkStore {[ 10%positive := john; 11%positive := beth ]}
          {[ 20%positive := acme ]}
          {[ 30%positive := engineer ]}
          ∅.

(** beth applies with john's code, in lower case. *)
Definition referred : Store :=
  (submitApplication upperAscii 100 40 (AsUser 11 beth)
     (SubmitBody.mk 30 None (Some "ref-john-123456")) store).2.

Definition to (status : string) : StatusBody.t :=
  StatusBody.mk status None None None.
End Fixture.

(** ** Sequences of operations and the invariants of the counters *)

(** A referrer's earnings balance: [totalEarnings] is the sum of
    [pendingEarnings] and [paidEarnings]. *)
Definition earningsBalanced (u : User.t) : Prop :=
  User.totalEarnings (User.referralStats u)
  = (User.pendingEarnings (User.referralStats u)
     + User.paidEarnings (User.referralStats u))%Z.

Definition EarningsInvariant (s : Store) : Prop :=
  map_Forall (λ _ u, earningsBalanced u) (users s).

(** The jobs of company [c] whose status is [active], and their number. *)
Definition activeJobsOf (c : ObjectId) (m : gmap positive Job.t) :
    gmap positive Job.t :=
  filter (λ p : positive * Job.t,
            Job.companyId p.2 = c ∧ Job.status p.2 = active) m.

Definition activeJobCount (c : ObjectId) (s : Store) : Z :=
  Z.of_nat (size (activeJobsOf c (jobs s))).

Definition ActiveJobsInvariant (s : Store) : Prop :=
  map_Forall (λ c company,
    Company.activeJobs (Company.stats company) = activeJobCount c s)
    (companies s).

(** The statuses from which an applicant may withdraw. *)
Definition withdrawable (st : ApplicationStatus) : Prop :=
  st = pending ∨ st = reviewing ∨ st = shortlisted.

(** The statuses that [canBeUpdatedByCompany] closes. *)
Definition terminal (st : ApplicationStatus) : Prop :=
  st = hired ∨ st = rejected ∨ st = withdrawn.

(** The unique index on [referralCode]: only [owner] holds [code]. *)
Definition uniqueReferralCode (code : string) (owner : ObjectId)
    (s : Store) : Prop :=
  map_Forall (λ i u, User.referralCode u = Some code → i = owner) (users s).

Section Traces.

Variable toUpperCase : string → string.
Variable trim : string → string.

(** The requests that touch referral statistics: application submission,
    company status updates (among them the hire), withdrawal, and the
    [updateReferralStats] method of a user (among its cases the payout). *)
Inductive Operation :=
  | Submit (now : Date) (newId : ObjectId) (p : Principal)
      (body : SubmitBody.t)
  | UpdateStatus (now : Date) (p : Principal) (id : ObjectId)
      (body : StatusBody.t)
  | Withdraw (now : Date) (p : Principal) (id : ObjectId)
      (reason : option string)
  | ReferralStatsUpdate (now : Date) (id : ObjectId) (type : string)
      (amount : Z).

Definition step (s : Store) (op : Operation) : Store :=
  match op with
  | Submit now newId p body =>
      (submitApplication toUpperCase now newId p body s).2
  | UpdateStatus now p id body =>
      (updateApplicationStatus trim now p id body s).2
  | Withdraw now p id reason => (withdrawApplication now p id reason s).2
  | ReferralStatsUpdate now id type amount =>
      updateReferralStats now id type amount s
  end.

Definition run (ops : list Operation) (s : Store) : Store :=
  foldl step s ops.

End Traces.

(** ** Requests on the concrete store *)

Module Scenario.
Import Fixture.

(** The company, as [auth] finds it in a store. *)
Definition company (s : Store) : Principal :=
  default (AsCompany 20 acme) (auth 20 s).

(** The company hires her. *)
Definition hiredOnce : Store :=
  (updateApplicationStatus trimAscii 200 (company referred) 40
     (to "hired") referred).2.

(** Her application as submitted, and as hired. *)
Definition submitted : Application.t :=
  Eval vm_compute in
    default
      (Application.mk 1 1 1 None None false None pending []
         CompanyFeedback.default ReferralPayment.default direct 0 0 0)
      (applications referred !! 40%positive).

(** The job, the referrer and the company as they stand when she is
    hired. *)
Definition posting : Job.t :=
  Eval vm_compute in default engineer (jobs referred !! 30%positive).
Definition referrer : User.t :=
  Eval vm_compute in default john (users referred !! 10%positive).
Definition employer : Company.t :=
  Eval vm_compute in default acme (companies referred !! 20%positive).

(** The company moves the hired application back to reviewing. *)
Definition reopened : Response * Store :=
  updateApplicationStatus trimAscii 300 (company hiredOnce) 40
    (to "reviewing") hiredOnce.

(** The company sends the hire a second time. *)
Definition hiredTwice : Response * Store :=
  updateApplicationStatus trimAscii 300 (company hiredOnce) 40
    (to "hired") hiredOnce.

(** The payment helper run twice on the document of her application. *)
Definition paidOnce : Document * Store :=
  processReferralPayment 200 (hydrate submitted) referred.
Definition paidTwice : Document * Store :=
  processReferralPayment 201 paidOnce.1 paidOnce.2.

(** The company posts a second job and leaves [status] out of the
    request. *)
Definition posted : Response * Store :=
  createJob trimAscii 400 31 (company store)
    (CreateJobBody.mk "Designer" None None None) store.

(** The company closes its first job through the generic update. *)
Definition closedByUpdate : Response * Store :=
  updateJob trimAscii 400 (company store) 30
    (UpdateJobBody.mk None None (Some "closed")) store.

(** beth applies, is hired, and john is paid out. *)
Definition history : list Operation :=
  [ Submit 100 40 (AsUser 11 beth)
      (SubmitBody.mk 30 None (Some "ref-john-123456"));
    UpdateStatus 200 (company referred) 40 (to "hired");
    ReferralStatsUpdate 300 10 "payment_processed" 1000 ].
End Scenario.

(** ** What the operations write *)

(** The entry that the save middleware of the model appends. *)
Definition middlewareEntry (now : Date) (st : ApplicationStatus) :
    StatusEntry.t :=
  StatusEntry.mk st now ("Status changed to " +:+ statusName st) None None.

(** The entry that [withdrawApplication] pushes. *)
Definition withdrawalEntry (now : Date) (p : Principal)
    (reason : option string) : StatusEntry.t :=
  StatusEntry.mk withdrawn now
    (orStr reason "Application withdrawn by applicant")
    (Some (principalId p)) (Some UserModel).

(** The entry that [updateApplicationStatus] pushes. *)
Definition companyEntry (now : Date) (p : Principal) (body : StatusBody.t)
    (st : ApplicationStatus) : StatusEntry.t :=
  StatusEntry.mk st now
    (orStr (StatusBody.note body)
       ("Status changed to " +:+ StatusBody.status body))
    (Some (principalId p)) (Some CompanyModel).

(** An application after its withdrawal: the status, the history and
    [updatedAt] are new, every other path is the old one. *)
Definition withdrawnApplication (now : Date) (p : Principal)
    (reason : option string) (a : Application.t) : Application.t :=
  Application.touch now
    (Application.setStatusHistory
       (Application.statusHistory a
        ++ [withdrawalEntry now p reason; middlewareEntry now withdrawn])
       (Application.setStatus withdrawn a)).

(** The application that an accepted submission stores. *)
Definition newApplication (toUpperCase : string → string) (now : Date)
    (p : Principal) (body : SubmitBody.t) (job : Job.t) (s : Store) :
    Application.t :=
  let tracking :=
    referralTracking toUpperCase (principalId p)
      (SubmitBody.referralCode body) s in
  Application.mk (SubmitBody.jobId body) (principalId p) (Job.companyId job)
    tracking.1
    (if tracking.2 then toUpperCase <$> SubmitBody.referralCode body
     else None)
    tracking.2 (SubmitBody.coverLetter body) pending []
    CompanyFeedback.default ReferralPayment.default
    (if tracking.2 then referral else direct) now now now.

(** * The rest of the controllers, the model's methods and the routes *)

(** ** [controllers/jobController.js]: [deleteJob] *)

Definition deleteJob (now : Date) (p : Principal) (id : ObjectId)
    (s : Store) : Response * Store :=
  match findById id (jobs s) with
  | None => (reject 404 "Job not found", s)
  | Some job =>
      if bool_decide (Job.companyId job ≠ principalId p) then
        (reject 403 "Access denied", s)
      else if bool_decide (0 < Job.applications (Job.stats job))%Z then
        (reject 400 "Cannot delete job", s)
      else
        let s1 := setJobs (delete id) s in
        let s2 :=
          setCompanies (findByIdAndUpdate now (principalId p)
            (Company.setStats (λ r,
               let r := Company.incTotalJobsPosted (-1) r in
               if bool_decide (Job.status job = active)
               then Company.incActiveJobs (-1) r else r))) s1 in
        (respond 200, s2)
  end.

(** ** [controllers/applicationController.js]: [getApplicationById] *)

Record Permissions := mkPermissions {
  canUpdate : bool;
  canWithdraw : bool;
  canView : bool
}.

(** [delete responseData.companyFeedback.notes], done when the notes are
    truthy. *)
Definition withoutCompanyNotes (a : Application.t) : Application.t :=
  let f := Application.companyFeedback a in
  if truthyStr (CompanyFeedback.notes f) then
    Application.setCompanyFeedback
      (CompanyFeedback.mk (CompanyFeedback.rating f) None
         (CompanyFeedback.strengths f) (CompanyFeedback.concerns f)
         (CompanyFeedback.recommendation f)
         (CompanyFeedback.reviewedByName f)
         (CompanyFeedback.reviewedByPosition f)
         (CompanyFeedback.reviewedAt f)) a
  else a.

(** The query populates [applicantId], [companyId] and [referredBy]: a
    reference whose document is gone reads as null, and [._id] on the null
    applicant or company throws into the [catch], which answers 500. *)
Definition getApplicationById (p : Principal) (id : ObjectId) (s : Store) :
    Response * option (Application.t * Permissions) :=
  match findById id (applications s) with
  | None => (reject 404 "Application not found", None)
  | Some a =>
      match findById (Application.applicantId a) (users s),
            findById (Application.companyId a) (companies s) with
      | Some _, Some _ =>
          let isApplicant :=
            bool_decide (principalId p = Application.applicantId a) in
          let isCompany :=
            bool_decide (principalId p = Application.companyId a) in
          let isReferrer :=
            match Application.referredBy a with
            | Some referrer =>
                match findById referrer (users s) with
                | Some _ => bool_decide (principalId p = referrer)
                | None => false
                end
            | None => false
            end in
          if negb isApplicant && negb isCompany && negb isReferrer then
            (reject 403 "Access denied", None)
          else
            let data :=
              if isApplicant || isReferrer then withoutCompanyNotes a
              else a in
            (respond 200,
             Some (data,
                   mkPermissions isCompany
                     (isApplicant
                      && includes ["pending"; "reviewing"; "shortlisted"]
                           (statusName (Application.status a)))
                     true))
      | _, _ => (reject 500 "Server error", None)
      end
  end.

(** ** [controllers/applicationController.js]: the earnings of
    [getUserReferrals] *)

Module Earnings.
Record t := mk {
  totalReferrals : Z;
  successfulReferrals : Z;
  pendingEarnings : Z;
  totalEarnings : Z
}.

Definition zero : t := mk 0 0 0 0.

(** The [$group] stage, one document at a time. *)
Definition add (a : Application.t) (e : t) : t :=
  let payment := Application.referralPayment a in
  mk (totalReferrals e + 1)
     (successfulReferrals e
      + (if bool_decide (Application.status a = hired) then 1 else 0))
     (pendingEarnings e
      + (if ReferralPayment.isEligible payment
            && bool_decide (ReferralPayment.status payment = payPending)
         then ReferralPayment.amount payment else 0))
     (totalEarnings e
      + (if ReferralPayment.isEligible payment
         then ReferralPayment.amount payment else 0)).
End Earnings.

(** The [$match] stage: the applications referred by [me]. *)
Definition referralsOf (me : ObjectId) (s : Store) : list Application.t :=
  List.filter (λ a, bool_decide (Application.referredBy a = Some me))
    (map_to_list (applications s)).*2.

(** [earningsStats[0] || { zeros }]: the aggregate has one group when some
    application matches and none otherwise. *)
Definition earningsSummary (me : ObjectId) (s : Store) : Earnings.t :=
  match referralsOf me s with
  | [] => Earnings.zero
  | referred => foldr Earnings.add Earnings.zero referred
  end.

(** ** [models/Application.js]: the [updateStatus] method *)

Definition Application_updateStatus (now : Date) (id : ObjectId)
    (newStatus : ApplicationStatus) (note : string)
    (updatedBy : option ObjectId) (updatedByModel : ActorModel)
    (d : Document) (s : Store) : Exception + Store :=
  let d := assignStatus newStatus d in
  let d :=
    onThis (Application.pushHistory
      (StatusEntry.mk newStatus now note updatedBy (Some updatedByModel))) d in
  save now id d s.

(** ** [middleware/auth.js] and [routes/applications.js] *)

Definition unauthorized : Response := mkResponse 401 false None.

(** [requireUser] and [requireCompany]: the response that ends the request,
    if any. *)
Definition requireUser (p : Principal) : option Response :=
  if bool_decide (userType p ≠ "user") then Some (reject 403 "Access denied")
  else None.

Definition requireCompany (p : Principal) : option Response :=
  if bool_decide (userType p ≠ "company")
  then Some (reject 403 "Access denied")
  else None.

(** [PUT /:id/status]: [auth], [requireCompany], the route's validation,
    then the controller.  [token] is the id that the verified token
    carries, if the request has a token that verifies. *)
Definition putStatus (trim : string → string) (now : Date)
    (token : option ObjectId) (id : ObjectId) (body : StatusBody.t)
    (s : Store) : Response * Store :=
  match token ≫= λ i, auth i s with
  | None => (unauthorized, s)
  | Some p =>
      match requireCompany p with
      | Some refusal => (refusal, s)
      | None =>
          if bool_decide (StatusBody.status body = EmptyString) then
            (reject 400 "Missing status", s)
          else if negb (includes validStatuses (StatusBody.status body)) then
            (reject 400 "Invalid status", s)
          else updateApplicationStatus trim now p id body s
      end
  end.

(** [PUT /:id/withdraw]: [auth], [requireUser], then the controller. *)
Definition putWithdraw (now : Date) (token : option ObjectId)
    (id : ObjectId) (reason : option string) (s : Store) :
    Response * Store :=
  match token ≫= λ i, auth i s with
  | None => (unauthorized, s)
  | Some p =>
      match requireUser p with
      | Some refusal => (refusal, s)
      | None => withdrawApplication now p id reason s
      end
  end.

(** ** Every request that writes *)

Section Requests.

Variable toUpperCase : string → string.
Variable trim : string → string.

Inductive Request :=
  | ApplicationRequest (op : Operation)
  | CreateJob (now : Date) (newId : ObjectId) (p : Principal)
      (body : CreateJobBody.t)
  | UpdateJob (now : Date) (p : Principal) (id : ObjectId)
      (body : UpdateJobBody.t)
  | UpdateJobStatus (now : Date) (p : Principal) (id : ObjectId)
      (status : option string)
  | DeleteJob (now : Date) (p : Principal) (id : ObjectId)
  | Sweep (now : Date).

Definition handle (s : Store) (r : Request) : Store :=
  match r with
  | ApplicationRequest op => step toUpperCase trim s op
  | CreateJob now newId p body => (createJob trim now newId p body s).2
  | UpdateJob now p id body => (updateJob trim now p id body s).2
  | UpdateJobStatus now p id status => (updateJobStatus now p id status s).2
  | DeleteJob now p id => (deleteJob now p id s).2
  | Sweep now => cleanupExpiredJobs now s
  end.

Definition serve (requests : list Request) (s : Store) : Store :=
  foldl handle s requests.

End Requests.

(** ** Invariants of the application collection *)

(** The unique index on [(jobId, applicantId)]. *)
Definition UniquePairs (s : Store) : Prop :=
  ∀ i j a b,
    applications s !! i = Some a → applications s !! j = Some b →
    Application.jobId a = Application.jobId b →
    Application.applicantId a = Application.applicantId b → i = j.

(** Every stored application passes the validators of its schema. *)
Definition AllValid (s : Store) : Prop :=
  map_Forall (λ _ a, Application.valid a = true) (applications s).

(** [b] is a later state of the application [a]: what was frozen at
    submission is the same, and the history of [a] begins that of [b]. *)
Definition laterStateOf (a b : Application.t) : Prop :=
  Application.jobId b = Application.jobId a
  ∧ Application.applicantId b = Application.applicantId a
  ∧ Application.companyId b = Application.companyId a
  ∧ Application.referredBy b = Application.referredBy a
  ∧ Application.referralCode b = Application.referralCode a
  ∧ Application.isReferral b = Application.isReferral a
  ∧ Application.coverLetter b = Application.coverLetter a
  ∧ Application.applicationSource b = Application.applicationSource a
  ∧ Application.appliedAt b = Application.appliedAt a
  ∧ Application.createdAt b = Application.createdAt a
  ∧ Application.statusHistory a `prefix_of` Application.statusHistory b.

(** The applications of a job, those of them that are referrals, and the
    job counters that count them. *)
Definition applicationsOf (job : ObjectId)
    (m : gmap positive Application.t) : gmap positive Application.t :=
  filter (λ p : positive * Application.t, Application.jobId p.2 = job) m.

Definition referralApplicationsOf (job : ObjectId)
    (m : gmap positive Application.t) : gmap positive Application.t :=
  filter (λ p : positive * Application.t,
            Application.jobId p.2 = job ∧ Application.isReferral p.2 = true) m.

Definition JobCountersInvariant (s : Store) : Prop :=
  map_Forall (λ i job,
    Job.applications (Job.stats job)
    = Z.of_nat (size (applicationsOf i (applications s)))
    ∧ Job.referralApplications (Job.stats job)
      = Z.of_nat (size (referralApplicationsOf i (applications s))))
    (jobs s)
  ∧ map_Forall (λ _ a, is_Some (jobs s !! Application.jobId a))
      (applications s).

(** * Numbers as the program holds them

    A JavaScript [Number] and a BSON double are IEEE 754 binary64 values:
    [+], [-], [+=], [-=] and [$inc] round to nearest, ties to even. *)

Module Number.
Definition t : Type := spec_float.

Definition prec : Z := 53.
Definition emax : Z := 1024.

Definition add : t → t → t := SFadd prec emax.
Definition sub : t → t → t := SFsub prec emax.
Definition div : t → t → t := SFdiv prec emax.

(** [a == b] on Numbers. *)
Definition eqb : t → t → bool := SFeqb.

(** A whole number as a Number. *)
Definition ofZ (n : Z) : t := binary_normalize prec emax n 0 false.

(** The mantissa [q] shifted left by [j] bits. *)
Definition pshift (q : positive) (j : nat) : positive := Nat.iter j xO q.

(** The decimal literal with one place after the point, [n / 10]: the
    double nearest to it. *)
Definition tenths (n : Z) : t := div (ofZ n) (ofZ 10).
End Number.

(** ** [referralStats] with its paths as Numbers *)

Module NumberStats.
Record t := mk {
  totalReferrals : Number.t;
  successfulReferrals : Number.t;
  totalEarnings : Number.t;
  pendingEarnings : Number.t;
  paidEarnings : Number.t
}.

(** The schema defaults. *)
Definition zero : t :=
  mk (Number.ofZ 0) (Number.ofZ 0) (Number.ofZ 0) (Number.ofZ 0)
     (Number.ofZ 0).

(** [$inc: { 'referralStats.totalReferrals': 1 }] of [submitApplication]. *)
Definition incTotalReferrals (r : t) : t :=
  mk (Number.add (totalReferrals r) (Number.ofZ 1))
     (successfulReferrals r) (totalEarnings r) (pendingEarnings r)
     (paidEarnings r).

(** [$inc: { 'referralStats.successfulReferrals': 1 }] of
    [updateApplicationStatus]. *)
Definition incSuccessfulReferrals (r : t) : t :=
  mk (totalReferrals r)
     (Number.add (successfulReferrals r) (Number.ofZ 1))
     (totalEarnings r) (pendingEarnings r) (paidEarnings r).

(** The [$inc] of [processReferralPayment] on the referrer. *)
Definition processReferralPayment (referralFee : Number.t) (r : t) : t :=
  mk (totalReferrals r) (successfulReferrals r)
     (Number.add (totalEarnings r) referralFee)
     (Number.add (pendingEarnings r) referralFee)
     (paidEarnings r).

(** [updateReferralStats(type, amount)] of the user model. *)
Definition updateReferralStats (type : string) (amount : Number.t) (r : t) :
    t :=
  if bool_decide (type = "add_referral") then
    mk (Number.add (totalReferrals r) (Number.ofZ 1))
       (successfulReferrals r) (totalEarnings r) (pendingEarnings r)
       (paidEarnings r)
  else if bool_decide (type = "successful_referral") then
    mk (totalReferrals r)
       (Number.add (successfulReferrals r) (Number.ofZ 1))
       (Number.add (totalEarnings r) amount)
       (Number.add (pendingEarnings r) amount)
       (paidEarnings r)
  else if bool_decide (type = "payment_processed") then
    mk (totalReferrals r) (successfulReferrals r) (totalEarnings r)
       (Number.sub (pendingEarnings r) amount)
       (Number.add (paidEarnings r) amount)
  else r.

(** The writes of the program to the [referralStats] of one user, with
    amounts in [N]: an accepted submission that the user referred, the
    payment and the count of a hire of such an application, and a call
    of [updateReferralStats]. *)
Inductive Write (N : Type) :=
  | Referred
  | Paid (referralFee : N)
  | Succeeded
  | Update (type : string) (amount : N).

Arguments Referred {N}.
Arguments Paid {N} referralFee.
Arguments Succeeded {N}.
Arguments Update {N} type amount.

Definition write (r : t) (w : Write Number.t) : t :=
  match w with
  | Referred => incTotalReferrals r
  | Paid referralFee => processReferralPayment referralFee r
  | Succeeded => incSuccessfulReferrals r
  | Update type amount => updateReferralStats type amount r
  end.

Definition run (ws : list (Write Number.t)) (r : t) : t := foldl write r ws.

(** [totalEarnings == pendingEarnings + paidEarnings]. *)
Definition balanced (r : t) : bool :=
  Number.eqb (totalEarnings r)
    (Number.add (pendingEarnings r) (paidEarnings r)).

(** A write whose amounts are whole numbers, and the most that it adds to
    a path. *)
Definition ofWhole (w : Write Z) : Write Number.t :=
  match w with
  | Referred => Referred
  | Paid referralFee => Paid (Number.ofZ referralFee)
  | Succeeded => Succeeded
  | Update type amount => Update type (Number.ofZ amount)
  end.

Definition weight (w : Write Z) : Z :=
  match w with
  | Referred | Succeeded => 1
  | Paid referralFee => Z.abs referralFee
  | Update _ amount => Z.abs amount + 1
  end.

Definition weights (ws : list (Write Z)) : Z :=
  foldr (λ w n, weight w + n)%Z 0%Z ws.

(** The stats whose paths are these whole numbers. *)
Definition whole (totalReferrals successfulReferrals totalEarnings
    pendingEarnings paidEarnings : Z) : t :=
  mk (Number.ofZ totalReferrals) (Number.ofZ successfulReferrals)
     (Number.ofZ totalEarnings) (Number.ofZ pendingEarnings)
     (Number.ofZ paidEarnings).
End NumberStats.

(** The requests that apply a body to a job as it comes. *)
Definition isGenericUpdate (r : Request) : bool :=
  match r with UpdateJob _ _ _ _ => true | _ => false end.

(** ** Further cases on the fixture *)

Module Cases.
Import Fixture Scenario.

(** The application of beth after her job was removed from the store. *)
Definition orphaned : Store := setJobs (delete 30%positive) referred.

(** The company reviews her application and leaves notes. *)
Definition noted : Store :=
  (updateApplicationStatus trimAscii 200 (company referred) 40
     (StatusBody.mk "reviewing" None (Some 4%Z)
        (Some (FeedbackBody.mk (Some "Strong candidate") [] [] None)))
     referred).2.

(** What [getApplicationById] then shows to the company. *)
Definition shown : Application.t * Permissions :=
  Eval vm_compute in
    default (submitted, mkPermissions false false false)
      (getApplicationById (company noted) 40 noted).2.

(** The hire with a rating outside the schema's range. *)
Definition overrated : StatusBody.t :=
  StatusBody.mk "hired" None (Some 6%Z) None.

(** The company posts a second job; beth applies to the first with john's
    code, john to the second, and beth to the first once more (refused);
    the company reviews and hires beth; john withdraws; the second job is
    renamed, closed by the sweep and its deletion refused; the first job
    is filled and john is paid out. *)
Definition requests : list Request :=
  [ CreateJob 50 31 (company store)
      (CreateJobBody.mk "Designer" (Some 500%Z) (Some 900%Z) (Some "active"));
    ApplicationRequest
      (Submit 100 40 (AsUser 11 beth)
         (SubmitBody.mk 30 None (Some "ref-john-123456")));
    ApplicationRequest
      (Submit 110 41 (AsUser 10 john) (SubmitBody.mk 31 (Some "Hello") None));
    ApplicationRequest
      (Submit 120 42 (AsUser 11 beth) (SubmitBody.mk 30 None None));
    ApplicationRequest
      (UpdateStatus 200 (company store) 40 (to "reviewing"));
    ApplicationRequest (UpdateStatus 210 (company store) 40 (to "hired"));
    ApplicationRequest (Withdraw 220 (AsUser 10 john) 41 None);
    UpdateJob 300 (company store) 31
      (UpdateJobBody.mk (Some "Senior designer") None None);
    Sweep 1000;
    DeleteJob 1100 (company store) 31;
    UpdateJobStatus 1200 (company store) 30 (Some "filled");
    ApplicationRequest (ReferralStatsUpdate 1300 10 "payment_processed" 1000) ].

(** The same without the renaming of the second job. *)
Definition counted : list Request :=
  List.filter (λ r, negb (isGenericUpdate r)) requests.

(** The company closes the job after beth has applied. *)
Definition closedAfter : Store :=
  (updateJobStatus 300 (company referred) 30 (Some "closed") referred).2.

(** Three hires for jobs with fees of 0.1, 0.2 and 0.3, and a payout of 0.1
    after the second. *)
Definition fractional : list (NumberStats.Write Number.t) :=
  [ NumberStats.Paid (Number.tenths 1);
    NumberStats.Paid (Number.tenths 2);
    NumberStats.Update "payment_processed" (Number.tenths 1);
    NumberStats.Paid (Number.tenths 3) ].

(** A referral, its hire for the fee of 1000 and the payout. *)
Definition paidOut : list (NumberStats.Write Z) :=
  [ NumberStats.Referred;
    NumberStats.Paid 1000%Z;
    NumberStats.Succeeded;
    NumberStats.Update "payment_processed" 1000%Z ].
End Cases.

(** * Properties *)

(** ** The Mongoose primitives *)

Section Primitives.
Context {A : Type}.
Implicit Types (m : gmap positive A) (P : ObjectId → A → bool).

Lemma findOne_Some P m i x :
  findOne P m = Some (i, x) → m !! i = Some x ∧ P i x = true.
Proof.
  unfold findOne. intros H. apply List.find_some in H as [Hin HP].
  split; [|exact HP].
  apply elem_of_map_to_list, list_elem_of_In, Hin.
Qed.

Lemma findOne_None P m i x :
  findOne P m = None → m !! i = Some x → P i x = false.
Proof.
  unfold findOne. intros H Hix.
  apply (List.find_none _ _ H (i, x)).
  apply list_elem_of_In, elem_of_map_to_list, Hix.
Qed.

Lemma findOne_is_Some P m i x :
  m !! i = Some x → P i x = true → is_Some (findOne P m).
Proof.
  intros Hix HP. destruct (findOne P m) as [r|] eqn:E; [by eexists|].
  rewrite (findOne_None _ _ _ _ E Hix) in HP. discriminate.
Qed.

Lemma findByIdAndUpdate_lookup `{Timestamped A} now i f m :
  findByIdAndUpdate now i f m !! i = (λ d, touch now (f d)) <$> m !! i.
Proof. unfold findByIdAndUpdate. by rewrite lookup_alter_eq. Qed.

Lemma findByIdAndUpdate_lookup_ne `{Timestamped A} now i j f m :
  i ≠ j → findByIdAndUpdate now i f m !! j = m !! j.
Proof. intros. unfold findByIdAndUpdate. by rewrite lookup_alter_ne. Qed.

Lemma findByIdAndUpdate_Forall `{Timestamped A} (Q : A → Prop) now i f m :
  (∀ d, Q d → Q (touch now (f d))) →
  map_Forall (λ _, Q) m → map_Forall (λ _, Q) (findByIdAndUpdate now i f m).
Proof.
  intros Hf Hm j x. destruct (decide (i = j)) as [->|Hne].
  - rewrite findByIdAndUpdate_lookup.
    destruct (m !! j) as [d|] eqn:E; simpl; [|discriminate].
    intros [= <-]. apply Hf. by eapply Hm.
  - rewrite findByIdAndUpdate_lookup_ne by done. apply Hm.
Qed.
End Primitives.

(** Every status that the company route accepts is a status of the
    schema. *)
Lemma validStatuses_parse str :
  includes validStatuses str = true → is_Some (parseStatus str).
Proof.
  unfold includes, validStatuses. intros H. apply bool_decide_eq_true in H.
  repeat (apply elem_of_cons in H as [->|H]; [by eexists|]).
  by apply elem_of_nil in H.
Qed.

Lemma parseStatus_name st : parseStatus (statusName st) = Some st.
Proof. by destruct st. Qed.

Lemma withdrawable_includes st :
  includes ["pending"; "reviewing"; "shortlisted"] (statusName st) = true
  ↔ withdrawable st.
Proof.
  unfold withdrawable.
  destruct st; vm_compute; split; intros H; try done;
    try (by auto); by destruct H as [H|[H|H]].
Qed.

(** ** Saving an application document *)

Lemma save_inv now id d s s' :
  save now id d s = inr s' →
  Application.valid (this d) = true
  ∧ s' = setApplications
           (insert id (Application.touch now
              (this (preSaveApplicationSource (preSaveStatusHistory now d)))))
           s.
Proof.
  unfold save. destruct (Application.valid (this d)); [|discriminate].
  by intros [= <-].
Qed.

Lemma save_valid now id d s :
  Application.valid (this d) = true →
  save now id d s
  = inr (setApplications
           (insert id (Application.touch now
              (this (preSaveApplicationSource (preSaveStatusHistory now d)))))
           s).
Proof. unfold save. by intros ->. Qed.

Lemma save_invalid now id d s e :
  save now id d s = inl e → Application.valid (this d) = false.
Proof.
  unfold save. destruct (Application.valid (this d)); [discriminate|done].
Qed.

(** The history that a save of a loaded document writes: what the
    controller left, then the middleware's entry when the status was
    modified. *)
Lemma saved_statusHistory now d :
  isNew d = false →
  Application.statusHistory
    (this (preSaveApplicationSource (preSaveStatusHistory now d)))
  = Application.statusHistory (this d)
    ++ (if statusModified d
        then [middlewareEntry now (Application.status (this d))] else []).
Proof.
  intros Hnew. unfold preSaveApplicationSource, preSaveStatusHistory.
  rewrite Hnew. destruct d as [a n m pj]; simpl in *; subst n.
  destruct m; simpl.
  - repeat case_match; simpl; by rewrite ?Hnew.
  - by rewrite app_nil_r.
Qed.

(** The middleware leaves the status as it is. *)
Lemma saved_status now d :
  Application.status
    (this (preSaveApplicationSource (preSaveStatusHistory now d)))
  = Application.status (this d).
Proof.
  unfold preSaveApplicationSource, preSaveStatusHistory.
  destruct d as [a n m pj]; simpl.
  repeat (case_match; simpl in *; try done).
Qed.

(** Away from a hire, a save of a loaded document changes the history and
    nothing else. *)
Lemma saved_not_hired now d :
  isNew d = false → Application.status (this d) ≠ hired →
  this (preSaveApplicationSource (preSaveStatusHistory now d))
  = Application.setStatusHistory
      (Application.statusHistory (this d)
       ++ (if statusModified d
           then [middlewareEntry now (Application.status (this d))] else []))
      (this d).
Proof.
  intros Hnew Hst. unfold preSaveApplicationSource, preSaveStatusHistory.
  destruct d as [a n m pj]; simpl in *; subst n.
  destruct m; simpl.
  - rewrite bool_decide_eq_false_2 by done. done.
  - rewrite app_nil_r. by destruct a.
Qed.

(** ** Withdrawal *)

(** [withdrawApplication] on an application that exists, branch by
    branch. *)
Lemma withdrawApplication_found now p id reason s a :
  applications s !! id = Some a →
  withdrawApplication now p id reason s
  = if bool_decide (Application.applicantId a ≠ principalId p) then
      (reject 403 "Access denied", s)
    else if negb (includes ["pending"; "reviewing"; "shortlisted"]
                    (statusName (Application.status a))) then
      (reject 400 "Cannot withdraw application", s)
    else if Application.valid a then
      (respond 200,
       setApplications (insert id (withdrawnApplication now p reason a)) s)
    else (reject 500 "Server error", s).
Proof.
  intros Hfind. unfold withdrawApplication, findById. rewrite Hfind.
  case_bool_decide; [done|].
  destruct (includes _ (statusName (Application.status a))) eqn:Hinc;
    simpl; [|done].
  apply withdrawable_includes in Hinc.
  unfold save. simpl.
  replace (Application.valid (Application.pushHistory _ _))
    with (Application.valid a) by (by destruct a).
  destruct (Application.valid a); [|done].
  rewrite saved_not_hired by done. simpl.
  rewrite bool_decide_eq_true_2
    by (intros E; rewrite E in Hinc; by destruct Hinc as [?|[?|?]]).
  unfold withdrawnApplication. rewrite <- app_assoc. simpl.
  by destruct a.
Qed.

(** C8.  For an application in the store (whose paths pass the schema
    validators, as every saved document does), [withdrawApplication]
    succeeds if and only if the caller is the applicant and the status is
    pending, reviewing or shortlisted.  On success the stored status is
    withdrawn and the history has gained the applicant's entry, followed by
    the entry of the save middleware.  On failure the store is unchanged,
    and the applicant who withdraws an application already withdrawn is
    answered 400 "Cannot withdraw application". *)
Theorem withdraw_iff_applicant_and_open_status
    now p id reason s a :
  applications s !! id = Some a →
  Application.valid a = true →
  (success (withdrawApplication now p id reason s).1 = true
   ↔ Application.applicantId a = principalId p
     ∧ withdrawable (Application.status a))
  ∧ (success (withdrawApplication now p id reason s).1 = true →
     ∃ a', applications (withdrawApplication now p id reason s).2 !! id
           = Some a'
       ∧ Application.status a' = withdrawn
       ∧ Application.statusHistory a'
         = Application.statusHistory a
           ++ [withdrawalEntry now p reason; middlewareEntry now withdrawn])
  ∧ (success (withdrawApplication now p id reason s).1 = false →
     (withdrawApplication now p id reason s).2 = s)
  ∧ (Application.status a = withdrawn →
     Application.applicantId a = principalId p →
     withdrawApplication now p id reason s
     = (reject 400 "Cannot withdraw application", s)).
Proof.
  intros Hfind Hvalid.
  rewrite (withdrawApplication_found _ _ _ _ _ _ Hfind), Hvalid.
  case_bool_decide as Hown.
  - simpl. split_and!;
      first [done | by intros _ ? | split; [done | by intros [? ?]]].
  - destruct (includes _ (statusName (Application.status a))) eqn:Hinc; simpl.
    + pose proof (proj1 (withdrawable_includes _) Hinc) as Hw.
      split_and!; [done| |done|].
      * intros _. eexists. split; [apply lookup_insert_eq|]. done.
      * intros Hst. rewrite Hst in Hw. by destruct Hw as [?|[?|?]].
    + assert (¬ withdrawable (Application.status a)) as Hw.
      { intros Hw. apply withdrawable_includes in Hw. congruence. }
      split_and!;
        first [done | by intros _ ? | split; [done | by intros [? ?]]].
Qed.

(** C10.  A successful withdrawal writes one document: the application,
    with a new status, history and [updatedAt] and every other path as it
    was.  The users, the jobs and the companies, and with them every
    counter, and all other applications are left as they were. *)
Theorem withdraw_changes_only_the_application
    now p id reason s a :
  applications s !! id = Some a →
  success (withdrawApplication now p id reason s).1 = true →
  users (withdrawApplication now p id reason s).2 = users s
  ∧ jobs (withdrawApplication now p id reason s).2 = jobs s
  ∧ companies (withdrawApplication now p id reason s).2 = companies s
  ∧ applications (withdrawApplication now p id reason s).2
    = <[id := withdrawnApplication now p reason a]> (applications s).
Proof.
  intros Hfind. rewrite (withdrawApplication_found _ _ _ _ _ _ Hfind).
  repeat case_match; simpl; try done.
Qed.

(** ** Company status updates *)

(** [processReferralPayment] writes the payment on the document and the
    earnings on the users; the rest of both is as before. *)
Lemma processReferralPayment_frame now d s :
  isNew (processReferralPayment now d s).1 = isNew d
  ∧ statusModified (processReferralPayment now d s).1 = statusModified d
  ∧ Application.status (this (processReferralPayment now d s).1)
    = Application.status (this d)
  ∧ Application.statusHistory (this (processReferralPayment now d s).1)
    = Application.statusHistory (this d)
  ∧ applications (processReferralPayment now d s).2 = applications s
  ∧ jobs (processReferralPayment now d s).2 = jobs s
  ∧ companies (processReferralPayment now d s).2 = companies s.
Proof. unfold processReferralPayment. by repeat case_match. Qed.

(** C9.  When [updateApplicationStatus] succeeds with a status other than
    the stored one, the stored history is the old one followed by exactly
    two entries: the controller's, whose actor is the company, and the one
    of the save middleware, which has no actor. *)
Theorem status_change_is_logged_twice
    trim now p id body s a st :
  applications s !! id = Some a →
  parseStatus (StatusBody.status body) = Some st →
  st ≠ Application.status a →
  success (updateApplicationStatus trim now p id body s).1 = true →
  ∃ a', applications (updateApplicationStatus trim now p id body s).2 !! id
        = Some a'
    ∧ Application.status a' = st
    ∧ Application.statusHistory a'
      = Application.statusHistory a
        ++ [companyEntry now p body st; middlewareEntry now st]
    ∧ StatusEntry.updatedBy (companyEntry now p body st)
      = Some (principalId p)
    ∧ StatusEntry.updatedByModel (companyEntry now p body st)
      = Some CompanyModel
    ∧ StatusEntry.updatedBy (middlewareEntry now st) = None
    ∧ StatusEntry.updatedByModel (middlewareEntry now st) = None.
Proof.
  intros Hfind Hparse Hchange.
  unfold updateApplicationStatus, findById. rewrite Hparse, Hfind.
  destruct (includes validStatuses _); simpl; [|done].
  case_bool_decide; [done|].
  match goal with
  | |- context [if ?c then ?x else ?y] =>
      match type of x with
      | (Document * Store)%type => set (prepared := if c then x else y)
      end
  end.
  assert (isNew prepared.1 = false
          ∧ statusModified prepared.1 = true
          ∧ Application.status (this prepared.1) = st
          ∧ Application.statusHistory (this prepared.1)
            = Application.statusHistory a ++ [companyEntry now p body st])
    as (Hnew & Hmod & Hst & Hhist).
  { subst prepared.
    assert (bool_decide (Application.status a ≠ st) = true) as Hne
      by (by apply bool_decide_eq_true_2).
    repeat case_match; simpl;
      repeat match goal with
      | E : processReferralPayment ?n ?d ?s = _ |- _ =>
          let F := fresh in
          pose proof (processReferralPayment_frame n d s) as F;
          rewrite E in F; simpl in F;
          destruct F as (-> & -> & -> & -> & _); clear E
      end; simpl; by rewrite ?Hne. }
  destruct prepared as [d s1]; simpl in *.
  destruct (save now id d s1) as [e|s2] eqn:Hsave; simpl; [done|].
  intros _. apply save_inv in Hsave as [_ ->]. simpl.
  eexists. split; [apply lookup_insert_eq|].
  simpl. rewrite saved_status, saved_statusHistory, Hmod, Hst, Hhist by done.
  by rewrite <- app_assoc.
Qed.

Lemma includes_validStatuses_hired : includes validStatuses "hired" = true.
Proof. by vm_compute. Qed.

Lemma parseStatus_hired : parseStatus "hired" = Some hired.
Proof. by vm_compute. Qed.

(** C3.  When the owning company moves a referred application to hired
    (the job, the referrer and the company being in the store), the stored
    application is hired with a referral payment that is eligible, pending
    and of the job's referral fee; the referrer's pending and total earnings
    have grown by that fee and the successful referrals by one; the
    company's total hires have grown by one. *)
Theorem hire_records_payment_and_counters
    trim now p id body s a job referrer u c :
  applications s !! id = Some a →
  Application.isReferral a = true →
  Application.referredBy a = Some referrer →
  jobs s !! Application.jobId a = Some job →
  users s !! referrer = Some u →
  companies s !! Application.companyId a = Some c →
  StatusBody.status body = "hired" →
  success (updateApplicationStatus trim now p id body s).1 = true →
  (∃ a', applications (updateApplicationStatus trim now p id body s).2 !! id
         = Some a'
     ∧ Application.status a' = hired
     ∧ ReferralPayment.isEligible (Application.referralPayment a') = true
     ∧ ReferralPayment.amount (Application.referralPayment a')
       = Job.referralFee job
     ∧ ReferralPayment.status (Application.referralPayment a') = payPending)
  ∧ (∃ u', users (updateApplicationStatus trim now p id body s).2 !! referrer
           = Some u'
       ∧ User.pendingEarnings (User.referralStats u')
         = (User.pendingEarnings (User.referralStats u)
            + Job.referralFee job)%Z
       ∧ User.totalEarnings (User.referralStats u')
         = (User.totalEarnings (User.referralStats u)
            + Job.referralFee job)%Z
       ∧ User.successfulReferrals (User.referralStats u')
         = (User.successfulReferrals (User.referralStats u) + 1)%Z)
  ∧ (∃ c', companies (updateApplicationStatus trim now p id body s).2
             !! Application.companyId a = Some c'
       ∧ Company.totalHires (Company.stats c')
         = (Company.totalHires (Company.stats c) + 1)%Z).
Proof.
  intros Hfind Hreferral Hreferrer Hjob Huser Hcompany Hbody.
  unfold updateApplicationStatus, findById.
  rewrite Hbody, parseStatus_hired, includes_validStatuses_hired, Hfind.
  simpl negb. cbv iota.
  case_bool_decide as Hown; [done|].
  rewrite <- Hown.
  destruct (truthyNum _ || _); simpl;
    rewrite Hreferral; simpl;
    unfold processReferralPayment, findById; simpl;
    rewrite Hreferral, Hreferrer, Hjob; simpl;
    (match goal with
     | |- context [save ?n ?i ?d ?s] =>
         destruct (save n i d s) as [e|s2] eqn:Hsave; simpl; [done|];
         apply save_inv in Hsave as [_ ->]
     end);
    intros _; simpl; rewrite ?Hreferrer; simpl; split_and!.
  all: try (eexists; split; [apply lookup_insert_eq|];
            unfold preSaveApplicationSource, preSaveStatusHistory; simpl;
            rewrite ?Hreferral; by repeat case_match).
  all: try (rewrite !findByIdAndUpdate_lookup, Huser; simpl;
            eexists; split; [done|]; simpl; split_and!; lia).
  all: rewrite findByIdAndUpdate_lookup, Hcompany; simpl;
       eexists; split; [done|]; done.
Qed.

(** ** Submission *)

(** What an accepted submission found, and what it wrote. *)
Lemma submitApplication_accepted toUpperCase now newId p body s :
  success (submitApplication toUpperCase now newId p body s).1 = true →
  ∃ job,
    userType p = "user"
    ∧ jobs s !! SubmitBody.jobId body = Some job
    ∧ Job.status job = active
    ∧ findOne (sameJobAndApplicant (SubmitBody.jobId body) (principalId p))
        (applications s) = None
    ∧ applications (submitApplication toUpperCase now newId p body s).2
      = <[newId := newApplication toUpperCase now p body job s]>
          (applications s)
    ∧ jobs (submitApplication toUpperCase now newId p body s).2
      = findByIdAndUpdate now (SubmitBody.jobId body)
          (Job.setStats (λ r,
             let r := Job.incApplications 1 r in
             if (referralTracking toUpperCase (principalId p)
                   (SubmitBody.referralCode body) s).2
             then Job.incReferralApplications 1 r else r))
          (jobs s)
    ∧ users (submitApplication toUpperCase now newId p body s).2
      = match referralTracking toUpperCase (principalId p)
                (SubmitBody.referralCode body) s with
        | (Some referrer, true) =>
            findByIdAndUpdate now referrer
              (User.setStats (User.incTotalReferrals 1)) (users s)
        | _ => users s
        end
    ∧ companies (submitApplication toUpperCase now newId p body s).2
      = findByIdAndUpdate now (Job.companyId job)
          (Company.setStats (Company.incTotalApplications 1)) (companies s).
Proof.
  unfold submitApplication, findById.
  case_bool_decide as Htype; [done|].
  destruct (jobs s !! SubmitBody.jobId body) as [job|] eqn:Hjob; [|done].
  case_bool_decide as Hactive; [done|].
  destruct (findOne _ (applications s)) eqn:Hdup; [done|].
  destruct (referralTracking _ _ _ s) as [referredBy isReferral] eqn:Htrack.
  destruct (companies s !! Job.companyId job); [|done].
  unfold Application_create.
  destruct (Application.valid _) eqn:Hvalid; [|done].
  destruct (applications s !! newId); [done|].
  rewrite Hdup. unfold save. simpl Application.valid. rewrite Hvalid.
  intros _. exists job. unfold newApplication. rewrite Htrack.
  split_and!; try done; by destruct isReferral, referredBy.
Qed.

(** A submission is accepted when the applicant is a user, the job is
    active and has its company, the pair is new, the cover letter passes
    its validator and the [_id] is free. *)
Lemma submitApplication_accepts toUpperCase now newId p body s job :
  userType p = "user" →
  jobs s !! SubmitBody.jobId body = Some job →
  Job.status job = active →
  findOne (sameJobAndApplicant (SubmitBody.jobId body) (principalId p))
    (applications s) = None →
  is_Some (companies s !! Job.companyId job) →
  from_option (λ c, bool_decide (String.length c ≤ 2000)%nat) true
    (SubmitBody.coverLetter body) = true →
  applications s !! newId = None →
  (submitApplication toUpperCase now newId p body s).1 = respond 201.
Proof.
  intros Htype Hjob Hactive Hnew [c Hc] Hletter Hfresh.
  unfold submitApplication, findById.
  rewrite Htype, Hjob, Hactive, Hnew, Hc. simpl.
  destruct (referralTracking _ _ _ s) as [referredBy isReferral].
  unfold Application_create, save, Application.valid. simpl.
  rewrite Hfresh, Hnew.
  destruct (SubmitBody.coverLetter body); simpl in *; by rewrite ?Hletter.
Qed.

(** Whatever the state of the job, a submission for a pair that has its
    application is refused and leaves the store as it is; the refusal is
    400 "Already applied" when the job is there and active. *)
Lemma submitApplication_existing_pair toUpperCase now newId p body s i a :
  applications s !! i = Some a →
  Application.jobId a = SubmitBody.jobId body →
  Application.applicantId a = principalId p →
  success (submitApplication toUpperCase now newId p body s).1 = false
  ∧ (submitApplication toUpperCase now newId p body s).2 = s
  ∧ (∀ job, userType p = "user" →
       jobs s !! SubmitBody.jobId body = Some job →
       Job.status job = active →
       (submitApplication toUpperCase now newId p body s).1
       = reject 400 "Already applied").
Proof.
  intros Hfind Hjob Happlicant.
  destruct (findOne_is_Some
              (sameJobAndApplicant (SubmitBody.jobId body) (principalId p))
              (applications s) i a Hfind) as [found Hfound].
  { unfold sameJobAndApplicant. by rewrite !bool_decide_eq_true_2. }
  unfold submitApplication, findById. rewrite Hfound.
  split_and!.
  - by repeat case_match.
  - by repeat case_match.
  - intros job -> -> ->. done.
Qed.

(** Right after an accepted submission, a second submission by the same
    applicant for the same job is answered 400 "Already applied", and the
    store it leaves is the store it found: the job's, the company's and the
    referrer's counters keep their values from after the first. *)
Theorem second_submission_is_a_duplicate
    toUpperCase now newId now' newId' p p' body body' s :
  success (submitApplication toUpperCase now newId p body s).1 = true →
  principalId p' = principalId p →
  userType p' = userType p →
  SubmitBody.jobId body' = SubmitBody.jobId body →
  submitApplication toUpperCase now' newId' p' body'
    (submitApplication toUpperCase now newId p body s).2
  = (reject 400 "Already applied",
     (submitApplication toUpperCase now newId p body s).2).
Proof.
  intros Hfirst Hid Htype Hjob.
  apply submitApplication_accepted in Hfirst
    as (job & Huser & Hfound & Hactive & _ & Happs & Hjobs & _ & _).
  destruct (submitApplication toUpperCase now newId p body s) as [r s1].
  simpl in *. unfold submitApplication, findById.
  rewrite Htype, Huser, Hid, Hjob, Hjobs, findByIdAndUpdate_lookup, Hfound.
  simpl. rewrite Hactive. simpl.
  destruct (findOne_is_Some
              (sameJobAndApplicant (SubmitBody.jobId body) (principalId p))
              (applications s1) newId
              (newApplication toUpperCase now p body job s))
    as [found ->]; [| |done].
  - rewrite Happs. apply lookup_insert_eq.
  - unfold sameJobAndApplicant, newApplication. simpl.
    by rewrite !bool_decide_eq_true_2.
Qed.

(** The code of the applicant resolves to the applicant, who is no
    referrer of themselves. *)
Lemma referralTracking_own_code toUpperCase me code s :
  uniqueReferralCode (toUpperCase code) me s →
  referralTracking toUpperCase me (Some code) s = (None, false).
Proof.
  intros Hunique. unfold referralTracking.
  destruct (truthyStr (Some code)); [|done].
  destruct (findOne _ (users s)) as [[i v]|] eqn:Hfind; [|done].
  apply findOne_Some in Hfind as [Hlookup Hcode].
  apply bool_decide_eq_true in Hcode.
  rewrite (Hunique i v Hlookup Hcode).
  by rewrite bool_decide_eq_false_2 by (by intros ?).
Qed.

(** C7.  An applicant whose submission carries their own referral code (in
    any letter case; the code is held by nobody else, as the unique index
    has it) gets an application with [isReferral] false and no
    [referredBy]; no user document changes, and the job's count of referral
    applications stays as it was. *)
Theorem own_code_is_no_referral
    toUpperCase now newId me u body code s :
  users s !! me = Some u →
  User.referralCode u = Some (toUpperCase code) →
  uniqueReferralCode (toUpperCase code) me s →
  SubmitBody.referralCode body = Some code →
  success (submitApplication toUpperCase now newId (AsUser me u) body s).1
  = true →
  (∃ a,
     applications
       (submitApplication toUpperCase now newId (AsUser me u) body s).2
       !! newId = Some a
     ∧ Application.applicantId a = me
     ∧ Application.isReferral a = false
     ∧ Application.referredBy a = None)
  ∧ users (submitApplication toUpperCase now newId (AsUser me u) body s).2
    = users s
  ∧ (∃ job job',
       jobs s !! SubmitBody.jobId body = Some job
       ∧ jobs (submitApplication toUpperCase now newId (AsUser me u) body s).2
           !! SubmitBody.jobId body = Some job'
       ∧ Job.referralApplications (Job.stats job')
         = Job.referralApplications (Job.stats job)
       ∧ Job.applications (Job.stats job')
         = (Job.applications (Job.stats job) + 1)%Z).
Proof.
  intros _ _ Hunique Hcode Hok.
  apply submitApplication_accepted in Hok
    as (job & _ & Hfound & _ & _ & Happs & Hjobs & Husers & _).
  rewrite Hcode in *. simpl principalId in *.
  rewrite (referralTracking_own_code _ _ _ _ Hunique) in *.
  split_and!.
  - eexists. split; [rewrite Happs; apply lookup_insert_eq|].
    unfold newApplication. simpl principalId. rewrite Hcode.
    by rewrite (referralTracking_own_code _ _ _ _ Hunique).
  - done.
  - exists job. eexists. split; [done|].
    rewrite Hjobs, findByIdAndUpdate_lookup, Hfound. simpl.
    split; [done|]. done.
Qed.

(** ** The earnings balance *)

Lemma Application_create_frame now newId job applicant company referredBy
    code isReferral coverLetter s s' :
  Application_create now newId job applicant company referredBy code
    isReferral coverLetter s = inr s' →
  users s' = users s ∧ jobs s' = jobs s ∧ companies s' = companies s.
Proof.
  unfold Application_create. repeat case_match; try done.
  intros Hsave. apply save_inv in Hsave as [_ ->]. done.
Qed.

Lemma balanced_touch now f u :
  (∀ r, User.totalEarnings r
        = (User.pendingEarnings r + User.paidEarnings r)%Z →
        User.totalEarnings (f r)
        = (User.pendingEarnings (f r) + User.paidEarnings (f r))%Z) →
  earningsBalanced u → earningsBalanced (touch now (User.setStats f u)).
Proof. unfold earningsBalanced. intros Hf Hu. simpl. by apply Hf. Qed.

Lemma balanced_update now i f (m : gmap positive User.t) :
  (∀ r, User.totalEarnings r
        = (User.pendingEarnings r + User.paidEarnings r)%Z →
        User.totalEarnings (f r)
        = (User.pendingEarnings (f r) + User.paidEarnings (f r))%Z) →
  map_Forall (λ _ u, earningsBalanced u) m →
  map_Forall (λ _ u, earningsBalanced u)
    (findByIdAndUpdate now i (User.setStats f) m).
Proof.
  intros Hf. apply (findByIdAndUpdate_Forall earningsBalanced).
  intros d. by apply balanced_touch.
Qed.

Ltac balanced :=
  repeat (apply balanced_update; [simpl; intros; lia|]); try done.

Lemma submitApplication_balanced toUpperCase now newId p body s :
  EarningsInvariant s →
  EarningsInvariant (submitApplication toUpperCase now newId p body s).2.
Proof.
  unfold EarningsInvariant, submitApplication. intros Hs.
  repeat case_match; simpl; try done;
    repeat match goal with
    | E : Application_create _ _ _ _ _ _ _ _ _ _ = inr _ |- _ =>
        apply Application_create_frame in E as (-> & _ & _)
    end; balanced.
Qed.

Lemma processReferralPayment_balanced now d s :
  EarningsInvariant s → EarningsInvariant (processReferralPayment now d s).2.
Proof.
  unfold EarningsInvariant, processReferralPayment. intros Hs.
  repeat case_match; simpl; balanced.
Qed.

Lemma updateApplicationStatus_balanced trim now p id body s :
  EarningsInvariant s →
  EarningsInvariant (updateApplicationStatus trim now p id body s).2.
Proof.
  unfold updateApplicationStatus. intros Hs.
  repeat case_match; simpl; try done;
    repeat match goal with
    | E : save _ _ _ _ = inr _ |- _ => apply save_inv in E as [_ ->]
    | E : (_, _) = (_, _) |- _ => injection E as <- <-
    | E : processReferralPayment ?n ?d ?s = (_, _) |- _ =>
        let F := fresh in
        pose proof (processReferralPayment_balanced n d s Hs) as F;
        rewrite E in F; clear E
    end; unfold EarningsInvariant in *; simpl in *; balanced.
Qed.

Lemma withdrawApplication_balanced now p id reason s :
  EarningsInvariant s →
  EarningsInvariant (withdrawApplication now p id reason s).2.
Proof.
  unfold withdrawApplication. intros Hs.
  repeat case_match; simpl; try done.
  match goal with
  | E : save _ _ _ _ = inr _ |- _ => apply save_inv in E as [_ ->]
  end. done.
Qed.

Lemma updateReferralStats_balanced now id type amount s :
  EarningsInvariant s →
  EarningsInvariant (updateReferralStats now id type amount s).
Proof.
  unfold EarningsInvariant, updateReferralStats, findById. intros Hs.
  destruct (users s !! id) as [u|] eqn:Hu; [|done].
  pose proof (Hs _ _ Hu) as Hbal. unfold earningsBalanced in Hbal.
  repeat case_bool_decide; simpl; try done;
    apply map_Forall_insert_2; try done;
    unfold earningsBalanced; simpl; lia.
Qed.

(** The earnings balance on the store, in exact arithmetic.  With every
    referral fee and payout amount a whole number, and the sums computed
    exactly (as doubles compute them below 2^53, see [Number_add_ofZ] and
    [Number_sub_ofZ]), the earnings balance of every user,
    [totalEarnings = pendingEarnings + paidEarnings], is kept by every
    sequence of submissions, company status updates (the hire with its
    referral payment among them), withdrawals and [updateReferralStats]
    calls (the payout among them). *)
Theorem earnings_balance_is_invariant toUpperCase trim ops s :
  EarningsInvariant s → EarningsInvariant (run toUpperCase trim ops s).
Proof.
  unfold run. revert s.
  induction ops as [|op ops IH]; intros s Hs; simpl; [done|].
  apply IH. destruct op; simpl.
  - by apply submitApplication_balanced.
  - by apply updateApplicationStatus_balanced.
  - by apply withdrawApplication_balanced.
  - by apply updateReferralStats_balanced.
Qed.

(** ** Where the code leaves the specification *)

Import Fixture Scenario.

Lemma processReferralPayment_valid now d s :
  Application.valid (this (processReferralPayment now d s).1)
  = Application.valid (this d).
Proof.
  unfold processReferralPayment. by repeat case_match.
Qed.

(** [updateApplicationStatus] never reads the stored status: for the owning
    company, any status of the route's list is accepted whatever the
    application's state is. *)
Lemma updateApplicationStatus_any_state trim now p id status note s a :
  applications s !! id = Some a →
  Application.companyId a = principalId p →
  Application.valid a = true →
  includes validStatuses status = true →
  (updateApplicationStatus trim now p id
     (StatusBody.mk status note None None) s).1 = respond 200.
Proof.
  intros Hfind Hown Hvalid Hincl.
  destruct (validStatuses_parse _ Hincl) as [st Hparse].
  unfold updateApplicationStatus, findById. simpl.
  rewrite Hparse, Hincl, Hfind. simpl.
  rewrite bool_decide_eq_false_2 by (by intros ?).
  destruct (bool_decide (st = hired) && Application.isReferral a).
  - match goal with
    | |- context [processReferralPayment ?n ?d ?s] =>
        pose proof (processReferralPayment_valid n d s) as Hpaid;
        destruct (processReferralPayment n d s) as [d1 s1]
    end.
    simpl in Hpaid. rewrite save_valid; [done|].
    rewrite Hpaid. by destruct a.
  - rewrite save_valid; [done|]. by destruct a.
Qed.

(** C1.  The hired application of the scenario is one that
    [canBeUpdatedByCompany] closes; the company's request to move it to
    reviewing is nevertheless answered 200, the stored status becomes
    reviewing and the history grows from two entries to four. *)
Theorem hired_application_is_reopened :
  Application.status <$> applications hiredOnce !! 40%positive = Some hired
  ∧ Application.canBeUpdatedByCompany <$> applications hiredOnce !! 40%positive
    = Some false
  ∧ length ∘ Application.statusHistory <$> applications hiredOnce !! 40%positive
    = Some 2%nat
  ∧ reopened.1 = respond 200
  ∧ Application.status <$> applications reopened.2 !! 40%positive
    = Some reviewing
  ∧ length ∘ Application.statusHistory <$> applications reopened.2 !! 40%positive
    = Some 4%nat.
Proof. by vm_compute. Qed.

(** Each run of the payment helper on a referred application whose job
    and referrer exist adds the job's fee to the referrer's pending and
    total earnings; nothing in it asks whether the payment is already
    recorded. *)
Lemma processReferralPayment_credits now d s referrer job u :
  Application.isReferral (this d) = true →
  Application.referredBy (this d) = Some referrer →
  jobs s !! Application.jobId (this d) = Some job →
  users s !! referrer = Some u →
  ∃ u', users (processReferralPayment now d s).2 !! referrer = Some u'
    ∧ User.pendingEarnings (User.referralStats u')
      = (User.pendingEarnings (User.referralStats u) + Job.referralFee job)%Z
    ∧ User.totalEarnings (User.referralStats u')
      = (User.totalEarnings (User.referralStats u) + Job.referralFee job)%Z
    ∧ Application.isReferral (this (processReferralPayment now d s).1) = true
    ∧ Application.referredBy (this (processReferralPayment now d s).1)
      = Some referrer
    ∧ Application.jobId (this (processReferralPayment now d s).1)
      = Application.jobId (this d)
    ∧ jobs (processReferralPayment now d s).2 = jobs s.
Proof.
  intros Hreferral Hreferrer Hjob Huser.
  unfold processReferralPayment, findById.
  rewrite Hreferral, Hreferrer, Hjob. simpl.
  rewrite findByIdAndUpdate_lookup, Huser. simpl.
  eexists. split; [done|]. simpl. split_and!; try done; lia.
Qed.

Lemma processReferralPayment_twice now now' d s referrer job u :
  Application.isReferral (this d) = true →
  Application.referredBy (this d) = Some referrer →
  jobs s !! Application.jobId (this d) = Some job →
  users s !! referrer = Some u →
  ∃ u', users (processReferralPayment now'
                 (processReferralPayment now d s).1
                 (processReferralPayment now d s).2).2 !! referrer = Some u'
    ∧ User.pendingEarnings (User.referralStats u')
      = (User.pendingEarnings (User.referralStats u)
         + 2 * Job.referralFee job)%Z
    ∧ User.totalEarnings (User.referralStats u')
      = (User.totalEarnings (User.referralStats u)
         + 2 * Job.referralFee job)%Z.
Proof.
  intros Hreferral Hreferrer Hjob Huser.
  destruct (processReferralPayment_credits now d s referrer job u)
    as (u1 & Hu1 & Hp1 & Ht1 & Hr1 & Hb1 & Hj1 & Hjobs1); try done.
  destruct (processReferralPayment_credits now'
              (processReferralPayment now d s).1
              (processReferralPayment now d s).2 referrer job u1)
    as (u2 & Hu2 & Hp2 & Ht2 & _); try done.
  { by rewrite Hj1, Hjobs1. }
  exists u2. split; [done|]. split; lia.
Qed.

(** C2.  The payment helper run twice on the same application credits the
    referrer twice: the pending and total earnings of john stand at 1000
    after the first run and at 2000 after the second.  The same happens
    through the route, when the company sends the hire a second time. *)
Theorem referral_payment_is_credited_twice :
  User.referralStats <$> users referred !! 10%positive
  = Some (User.mkStats 1 0 0 0 0)
  ∧ User.referralStats <$> users paidOnce.2 !! 10%positive
    = Some (User.mkStats 1 0 1000 1000 0)
  ∧ User.referralStats <$> users paidTwice.2 !! 10%positive
    = Some (User.mkStats 1 0 2000 2000 0)
  ∧ User.referralStats <$> users hiredOnce !! 10%positive
    = Some (User.mkStats 1 1 1000 1000 0)
  ∧ hiredTwice.1 = respond 200
  ∧ User.referralStats <$> users hiredTwice.2 !! 10%positive
    = Some (User.mkStats 1 2 2000 2000 0).
Proof. by vm_compute. Qed.

(** C4.  The store of the scenario has one active job and a company whose
    [activeJobs] is 1.  A job posted without a status is stored as active
    while [activeJobs] stays at 1, against two active jobs. *)
Theorem job_posted_without_status_is_not_counted :
  ActiveJobsInvariant store
  ∧ posted.1 = respond 201
  ∧ Job.status <$> jobs posted.2 !! 31%positive = Some active
  ∧ Company.activeJobs ∘ Company.stats <$> companies posted.2 !! 20%positive
    = Some 1%Z
  ∧ activeJobCount 20 posted.2 = 2%Z
  ∧ ¬ ActiveJobsInvariant posted.2.
Proof.
  split_and!; try by vm_compute.
  - intros c company Hc.
    assert (c = 20%positive ∧ company = acme) as [-> ->].
    { unfold store in Hc. simpl in Hc.
      apply lookup_singleton_Some in Hc. by destruct Hc. }
    by vm_compute.
  - intros H.
    specialize (H 20%positive
      (Company.mk (Company.mkContact "Ada" "Smith" "Recruiter")
         (Company.mkStats 2 1 0 0 0) 400)).
    assert (1 = 2)%Z; [|done].
    apply H. by vm_compute.
Qed.

(** The generic update closes the active job of the scenario; [activeJobs]
    stays at 1, against no active job. *)
Lemma job_closed_by_update_is_still_counted :
  closedByUpdate.1 = respond 200
  ∧ Job.status <$> jobs closedByUpdate.2 !! 30%positive = Some closed
  ∧ Company.activeJobs ∘ Company.stats
      <$> companies closedByUpdate.2 !! 20%positive = Some 1%Z
  ∧ activeJobCount 20 closedByUpdate.2 = 0%Z.
Proof. by vm_compute. Qed.

(** ** The theorems at the scenario *)

Ltac evaluate := vm_compute; reflexivity.

Lemma hire_records_payment_and_counters_witness :
  (∃ a', applications hiredOnce !! 40%positive = Some a'
     ∧ Application.status a' = hired
     ∧ ReferralPayment.isEligible (Application.referralPayment a') = true
     ∧ ReferralPayment.amount (Application.referralPayment a') = 1000%Z
     ∧ ReferralPayment.status (Application.referralPayment a') = payPending)
  ∧ (∃ u', users hiredOnce !! 10%positive = Some u'
       ∧ User.pendingEarnings (User.referralStats u') = (0 + 1000)%Z
       ∧ User.totalEarnings (User.referralStats u') = (0 + 1000)%Z
       ∧ User.successfulReferrals (User.referralStats u') = (0 + 1)%Z)
  ∧ (∃ c', companies hiredOnce !! 20%positive = Some c'
       ∧ Company.totalHires (Company.stats c') = (0 + 1)%Z).
Proof.
  apply (hire_records_payment_and_counters trimAscii 200 (company referred)
           40 (to "hired") referred submitted posting 10 referrer employer);
    evaluate.
Defined.

Lemma earnings_balance_is_invariant_witness :
  EarningsInvariant store
  ∧ EarningsInvariant (run upperAscii trimAscii history store).
Proof.
  assert (EarningsInvariant store) as Hstore.
  { unfold EarningsInvariant, earningsBalanced.
    apply (bool_decide_unpack _). vm_compute. exact I. }
  split; [exact Hstore|].
  apply (earnings_balance_is_invariant upperAscii trimAscii history store).
  exact Hstore.
Defined.

Lemma second_submission_is_a_duplicate_witness :
  submitApplication upperAscii 150 41 (AsUser 11 beth)
    (SubmitBody.mk 30 (Some "Again") None) referred
  = (reject 400 "Already applied", referred).
Proof.
  apply (second_submission_is_a_duplicate upperAscii 100 40 150 41
           (AsUser 11 beth) (AsUser 11 beth)
           (SubmitBody.mk 30 None (Some "ref-john-123456"))
           (SubmitBody.mk 30 (Some "Again") None) store);
    evaluate.
Defined.

Lemma own_code_is_no_referral_witness :
  (∃ a,
     applications
       (submitApplication upperAscii 100 40 (AsUser 10 john)
          (SubmitBody.mk 30 None (Some "ref-john-123456")) store).2
       !! 40%positive = Some a
     ∧ Application.applicantId a = 10%positive
     ∧ Application.isReferral a = false
     ∧ Application.referredBy a = None)
  ∧ users
      (submitApplication upperAscii 100 40 (AsUser 10 john)
         (SubmitBody.mk 30 None (Some "ref-john-123456")) store).2
    = users store.
Proof.
  pose proof (own_code_is_no_referral upperAscii 100 40 10 john
                (SubmitBody.mk 30 None (Some "ref-john-123456"))
                "ref-john-123456" store) as H.
  destruct H as (Ha & Hu & _); [evaluate | evaluate | | evaluate | evaluate |].
  - unfold uniqueReferralCode. apply (bool_decide_unpack _).
    vm_compute. exact I.
  - split; [exact Ha | exact Hu].
Defined.

Lemma withdraw_iff_applicant_and_open_status_witness :
  (success (withdrawApplication 300 (AsUser 11 beth) 40 None referred).1
   = true
   ↔ Application.applicantId submitted = 11%positive
     ∧ withdrawable (Application.status submitted))
  ∧ success (withdrawApplication 300 (AsUser 11 beth) 40 None referred).1
    = true.
Proof.
  split; [|evaluate].
  apply (withdraw_iff_applicant_and_open_status 300 (AsUser 11 beth) 40 None
           referred submitted); evaluate.
Defined.

Lemma status_change_is_logged_twice_witness :
  ∃ a', applications
          (updateApplicationStatus trimAscii 200 (company referred) 40
             (to "reviewing") referred).2 !! 40%positive = Some a'
    ∧ Application.status a' = reviewing
    ∧ Application.statusHistory a'
      = [companyEntry 200 (company referred) (to "reviewing") reviewing;
         middlewareEntry 200 reviewing].
Proof.
  destruct (status_change_is_logged_twice trimAscii 200 (company referred) 40
              (to "reviewing") referred submitted reviewing)
    as (a' & Hfind & Hstatus & Hhistory & _);
    [evaluate | evaluate | discriminate | evaluate |].
  exists a'. split; [exact Hfind|]. split; [exact Hstatus|]. exact Hhistory.
Defined.

Lemma withdraw_changes_only_the_application_witness :
  users (withdrawApplication 300 (AsUser 11 beth) 40 None referred).2
  = users referred
  ∧ jobs (withdrawApplication 300 (AsUser 11 beth) 40 None referred).2
    = jobs referred
  ∧ companies (withdrawApplication 300 (AsUser 11 beth) 40 None referred).2
    = companies referred
  ∧ applications (withdrawApplication 300 (AsUser 11 beth) 40 None referred).2
    = <[40%positive := withdrawnApplication 300 (AsUser 11 beth) None submitted]>
        (applications referred).
Proof.
  apply (withdraw_changes_only_the_application 300 (AsUser 11 beth) 40 None
           referred submitted); evaluate.
Defined.

(** ** The count of active jobs under [updateJobStatus] *)

(** Replacing a job changes the count of a company by what the new
    document adds and the old one took. *)
Lemma activeJobsOf_insert c (m : gmap positive Job.t) i x y :
  m !! i = Some y →
  Z.of_nat (size (activeJobsOf c (<[i:=x]> m)))
  = (Z.of_nat (size (activeJobsOf c m))
     + (if bool_decide (Job.companyId x = c ∧ Job.status x = active)
        then 1 else 0)
     - (if bool_decide (Job.companyId y = c ∧ Job.status y = active)
        then 1 else 0))%Z.
Proof.
  intros Hy. unfold activeJobsOf. rewrite map_filter_insert. simpl.
  set (P := λ p : positive * Job.t,
              Job.companyId p.2 = c ∧ Job.status p.2 = active).
  destruct (decide (Job.companyId y = c ∧ Job.status y = active)) as [Py|Py].
  - assert (filter P m !! i = Some y) as Hin
      by (by apply map_lookup_filter_Some).
    rewrite (bool_decide_eq_true_2 _ Py).
    case_decide as Px.
    + rewrite (bool_decide_eq_true_2 _ Px), map_size_insert_Some by eauto. lia.
    + rewrite (bool_decide_eq_false_2 _ Px), map_filter_delete.
      rewrite map_size_delete_Some by eauto.
      assert (size (filter P m) ≠ 0%nat)
        by (apply map_size_ne_0_lookup; eauto).
      lia.
  - assert (filter P m !! i = None) as Hout.
    { apply map_lookup_filter_None. right. intros z Hz Pz.
      rewrite Hy in Hz. injection Hz as <-. by apply Py. }
    rewrite (bool_decide_eq_false_2 _ Py).
    case_decide as Px.
    + rewrite (bool_decide_eq_true_2 _ Px), map_size_insert_None by done. lia.
    + rewrite (bool_decide_eq_false_2 _ Px), map_filter_delete.
      rewrite map_size_delete_None by done. lia.
Qed.

Lemma parseJobStatus_name str st :
  parseJobStatus str = Some st → str = jobStatusName st.
Proof.
  unfold parseJobStatus. repeat case_decide; intros [= <-]; by subst.
Qed.

Lemma includes_closed_filled st :
  includes ["closed"; "filled"] (jobStatusName st)
  = bool_decide (st = closed ∨ st = filled).
Proof.
  destruct st; vm_compute; try done.
Qed.

(** A job replaced by one of the same company, with the company's counter
    moved by the difference in activity, keeps the counters right. *)
Lemma ActiveJobsInvariant_replace now s id job job' (δ : Z) :
  ActiveJobsInvariant s →
  jobs s !! id = Some job →
  Job.companyId job' = Job.companyId job →
  δ = ((if bool_decide (Job.status job' = active) then 1 else 0)
       - (if bool_decide (Job.status job = active) then 1 else 0))%Z →
  ActiveJobsInvariant
    (setCompanies
       (findByIdAndUpdate now (Job.companyId job)
          (Company.setStats (Company.incActiveJobs δ)))
       (setJobs (insert id job') s)).
Proof.
  intros Hs Hjob Hsame -> c company Hc. simpl in Hc.
  unfold activeJobCount. simpl.
  rewrite (activeJobsOf_insert c _ id job' job Hjob), Hsame.
  destruct (decide (c = Job.companyId job)) as [->|Hne].
  - rewrite findByIdAndUpdate_lookup in Hc.
    destruct (companies s !! Job.companyId job) as [old|] eqn:Hold;
      [|discriminate].
    injection Hc as <-. simpl.
    rewrite (Hs _ _ Hold). unfold activeJobCount.
    repeat case_bool_decide; try lia; intuition congruence.
  - rewrite findByIdAndUpdate_lookup_ne in Hc by done.
    rewrite (Hs _ _ Hc). unfold activeJobCount.
    repeat case_bool_decide; try lia; intuition congruence.
Qed.

(** A job replaced by one of the same company and activity needs no
    counter to move. *)
Lemma ActiveJobsInvariant_replace_same s id job job' :
  ActiveJobsInvariant s →
  jobs s !! id = Some job →
  Job.companyId job' = Job.companyId job →
  (Job.status job' = active ↔ Job.status job = active) →
  ActiveJobsInvariant (setJobs (insert id job') s).
Proof.
  intros Hs Hjob Hsame Hactive c company Hc. simpl in Hc.
  unfold activeJobCount. simpl.
  rewrite (activeJobsOf_insert c _ id job' job Hjob), Hsame.
  rewrite (Hs _ _ Hc). unfold activeJobCount.
  repeat case_bool_decide; try lia; tauto.
Qed.

(** [updateJobStatus], the path that moves the counter with the status,
    keeps [activeJobs] equal to the number of active jobs. *)
Lemma updateJobStatus_keeps_activeJobs now p id status s :
  ActiveJobsInvariant s →
  ActiveJobsInvariant (updateJobStatus now p id status s).2.
Proof.
  intros Hs. unfold updateJobStatus, findById.
  destruct status as [str|]; [|done].
  destruct (parseJobStatus str) as [st|] eqn:Hparse; [|done].
  apply parseJobStatus_name in Hparse as ->.
  destruct (jobs s !! id) as [job|] eqn:Hjob; [|done].
  case_bool_decide as Hown; [done|]. rewrite <- Hown.
  rewrite includes_closed_filled.
  destruct (decide (st = Job.status job)) as [->|Hchange].
  - rewrite (bool_decide_eq_false_2 (Job.status job ≠ Job.status job))
      by (intros H; by apply H).
    destruct (Job.status job) eqn:Hold; simpl; try done;
      apply (ActiveJobsInvariant_replace_same _ _ job); try done;
      simpl; by rewrite Hold.
  - rewrite (bool_decide_eq_true_2 (st ≠ Job.status job)) by done.
    destruct st, (Job.status job) eqn:Hold; try done; simpl;
      first
        [ apply (ActiveJobsInvariant_replace _ _ _ job); try done;
          simpl; by rewrite Hold
        | apply (ActiveJobsInvariant_replace_same _ _ job); try done;
          simpl; by rewrite Hold ].
Qed.

(** ** The count of active jobs under the deadline sweep *)

Lemma filter_length_Permutation {A} (f : A → bool) (l l' : list A) :
  l ≡ₚ l' → length (List.filter f l) = length (List.filter f l').
Proof.
  induction 1 as [|x l l' _ IH|x y l|l l' l'' _ IH1 _ IH2]; simpl.
  - done.
  - destruct (f x); simpl; by rewrite IH.
  - by destruct (f x), (f y).
  - by rewrite IH1.
Qed.

Lemma filter_filter_length {A} (f g : A → bool) (l : list A) :
  length (List.filter f (List.filter g l))
  = length (List.filter (λ x, g x && f x) l).
Proof.
  induction l as [|x l IH]; simpl; [done|].
  destruct (g x); simpl; [destruct (f x); simpl|]; by rewrite IH.
Qed.

(** A new job adds itself to the count of its company when active. *)
Lemma activeJobsOf_insert_new c (m : gmap positive Job.t) i x :
  m !! i = None →
  Z.of_nat (size (activeJobsOf c (<[i:=x]> m)))
  = (Z.of_nat (size (activeJobsOf c m))
     + (if bool_decide (Job.companyId x = c ∧ Job.status x = active)
        then 1 else 0))%Z.
Proof.
  intros Hnew. unfold activeJobsOf. rewrite map_filter_insert. simpl.
  set (P := λ p : positive * Job.t,
              Job.companyId p.2 = c ∧ Job.status p.2 = active).
  assert (filter P m !! i = None) as Hout.
  { apply map_lookup_filter_None. by left. }
  case_decide as Px.
  - rewrite (bool_decide_eq_true_2 _ Px), map_size_insert_None by done. lia.
  - rewrite (bool_decide_eq_false_2 _ Px), map_filter_delete.
    rewrite map_size_delete_None by done. lia.
Qed.

(** Closing the expired jobs takes from the count of a company as many
    jobs as the sweep found expired for it. *)
Lemma activeJobsOf_sweep now c (m : gmap positive Job.t) :
  Z.of_nat (size (activeJobsOf c (closeIfExpired now <$> m)))
  = (Z.of_nat (size (activeJobsOf c m))
     - Z.of_nat (length (List.filter
         (λ p : positive * Job.t, bool_decide (Job.companyId p.2 = c))
         (List.filter (λ p, expired now p.2) (map_to_list m)))))%Z.
Proof.
  rewrite filter_filter_length.
  induction m as [|i x m Hnew IH] using map_ind.
  - by rewrite fmap_empty, map_to_list_empty.
  - rewrite fmap_insert.
    rewrite activeJobsOf_insert_new by (by rewrite lookup_fmap, Hnew).
    rewrite activeJobsOf_insert_new by done.
    rewrite (filter_length_Permutation _ _ _ (map_to_list_insert m i x Hnew)).
    rewrite IH. simpl. unfold closeIfExpired.
    destruct (expired now x) eqn:Hexpired; simpl.
    + assert (Job.status x = active) as Hactive.
      { unfold expired in Hexpired.
        apply andb_true_iff in Hexpired as [Hactive _].
        by apply bool_decide_eq_true in Hactive. }
      rewrite Hactive.
      destruct (bool_decide (Job.companyId x = c)) eqn:Hc; simpl.
      * apply bool_decide_eq_true in Hc.
        rewrite bool_decide_eq_false_2 by (by intros [_ ?]).
        rewrite bool_decide_eq_true_2 by done. lia.
      * apply bool_decide_eq_false in Hc.
        rewrite !bool_decide_eq_false_2 by (by intros [? _]). lia.
    + lia.
Qed.

(** The loop of the sweep leaves the jobs alone and takes from each
    company's counter one per job of the list that is its own. *)
Lemma decrementActiveJobs_fold now (l : list (positive * Job.t)) acc :
  jobs (foldl (decrementActiveJobs now) acc l) = jobs acc
  ∧ ∀ c company',
      companies (foldl (decrementActiveJobs now) acc l) !! c = Some company' →
      ∃ company,
        companies acc !! c = Some company
        ∧ Company.activeJobs (Company.stats company')
          = (Company.activeJobs (Company.stats company)
             - Z.of_nat (length (List.filter
                 (λ p : positive * Job.t, bool_decide (Job.companyId p.2 = c))
                 l)))%Z.
Proof.
  revert acc. induction l as [|p l IH]; intros acc; simpl.
  - split; [done|]. intros c company' Hc. exists company'.
    split; [done|]. lia.
  - destruct (IH (decrementActiveJobs now acc p)) as [Hjobs Hcompanies].
    split; [by rewrite Hjobs|].
    intros c company' Hc.
    destruct (Hcompanies c company' Hc) as (company1 & Hc1 & Hcount).
    unfold decrementActiveJobs in Hc1. simpl in Hc1.
    destruct (decide (Job.companyId p.2 = c)) as [Hp|Hp].
    + rewrite Hp, findByIdAndUpdate_lookup in Hc1.
      destruct (companies acc !! c) as [company|]; [|discriminate].
      injection Hc1 as <-. exists company. split; [done|].
      rewrite Hcount, bool_decide_eq_true_2 by done. simpl. lia.
    + rewrite findByIdAndUpdate_lookup_ne in Hc1 by done.
      exists company1. split; [done|].
      rewrite Hcount, bool_decide_eq_false_2 by done. done.
Qed.

(** The deadline sweep keeps [activeJobs] equal to the number of active
    jobs. *)
Lemma cleanupExpiredJobs_keeps_activeJobs now s :
  ActiveJobsInvariant s → ActiveJobsInvariant (cleanupExpiredJobs now s).
Proof.
  intros Hs. unfold cleanupExpiredJobs. case_bool_decide; [|done].
  intros c company' Hc.
  match type of Hc with
  | companies (foldl _ ?acc ?l) !! _ = _ =>
      destruct (decrementActiveJobs_fold now l acc) as [Hjobs Hcompanies]
  end.
  destruct (Hcompanies c company' Hc) as (company & Hfound & Hcount).
  unfold activeJobCount. rewrite Hjobs, Hcount. simpl.
  rewrite activeJobsOf_sweep. rewrite (Hs c company Hfound). done.
Qed.

(** The sweep on the scenario, once the deadline of the one active job
    has passed: the job is closed and [activeJobs] goes from 1 to 0. *)
Example sweep_closes_the_expired_job :
  Job.status <$> jobs (cleanupExpiredJobs 6000 store) !! 30%positive
  = Some closed
  ∧ Company.activeJobs ∘ Company.stats
      <$> companies (cleanupExpiredJobs 6000 store) !! 20%positive
    = Some 0%Z.
Proof. by vm_compute. Qed.

(** * Further properties of the job controller *)

Lemma activeJobsOf_delete c (m : gmap positive Job.t) i y :
  m !! i = Some y →
  Z.of_nat (size (activeJobsOf c (delete i m)))
  = (Z.of_nat (size (activeJobsOf c m))
     - (if bool_decide (Job.companyId y = c ∧ Job.status y = active)
        then 1 else 0))%Z.
Proof.
  intros Hy. unfold activeJobsOf. rewrite map_filter_delete.
  set (P := λ p : positive * Job.t,
              Job.companyId p.2 = c ∧ Job.status p.2 = active).
  case_bool_decide as Py.
  - assert (filter P m !! i = Some y) as Hin
      by (by apply map_lookup_filter_Some).
    rewrite map_size_delete_Some by eauto.
    assert (size (filter P m) ≠ 0%nat)
      by (apply map_size_ne_0_lookup; eauto).
    lia.
  - assert (filter P m !! i = None) as Hout.
    { apply map_lookup_filter_None. right. intros z Hz Pz.
      rewrite Hy in Hz. injection Hz as <-. by apply Py. }
    rewrite map_size_delete_None by done. lia.
Qed.

(** X1.  [updateJobStatus], whatever it answers, leaves every company's
    [activeJobs] equal to the number of its active jobs when it found them
    so. *)
Theorem updateJobStatus_counts_active_jobs now p id status s :
  ActiveJobsInvariant s →
  ActiveJobsInvariant (updateJobStatus now p id status s).2.
Proof.
  intros Hs c company Hc.
  exact (updateJobStatus_keeps_activeJobs now p id status s Hs c company Hc).
Qed.

(** X2.  The deadline sweep leaves every company's [activeJobs] equal to
    the number of its active jobs when it found them so. *)
Theorem sweep_counts_active_jobs now s :
  ActiveJobsInvariant s → ActiveJobsInvariant (cleanupExpiredJobs now s).
Proof.
  intros Hs c company Hc.
  exact (cleanupExpiredJobs_keeps_activeJobs now s Hs c company Hc).
Qed.

Lemma filter_nil_inv {A} (f : A → bool) (l : list A) x :
  List.filter f l = [] → In x l → f x = false.
Proof.
  intros Hnil Hin. destruct (f x) eqn:Hfx; [|done].
  assert (In x (List.filter f l)) as Hx by (apply filter_In; done).
  rewrite Hnil in Hx. destruct Hx.
Qed.

(** The jobs after the sweep: each one closed if it was expired. *)
Lemma cleanupExpiredJobs_jobs now s :
  jobs (cleanupExpiredJobs now s) = closeIfExpired now <$> jobs s.
Proof.
  unfold cleanupExpiredJobs. case_bool_decide as Hsome.
  - by rewrite (proj1 (decrementActiveJobs_fold now _ _)).
  - apply map_eq. intros i. rewrite lookup_fmap.
    destruct (jobs s !! i) as [j|] eqn:Hj; simpl; [|done].
    f_equal. unfold closeIfExpired.
    assert (expired now j = false) as ->; [|done].
    apply (filter_nil_inv (λ p : positive * Job.t, expired now p.2)
             (map_to_list (jobs s)) (i, j)).
    + destruct (List.filter _ _); [done|]. simpl in Hsome. lia.
    + apply list_elem_of_In, elem_of_map_to_list, Hj.
Qed.

Lemma closeIfExpired_not_expired now j :
  expired now (closeIfExpired now j) = false.
Proof.
  unfold closeIfExpired. destruct (expired now j) eqn:Hj; [|done].
  by unfold expired.
Qed.

(** X3.  The sweep closes the jobs that are active with a deadline in the
    past, stamping [closedDate], and leaves every other job as it is;
    after it no job is active with a deadline before the sweep's time. *)
Theorem sweep_closes_exactly_the_expired now s :
  jobs (cleanupExpiredJobs now s)
  = (λ j, if expired now j
          then Job.touch now
                 (Job.setClosedDate (Some now) (Job.setStatus closed j))
          else j) <$> jobs s
  ∧ map_Forall (λ _ j, expired now j = false)
      (jobs (cleanupExpiredJobs now s))
  ∧ users (cleanupExpiredJobs now s) = users s
  ∧ applications (cleanupExpiredJobs now s) = applications s.
Proof.
  split_and!.
  - apply cleanupExpiredJobs_jobs.
  - rewrite cleanupExpiredJobs_jobs. intros i j.
    rewrite lookup_fmap. destruct (jobs s !! i); simpl; [|done].
    intros [= <-]. apply closeIfExpired_not_expired.
  - unfold cleanupExpiredJobs. case_bool_decide; [|done].
    assert (∀ l acc, users (foldl (decrementActiveJobs now) acc l)
                     = users acc) as Hfold.
    { induction l as [|q l IH]; intros acc; simpl; [done|]. by rewrite IH. }
    by rewrite Hfold.
  - unfold cleanupExpiredJobs. case_bool_decide; [|done].
    assert (∀ l acc, applications (foldl (decrementActiveJobs now) acc l)
                     = applications acc) as Hfold.
    { induction l as [|q l IH]; intros acc; simpl; [done|]. by rewrite IH. }
    by rewrite Hfold.
Qed.

(** X4.  A second sweep at the same time finds nothing to do: the store
    after two sweeps is the store after one. *)
Theorem sweep_twice_is_sweep_once now s :
  cleanupExpiredJobs now (cleanupExpiredJobs now s)
  = cleanupExpiredJobs now s.
Proof.
  set (s1 := cleanupExpiredJobs now s).
  unfold cleanupExpiredJobs at 1.
  assert (List.filter (λ p : positive * Job.t, expired now p.2)
            (map_to_list (jobs s1)) = []) as ->; [|done].
  assert (∀ l : list (positive * Job.t),
            (∀ q, In q l → expired now q.2 = false) →
            List.filter (λ p : positive * Job.t, expired now p.2) l = [])
    as Hnone.
  { induction l as [|q l IH]; intros Hl; simpl; [done|].
    rewrite (Hl q) by (by left). apply IH. intros q' Hq'. apply Hl. by right. }
  apply Hnone. intros [i j] Hin.
  apply list_elem_of_In, elem_of_map_to_list in Hin. simpl.
  subst s1. rewrite cleanupExpiredJobs_jobs, lookup_fmap in Hin.
  destruct (jobs s !! i); simpl in Hin; [|done].
  injection Hin as <-. apply closeIfExpired_not_expired.
Qed.

(** X5.  [deleteJob], whatever it answers, leaves every company's
    [activeJobs] equal to the number of its active jobs when it found them
    so: the deletion of an active job takes one from its owner's counter. *)
Theorem deleteJob_counts_active_jobs now p id s :
  ActiveJobsInvariant s → ActiveJobsInvariant (deleteJob now p id s).2.
Proof.
  intros Hs. unfold deleteJob, findById.
  destruct (jobs s !! id) as [job|] eqn:Hjob; [|done].
  case_bool_decide as Hown; [done|].
  case_bool_decide; [done|].
  simpl. intros c company Hc. simpl in Hc.
  unfold activeJobCount. simpl.
  rewrite (activeJobsOf_delete c _ id job Hjob), Hown.
  destruct (decide (c = principalId p)) as [->|Hne].
  - rewrite findByIdAndUpdate_lookup in Hc.
    destruct (companies s !! principalId p) as [old|] eqn:Hold;
      [|discriminate].
    injection Hc as <-. pose proof (Hs _ _ Hold) as Hcount.
    unfold activeJobCount in Hcount.
    repeat case_bool_decide; simpl; try lia; tauto.
  - rewrite findByIdAndUpdate_lookup_ne in Hc by done.
    rewrite (Hs _ _ Hc). unfold activeJobCount.
    repeat case_bool_decide; try lia; tauto.
Qed.

(** X6.  [createJob] on a request that states its status, whatever it
    answers, leaves every company's [activeJobs] equal to the number of
    its active jobs when it found them so. *)
Theorem createJob_with_status_counts_active_jobs
    trim now newId p body s :
  truthyStr (CreateJobBody.status body) = true →
  ActiveJobsInvariant s →
  ActiveJobsInvariant (createJob trim now newId p body s).2.
Proof.
  intros Hstatus Hs. unfold createJob.
  destruct (CreateJobBody.status body) as [str|] eqn:Hbody;
    [|discriminate Hstatus].
  simpl in Hstatus. apply negb_true_iff, bool_decide_eq_false in Hstatus.
  unfold orStr. rewrite (bool_decide_eq_false_2 (str = EmptyString)) by done.
  case_bool_decide; [done|].
  destruct (parseJobStatus str) as [st|] eqn:Hparse; [|done].
  apply parseJobStatus_name in Hparse as ->.
  destruct (negb _); [done|].
  destruct (jobs s !! newId) eqn:Hnew; [done|].
  simpl. intros c company Hc. simpl in Hc.
  unfold activeJobCount. simpl.
  rewrite (activeJobsOf_insert_new c _ newId _ Hnew). simpl.
  assert (bool_decide (Some (jobStatusName st) = Some "active")
          = bool_decide (st = active)) as Hactive.
  { by destruct st. }
  rewrite Hactive in Hc.
  destruct (decide (c = principalId p)) as [->|Hne].
  - rewrite findByIdAndUpdate_lookup in Hc.
    destruct (companies s !! principalId p) as [old|] eqn:Hold;
      [|discriminate].
    injection Hc as <-. pose proof (Hs _ _ Hold) as Hcount.
    unfold activeJobCount in Hcount.
    repeat case_bool_decide; simpl; try lia; tauto.
  - rewrite findByIdAndUpdate_lookup_ne in Hc by done.
    rewrite (Hs _ _ Hc). unfold activeJobCount.
    repeat case_bool_decide; try lia; tauto.
Qed.

(** X7.  The four writing handlers of the job controller either answer
    with success or leave the store exactly as they found it. *)
Theorem job_request_refused_changes_nothing
    trim now newId p id create update status s :
  (success (createJob trim now newId p create s).1 = true
   ∨ (createJob trim now newId p create s).2 = s)
  ∧ (success (updateJob trim now p id update s).1 = true
     ∨ (updateJob trim now p id update s).2 = s)
  ∧ (success (updateJobStatus now p id status s).1 = true
     ∨ (updateJobStatus now p id status s).2 = s)
  ∧ (success (deleteJob now p id s).1 = true
     ∨ (deleteJob now p id s).2 = s).
Proof.
  split_and!.
  - unfold createJob. repeat case_match; simpl; auto.
  - unfold updateJob. repeat case_match; simpl; auto.
  - unfold updateJobStatus. repeat case_match; simpl; auto.
  - unfold deleteJob. repeat case_match; simpl; auto.
Qed.

(** X9.  A job is updated, moved to another status or deleted only by the
    company that owns it: when one of these handlers answers with success,
    the job was in the store and its [companyId] is the caller's id. *)
Theorem job_is_written_by_its_owner_only
    trim now p id update status s :
  success (updateJob trim now p id update s).1 = true
  ∨ success (updateJobStatus now p id status s).1 = true
  ∨ success (deleteJob now p id s).1 = true →
  ∃ job, jobs s !! id = Some job ∧ Job.companyId job = principalId p.
Proof.
  unfold updateJob, updateJobStatus, deleteJob, findById.
  destruct (jobs s !! id) as [job|] eqn:Hjob.
  - intros H. exists job. split; [done|].
    destruct (decide (Job.companyId job = principalId p)) as [|Hne];
      [done|].
    rewrite (bool_decide_eq_true_2 _ Hne) in H.
    destruct H as [H|[H|H]]; try done.
    by repeat case_match.
  - intros [H|[H|H]]; try done. by repeat case_match.
Qed.

(** X8.  On the store that an accepted submission leaves (the job's count
    of applications not having been negative), [deleteJob] refuses that job
    to every caller and leaves the store as it is. *)
Theorem job_with_an_application_is_not_deleted
    toUpperCase now newId p body s job now' p' :
  jobs s !! SubmitBody.jobId body = Some job →
  (0 ≤ Job.applications (Job.stats job))%Z →
  success (submitApplication toUpperCase now newId p body s).1 = true →
  success (deleteJob now' p' (SubmitBody.jobId body)
             (submitApplication toUpperCase now newId p body s).2).1 = false
  ∧ (deleteJob now' p' (SubmitBody.jobId body)
       (submitApplication toUpperCase now newId p body s).2).2
    = (submitApplication toUpperCase now newId p body s).2.
Proof.
  intros Hjob Hcount Hok.
  apply submitApplication_accepted in Hok
    as (job' & _ & Hfound & _ & _ & _ & Hjobs & _ & _).
  rewrite Hjob in Hfound. injection Hfound as <-.
  unfold deleteJob, findById.
  rewrite Hjobs, findByIdAndUpdate_lookup, Hjob. simpl.
  case_bool_decide; [done|].
  rewrite bool_decide_eq_true_2; [done|].
  destruct (referralTracking _ _ _ _).2; simpl; lia.
Qed.

(** * Further properties of the application controller *)

(** The code of another user resolves to that user. *)
Lemma referralTracking_other toUpperCase me code referrer u s :
  code ≠ EmptyString →
  users s !! referrer = Some u →
  User.referralCode u = Some (toUpperCase code) →
  uniqueReferralCode (toUpperCase code) referrer s →
  referrer ≠ me →
  referralTracking toUpperCase me (Some code) s = (Some referrer, true).
Proof.
  intros Hcode Hu Hheld Hunique Hother. unfold referralTracking. simpl.
  rewrite (bool_decide_eq_false_2 _ Hcode). simpl.
  destruct (findOne_is_Some (hasReferralCode (toUpperCase code)) (users s)
              referrer u Hu) as [[i v] Hfind].
  { unfold hasReferralCode. by apply bool_decide_eq_true_2. }
  rewrite Hfind.
  apply findOne_Some in Hfind as [Hi Hv].
  apply bool_decide_eq_true in Hv.
  rewrite (Hunique i v Hi Hv).
  by rewrite bool_decide_eq_true_2.
Qed.

(** X10.  An accepted submission that carries the referral code of another
    user, in any letter case, is stored as a referral of that user with
    the code in upper case; the referrer's [totalReferrals], the job's
    [applications] and [referralApplications] and the company's
    [totalApplications] each grow by one. *)
Theorem referral_is_attributed_to_the_code_owner
    toUpperCase now newId p body s code referrer u job company :
  SubmitBody.referralCode body = Some code →
  code ≠ EmptyString →
  users s !! referrer = Some u →
  User.referralCode u = Some (toUpperCase code) →
  uniqueReferralCode (toUpperCase code) referrer s →
  referrer ≠ principalId p →
  jobs s !! SubmitBody.jobId body = Some job →
  companies s !! Job.companyId job = Some company →
  success (submitApplication toUpperCase now newId p body s).1 = true →
  (∃ a,
     applications (submitApplication toUpperCase now newId p body s).2
       !! newId = Some a
     ∧ Application.isReferral a = true
     ∧ Application.referredBy a = Some referrer
     ∧ Application.referralCode a = Some (toUpperCase code)
     ∧ Application.applicationSource a = referral
     ∧ Application.status a = pending
     ∧ Application.statusHistory a = [])
  ∧ (∃ u',
       users (submitApplication toUpperCase now newId p body s).2
         !! referrer = Some u'
       ∧ User.referralStats u'
         = User.incTotalReferrals 1 (User.referralStats u))
  ∧ (∃ job',
       jobs (submitApplication toUpperCase now newId p body s).2
         !! SubmitBody.jobId body = Some job'
       ∧ Job.stats job'
         = Job.incReferralApplications 1
             (Job.incApplications 1 (Job.stats job)))
  ∧ (∃ company',
       companies (submitApplication toUpperCase now newId p body s).2
         !! Job.companyId job = Some company'
       ∧ Company.stats company'
         = Company.incTotalApplications 1 (Company.stats company)).
Proof.
  intros Hbody Hcode Hu Hheld Hunique Hother Hjob Hcompany Hok.
  apply submitApplication_accepted in Hok
    as (job' & _ & Hfound & _ & _ & Happs & Hjobs & Husers & Hcompanies).
  rewrite Hjob in Hfound. injection Hfound as <-.
  rewrite Hbody in *.
  rewrite (referralTracking_other _ _ _ _ _ _ Hcode Hu Hheld Hunique Hother)
    in *.
  split_and!.
  - eexists. split; [rewrite Happs; apply lookup_insert_eq|].
    unfold newApplication. rewrite Hbody.
    by rewrite (referralTracking_other _ _ _ _ _ _ Hcode Hu Hheld Hunique
                  Hother).
  - eexists. split; [rewrite Husers, findByIdAndUpdate_lookup, Hu; done|].
    done.
  - eexists. split; [rewrite Hjobs, findByIdAndUpdate_lookup, Hjob; done|].
    done.
  - eexists.
    split; [rewrite Hcompanies, findByIdAndUpdate_lookup, Hcompany; done|].
    done.
Qed.

(** A code that no user holds resolves to nobody. *)
Lemma referralTracking_unknown toUpperCase me code s :
  map_Forall (λ _ u, User.referralCode u ≠ Some (toUpperCase code))
    (users s) →
  referralTracking toUpperCase me (Some code) s = (None, false).
Proof.
  intros Hnone. unfold referralTracking.
  destruct (truthyStr (Some code)); [|done].
  destruct (findOne _ (users s)) as [[i v]|] eqn:Hfind; [|done].
  apply findOne_Some in Hfind as [Hi Hv].
  apply bool_decide_eq_true in Hv. by destruct (Hnone i v Hi).
Qed.

(** X11.  A referral code that no user holds is ignored: the submission is
    answered, and the store is written, exactly as the same submission
    without a code. *)
Theorem unknown_referral_code_is_ignored
    toUpperCase now newId p jobId coverLetter code s :
  map_Forall (λ _ u, User.referralCode u ≠ Some (toUpperCase code))
    (users s) →
  submitApplication toUpperCase now newId p
    (SubmitBody.mk jobId coverLetter (Some code)) s
  = submitApplication toUpperCase now newId p
      (SubmitBody.mk jobId coverLetter None) s.
Proof.
  intros Hnone. unfold submitApplication.
  cbn [SubmitBody.referralCode SubmitBody.jobId SubmitBody.coverLetter].
  by rewrite (referralTracking_unknown _ _ _ _ Hnone).
Qed.

(** X12.  A submission or a withdrawal that is not answered with success
    leaves the store exactly as it was; so does a status update, unless
    its answer is the 500 of a failed save. *)
Theorem application_request_refused_changes_nothing
    toUpperCase trim now newId p id submit reason status s :
  (success (submitApplication toUpperCase now newId p submit s).1 = true
   ∨ (submitApplication toUpperCase now newId p submit s).2 = s)
  ∧ (success (withdrawApplication now p id reason s).1 = true
     ∨ (withdrawApplication now p id reason s).2 = s)
  ∧ (success (updateApplicationStatus trim now p id status s).1 = true
     ∨ statusCode (updateApplicationStatus trim now p id status s).1
       = 500%Z
     ∨ (updateApplicationStatus trim now p id status s).2 = s).
Proof.
  split_and!.
  - unfold submitApplication. repeat case_match; simpl; auto.
  - unfold withdrawApplication. repeat case_match; simpl; auto.
  - unfold updateApplicationStatus. repeat case_match; simpl; auto.
Qed.

(** X13.  A status update that is no hire, or the hire of an application
    that is no referral, writes the application and nothing else: no user,
    job or company document changes, and so [totalHires] stays as it was
    when a direct applicant is hired. *)
Theorem status_update_without_referral_hire_touches_no_counter
    trim now p id body s a :
  applications s !! id = Some a →
  StatusBody.status body ≠ "hired" ∨ Application.isReferral a = false →
  users (updateApplicationStatus trim now p id body s).2 = users s
  ∧ jobs (updateApplicationStatus trim now p id body s).2 = jobs s
  ∧ companies (updateApplicationStatus trim now p id body s).2
    = companies s
  ∧ ∀ j, j ≠ id →
      applications (updateApplicationStatus trim now p id body s).2 !! j
      = applications s !! j.
Proof.
  intros Hfind Hcase. unfold updateApplicationStatus, findById.
  destruct (parseStatus (StatusBody.status body)) as [st|] eqn:Hparse;
    [|done].
  destruct (includes validStatuses _); simpl; [|done].
  rewrite Hfind. case_bool_decide; [done|].
  assert (bool_decide (st = hired) && Application.isReferral a = false)
    as Hno.
  { destruct Hcase as [Hstatus| ->]; [|by rewrite andb_false_r].
    rewrite bool_decide_eq_false_2; [done|]. intros ->.
    apply Hstatus. unfold parseStatus in Hparse.
    by repeat case_decide. }
  destruct (truthyNum _ || _); simpl; rewrite Hno;
    (match goal with
     | |- context [save ?n ?i ?d ?s] =>
         destruct (save n i d s) as [e|s2] eqn:Hsave; simpl; [done|];
         apply save_inv in Hsave as [_ ->]
     end);
    simpl; split_and!; try done; intros j Hj; by rewrite lookup_insert_ne.
Qed.

(** X14.  A hire of a referred application whose request carries a rating
    above 5 is answered 500 and the application is not written; but the
    referrer has by then been credited the fee and a successful referral,
    and the company a hire. *)
Theorem failed_hire_keeps_its_side_effects
    trim now p id body s a job referrer u c rating :
  applications s !! id = Some a →
  Application.companyId a = principalId p →
  Application.isReferral a = true →
  Application.referredBy a = Some referrer →
  jobs s !! Application.jobId a = Some job →
  users s !! referrer = Some u →
  companies s !! principalId p = Some c →
  StatusBody.status body = "hired" →
  StatusBody.rating body = Some rating →
  (5 < rating)%Z →
  (updateApplicationStatus trim now p id body s).1
  = reject 500 "Server error"
  ∧ applications (updateApplicationStatus trim now p id body s).2
    = applications s
  ∧ (∃ u',
       users (updateApplicationStatus trim now p id body s).2 !! referrer
       = Some u'
       ∧ User.referralStats u'
         = User.incSuccessfulReferrals 1
             (User.incTotalEarnings (Job.referralFee job)
                (User.incPendingEarnings (Job.referralFee job)
                   (User.referralStats u))))
  ∧ (∃ c',
       companies (updateApplicationStatus trim now p id body s).2
         !! principalId p = Some c'
       ∧ Company.stats c' = Company.incTotalHires 1 (Company.stats c)).
Proof.
  intros Hfind Hown Hreferral Hreferrer Hjob Huser Hcompany Hbody Hrating
    Hhigh.
  unfold updateApplicationStatus, findById.
  rewrite Hbody, parseStatus_hired, includes_validStatuses_hired, Hfind.
  simpl negb. cbv iota.
  rewrite bool_decide_eq_false_2 by (by intros ?).
  assert (truthyNum (StatusBody.rating body) = true) as Htruthy.
  { rewrite Hrating. simpl. apply negb_true_iff, bool_decide_eq_false_2. lia. }
  rewrite Htruthy. simpl.
  rewrite Hreferral. simpl.
  unfold processReferralPayment, findById. simpl.
  rewrite Hreferral, Hreferrer, Hjob. simpl.
  unfold save. simpl.
  assert (CompanyFeedback.valid
            (mergeFeedback trim now p (StatusBody.rating body)
               (StatusBody.feedback body) (Application.companyFeedback a))
          = false) as Hinvalid.
  { unfold mergeFeedback, CompanyFeedback.valid. rewrite Htruthy, Hrating.
    destruct (StatusBody.feedback body); simpl;
      rewrite (bool_decide_eq_false_2 (rating ≤ 5)%Z) by lia;
      by rewrite andb_false_r. }
  unfold Application.valid. simpl. rewrite Hinvalid, andb_false_r. simpl.
  rewrite Hreferrer. simpl.
  split_and!; try done.
  - rewrite !findByIdAndUpdate_lookup, Huser. simpl. by eexists.
  - rewrite findByIdAndUpdate_lookup, Hcompany. simpl. by eexists.
Qed.

Lemma assignStatus_changed st d :
  Application.status (this d) ≠ st →
  assignStatus st d
  = mkDocument (Application.setStatus st (this d)) (isNew d) true
      (populatedJob d).
Proof.
  intros Hne. unfold assignStatus.
  by rewrite (bool_decide_eq_true_2 _ Hne), orb_true_r.
Qed.

(** X15.  When the job of a referred application is gone, the hire still
    succeeds: the save middleware marks the payment eligible and pending
    with the amount it had, nobody's earnings move, and the referrer's
    successful referrals and the company's hires each grow by one. *)
Theorem hire_without_job_pays_nothing
    trim now p id note s a referrer u c :
  applications s !! id = Some a →
  Application.valid a = true →
  Application.companyId a = principalId p →
  Application.isReferral a = true →
  Application.referredBy a = Some referrer →
  Application.status a ≠ hired →
  jobs s !! Application.jobId a = None →
  users s !! referrer = Some u →
  companies s !! principalId p = Some c →
  (updateApplicationStatus trim now p id
     (StatusBody.mk "hired" note None None) s).1 = respond 200
  ∧ (∃ a',
       applications (updateApplicationStatus trim now p id
                       (StatusBody.mk "hired" note None None) s).2 !! id
       = Some a'
       ∧ Application.status a' = hired
       ∧ Application.referralPayment a'
         = ReferralPayment.setStatus payPending
             (ReferralPayment.setIsEligible true
                (Application.referralPayment a)))
  ∧ (∃ u',
       users (updateApplicationStatus trim now p id
                (StatusBody.mk "hired" note None None) s).2 !! referrer
       = Some u'
       ∧ User.referralStats u'
         = User.incSuccessfulReferrals 1 (User.referralStats u))
  ∧ (∃ c',
       companies (updateApplicationStatus trim now p id
                    (StatusBody.mk "hired" note None None) s).2
         !! principalId p = Some c'
       ∧ Company.stats c' = Company.incTotalHires 1 (Company.stats c)).
Proof.
  intros Hfind Hvalid Hown Hreferral Hreferrer Hstatus Hjob Huser Hcompany.
  unfold updateApplicationStatus, findById.
  cbn [StatusBody.status StatusBody.note StatusBody.rating
       StatusBody.feedback].
  rewrite parseStatus_hired, includes_validStatuses_hired, Hfind.
  simpl negb. cbv iota.
  rewrite bool_decide_eq_false_2 by (by intros ?).
  rewrite assignStatus_changed by done.
  simpl. rewrite Hreferral. simpl.
  unfold processReferralPayment, findById. simpl.
  rewrite Hreferral, Hreferrer, Hjob. simpl.
  unfold save. simpl.
  replace (Application.valid (Application.pushHistory _ _))
    with (Application.valid a) by (by destruct a).
  rewrite Hvalid, Hreferrer. simpl.
  split_and!; try done.
  - eexists. split; [apply lookup_insert_eq|].
    unfold preSaveApplicationSource, preSaveStatusHistory. simpl.
    by rewrite Hreferral.
  - rewrite findByIdAndUpdate_lookup, Huser. simpl. by eexists.
  - rewrite findByIdAndUpdate_lookup, Hcompany. simpl. by eexists.
Qed.

(** X16.  A status update that names the status the application already
    has is accepted and logged once: the history gains the controller's
    entry and none from the save middleware. *)
Theorem same_status_update_is_logged_once
    trim now p id body s a :
  applications s !! id = Some a →
  parseStatus (StatusBody.status body) = Some (Application.status a) →
  success (updateApplicationStatus trim now p id body s).1 = true →
  ∃ a', applications (updateApplicationStatus trim now p id body s).2 !! id
        = Some a'
    ∧ Application.status a' = Application.status a
    ∧ Application.statusHistory a'
      = Application.statusHistory a
        ++ [companyEntry now p body (Application.status a)].
Proof.
  intros Hfind Hparse.
  unfold updateApplicationStatus, findById. rewrite Hparse, Hfind.
  destruct (includes validStatuses _); simpl; [|done].
  case_bool_decide; [done|].
  match goal with
  | |- context [if ?c then ?x else ?y] =>
      match type of x with
      | (Document * Store)%type => set (prepared := if c then x else y)
      end
  end.
  assert (isNew prepared.1 = false
          ∧ statusModified prepared.1 = false
          ∧ Application.status (this prepared.1) = Application.status a
          ∧ Application.statusHistory (this prepared.1)
            = Application.statusHistory a
              ++ [companyEntry now p body (Application.status a)])
    as (Hnew & Hmod & Hst & Hhist).
  { subst prepared.
    assert (bool_decide (Application.status a ≠ Application.status a)
            = false) as Hsame
      by (apply bool_decide_eq_false_2; intros H'; by apply H').
    repeat case_match; simpl;
      repeat match goal with
      | E : processReferralPayment ?n ?d ?s = _ |- _ =>
          let F := fresh in
          pose proof (processReferralPayment_frame n d s) as F;
          rewrite E in F; simpl in F;
          destruct F as (-> & -> & -> & -> & _); clear E
      end; simpl; by rewrite ?Hsame. }
  destruct prepared as [d s1]; simpl in *.
  destruct (save now id d s1) as [e|s2] eqn:Hsave; simpl; [done|].
  intros _. apply save_inv in Hsave as [_ ->]. simpl.
  eexists. split; [apply lookup_insert_eq|].
  simpl. rewrite saved_status, saved_statusHistory, Hmod, Hst, Hhist by done.
  by rewrite app_nil_r.
Qed.

(** X17.  For an application whose applicant and company are in the
    store, [getApplicationById] answers 200 exactly to the applicant, the
    company and the referrer whose document exists, and 403 to anyone
    else.  The permissions of a 200 are faithful: [canWithdraw] is true
    exactly when [withdrawApplication] by the same caller would succeed,
    and [canUpdate] exactly when the caller is the company. *)
Theorem getApplicationById_permissions now reason p id s a u c :
  applications s !! id = Some a →
  Application.valid a = true →
  users s !! Application.applicantId a = Some u →
  companies s !! Application.companyId a = Some c →
  ((getApplicationById p id s).1 = respond 200
   ∨ (getApplicationById p id s).1 = reject 403 "Access denied")
  ∧ ((getApplicationById p id s).1 = respond 200
     ↔ principalId p = Application.applicantId a
       ∨ principalId p = Application.companyId a
       ∨ (Application.referredBy a = Some (principalId p)
          ∧ is_Some (users s !! principalId p)))
  ∧ ∀ data permissions,
      (getApplicationById p id s).2 = Some (data, permissions) →
      canWithdraw permissions
      = success (withdrawApplication now p id reason s).1
      ∧ canUpdate permissions
        = bool_decide (principalId p = Application.companyId a)
      ∧ canView permissions = true.
Proof.
  intros Hfind Hvalid Hu Hc.
  rewrite (withdrawApplication_found _ _ _ _ _ _ Hfind), Hvalid.
  unfold getApplicationById, findById. rewrite Hfind, Hu, Hc.
  assert (match Application.referredBy a with
          | Some referrer =>
              match users s !! referrer with
              | Some _ => bool_decide (principalId p = referrer)
              | None => false
              end
          | None => false
          end = true
          ↔ Application.referredBy a = Some (principalId p)
            ∧ is_Some (users s !! principalId p)) as Hreferrer.
  { destruct (Application.referredBy a) as [r|]; [|split; [done|]].
    - destruct (users s !! r) as [v|] eqn:Hr.
      + rewrite bool_decide_eq_true. split.
        * intros ->. split; [done|]. by eexists.
        * by intros [[= ->] _].
      + split; [done|]. intros [[= ->] [v Hv]]. congruence.
    - by intros [? _]. }
  destruct (match Application.referredBy a with
            | Some _ => _ | None => _ end) eqn:Href.
  - rewrite andb_false_r. simpl. split_and!.
    + by left.
    + split; [|done]. intros _. right. right. by apply Hreferrer.
    + intros data permissions [= <- <-]. simpl.
      split_and!; try done.
      case_bool_decide as Happ; case_bool_decide as Happ'; simpl;
        try done; try congruence.
      by destruct (includes _ _).
  - assert (¬ (Application.referredBy a = Some (principalId p)
               ∧ is_Some (users s !! principalId p))) as Hnot.
    { intros H. apply Hreferrer in H. discriminate. }
    rewrite andb_true_r.
    case_bool_decide as Happ; case_bool_decide as Hcomp; simpl.
    + split_and!; [by left|split; [by left|done]|].
      intros data permissions [= <- <-]. simpl.
      rewrite bool_decide_eq_false_2 by (by intros H; apply H).
      split_and!; try done. by destruct (includes _ _).
    + split_and!; [by left|split; [by left|done]|].
      intros data permissions [= <- <-]. simpl.
      rewrite bool_decide_eq_false_2 by (by intros H; apply H).
      split_and!; try done. by destruct (includes _ _).
    + split_and!; [by left|split; [right; by left|done]|].
      intros data permissions [= <- <-]. simpl.
      rewrite bool_decide_eq_true_2 by (by intros H; apply Happ).
      done.
    + split_and!; [by right| |done].
      split; [done|]. intros [?|[?|?]]; done.
Qed.

(** X18.  The company's notes on an application are shown to the company
    alone: a response of [getApplicationById] that carries non-empty
    notes went to the company, and to a caller that is neither the
    applicant nor a referrer found among the users. *)
Theorem company_notes_are_shown_to_the_company_only p id s data permissions :
  (getApplicationById p id s).2 = Some (data, permissions) →
  truthyStr (CompanyFeedback.notes (Application.companyFeedback data))
  = true →
  ∃ a, applications s !! id = Some a
    ∧ data = a
    ∧ principalId p = Application.companyId a
    ∧ principalId p ≠ Application.applicantId a
    ∧ ¬ (Application.referredBy a = Some (principalId p)
         ∧ is_Some (users s !! principalId p)).
Proof.
  unfold getApplicationById, findById.
  destruct (applications s !! id) as [a|]; [|done].
  destruct (users s !! Application.applicantId a) as [u|] eqn:Hu; [|done].
  destruct (companies s !! Application.companyId a); [|done].
  assert (∀ b, truthyStr (CompanyFeedback.notes
                 (Application.companyFeedback (withoutCompanyNotes b)))
               = false) as Hhidden.
  { intros b. unfold withoutCompanyNotes.
    destruct (truthyStr (CompanyFeedback.notes
                (Application.companyFeedback b))) eqn:Hb;
      [reflexivity|]. by rewrite Hb. }
  case_bool_decide as Happ; simpl.
  - intros [= <- _] Hnotes. by rewrite Hhidden in Hnotes.
  - case_bool_decide as Hcomp; simpl.
    + destruct (Application.referredBy a) as [r|] eqn:Hr.
      * destruct (users s !! r) eqn:Hur.
        -- case_bool_decide as Href; simpl.
           ++ intros [= <- _] Hnotes. by rewrite Hhidden in Hnotes.
           ++ intros [= <- _] _. exists a. split_and!; try done.
              intros [Hp _]. rewrite Hr in Hp. injection Hp as ->.
              by apply Href.
        -- intros [= <- _] _. exists a. split_and!; try done.
           intros [Hp [v Hv]]. rewrite Hr in Hp. injection Hp as ->.
           congruence.
      * intros [= <- _] _. exists a. split_and!; try done.
        intros [Hp _]. rewrite Hr in Hp. discriminate.
    + destruct (Application.referredBy a) as [r|] eqn:Hr; [|done].
      destruct (users s !! r); [|done].
      case_bool_decide; simpl; [|done].
      intros [= <- _] Hnotes. by rewrite Hhidden in Hnotes.
Qed.

(** The sums of the [$group] stage over any list of applications whose
    payment amounts are not negative. *)
Lemma earnings_fold_bounds (l : list Application.t) :
  Forall (λ a, (0 ≤ ReferralPayment.amount (Application.referralPayment a))%Z)
    l →
  let e := foldr Earnings.add Earnings.zero l in
  Earnings.totalReferrals e = Z.of_nat (length l)
  ∧ (0 ≤ Earnings.successfulReferrals e ≤ Earnings.totalReferrals e)%Z
  ∧ (0 ≤ Earnings.pendingEarnings e ≤ Earnings.totalEarnings e)%Z.
Proof.
  induction 1 as [|a l Ha _ IH]; simpl in *; [lia|].
  destruct IH as (Htotal & Hsuccess & Hpending).
  repeat case_match; simpl in *; try discriminate; lia.
Qed.

(** The counts of the [$group] stage over any list of applications. *)
Lemma earnings_fold_counts (l : list Application.t) :
  let e := foldr Earnings.add Earnings.zero l in
  Earnings.totalReferrals e = Z.of_nat (length l)
  ∧ (0 ≤ Earnings.successfulReferrals e ≤ Earnings.totalReferrals e)%Z.
Proof.
  induction l as [|a l IH]; simpl in *; [lia|].
  destruct IH as [Htotal Hsuccess].
  case_bool_decide; simpl; lia.
Qed.

(** X19.  The earnings that [getUserReferrals] reports: the referrals
    counted are the applications referred by the user and the successful
    ones are at most as many; when no recorded payment amount is negative,
    the pending earnings are at most the total earnings. *)
Theorem earnings_summary_is_bounded me s :
  Earnings.totalReferrals (earningsSummary me s)
  = Z.of_nat (length (referralsOf me s))
  ∧ (0 ≤ Earnings.successfulReferrals (earningsSummary me s)
     ≤ Earnings.totalReferrals (earningsSummary me s))%Z
  ∧ (map_Forall
       (λ _ a,
          (0 ≤ ReferralPayment.amount (Application.referralPayment a))%Z)
       (applications s) →
     (0 ≤ Earnings.pendingEarnings (earningsSummary me s)
      ≤ Earnings.totalEarnings (earningsSummary me s))%Z).
Proof.
  assert (Earnings.totalReferrals (earningsSummary me s)
          = Z.of_nat (length (referralsOf me s))
          ∧ (0 ≤ Earnings.successfulReferrals (earningsSummary me s)
             ≤ Earnings.totalReferrals (earningsSummary me s))%Z) as Hcounts.
  { pose proof (earnings_fold_counts (referralsOf me s)) as Hfold.
    unfold earningsSummary. destruct (referralsOf me s); [simpl; lia|].
    exact Hfold. }
  destruct Hcounts as [Hcount Hsuccess].
  split; [exact Hcount|]. split; [exact Hsuccess|].
  clear Hcount Hsuccess. intros Hamounts.
  assert (Forall
            (λ a, (0 ≤ ReferralPayment.amount
                         (Application.referralPayment a))%Z)
            (referralsOf me s)) as Hreferred.
  { apply Forall_forall. intros a Ha. unfold referralsOf in Ha.
    apply list_elem_of_In, filter_In in Ha as [Ha _].
    apply list_elem_of_In, list_elem_of_fmap in Ha as [[i b] [-> Hb]].
    apply elem_of_map_to_list in Hb. exact (Hamounts i b Hb). }
  pose proof (earnings_fold_bounds _ Hreferred) as Hbounds.
  unfold earningsSummary. destruct (referralsOf me s); [simpl; lia|].
  exact (proj2 (proj2 Hbounds)).
Qed.

(** * The routes *)

(** X20.  Through [PUT /:id/status] an application is written only for a
    company that owns it: an answer of success means that the token is
    that of a company (no user has its id) and that the application's
    [companyId] is that id.  A job seeker's token is answered 403 and
    changes nothing. *)
Theorem putStatus_is_for_the_owning_company trim now token id body s :
  (success (putStatus trim now token id body s).1 = true →
   ∃ i company a,
     token = Some i
     ∧ users s !! i = None
     ∧ companies s !! i = Some company
     ∧ applications s !! id = Some a
     ∧ Application.companyId a = i)
  ∧ (∀ i u, token = Some i → users s !! i = Some u →
       putStatus trim now token id body s
       = (reject 403 "Access denied", s)).
Proof.
  split.
  - unfold putStatus, auth, findById.
    destruct token as [i|]; simpl; [|done].
    destruct (users s !! i) as [u|] eqn:Hu; simpl; [done|].
    destruct (companies s !! i) as [company|] eqn:Hc; simpl; [|done].
    case_bool_decide; [done|].
    destruct (negb _); [done|].
    unfold updateApplicationStatus, findById.
    destruct (parseStatus _) as [st|]; [|done].
    destruct (negb _); [done|].
    destruct (applications s !! id) as [a|] eqn:Ha; [|done].
    case_bool_decide as Hown; [done|].
    intros _. exists i, company, a. by simpl in Hown.
  - intros i u -> Hu. unfold putStatus, auth, findById. simpl.
    by rewrite Hu.
Qed.

(** X21.  Through [PUT /:id/withdraw] an application is withdrawn only by
    its applicant: an answer of success means that the token is that of a
    user, that the application's [applicantId] is the user's id, and that
    its status was pending, reviewing or shortlisted.  A company's token
    is answered 403 and changes nothing. *)
Theorem putWithdraw_is_for_the_applicant now token id reason s :
  (success (putWithdraw now token id reason s).1 = true →
   ∃ i u a,
     token = Some i
     ∧ users s !! i = Some u
     ∧ applications s !! id = Some a
     ∧ Application.applicantId a = i
     ∧ withdrawable (Application.status a))
  ∧ (∀ i company, token = Some i → users s !! i = None →
       companies s !! i = Some company →
       putWithdraw now token id reason s
       = (reject 403 "Access denied", s)).
Proof.
  split.
  - unfold putWithdraw, auth, findById.
    destruct token as [i|]; simpl; [|done].
    destruct (users s !! i) as [u|] eqn:Hu; simpl.
    + unfold withdrawApplication, findById.
      destruct (applications s !! id) as [a|] eqn:Ha; [|done].
      case_bool_decide as Hown; [done|].
      destruct (includes _ _) eqn:Hopen; simpl; [|done].
      intros _. exists i, u, a. split_and!; try done.
      by apply withdrawable_includes.
    + by destruct (companies s !! i).
  - intros i company -> Hu Hc. unfold putWithdraw, auth, findById. simpl.
    by rewrite Hu, Hc.
Qed.

(** X22.  The deadline of a job is not read by [submitApplication]: a job
    that the sweep would close at that very time still accepts the
    application with 201; once the sweep has run, the same submission is
    answered 400 "Job not accepting applications". *)
Theorem expired_job_accepts_until_swept
    toUpperCase now newId p body s job :
  userType p = "user" →
  jobs s !! SubmitBody.jobId body = Some job →
  expired now job = true →
  findOne (sameJobAndApplicant (SubmitBody.jobId body) (principalId p))
    (applications s) = None →
  is_Some (companies s !! Job.companyId job) →
  from_option (λ c, bool_decide (String.length c ≤ 2000)%nat) true
    (SubmitBody.coverLetter body) = true →
  applications s !! newId = None →
  (submitApplication toUpperCase now newId p body s).1 = respond 201
  ∧ submitApplication toUpperCase now newId p body
      (cleanupExpiredJobs now s)
    = (reject 400 "Job not accepting applications",
       cleanupExpiredJobs now s).
Proof.
  intros Htype Hjob Hexpired Hnew Hcompany Hletter Hfresh.
  assert (Job.status job = active) as Hactive.
  { unfold expired in Hexpired.
    apply andb_true_iff in Hexpired as [Hactive _].
    by apply bool_decide_eq_true in Hactive. }
  split.
  - by apply (submitApplication_accepts _ _ _ _ _ _ job).
  - unfold submitApplication, findById.
    rewrite Htype, cleanupExpiredJobs_jobs, lookup_fmap, Hjob. simpl.
    unfold closeIfExpired. rewrite Hexpired. simpl. done.
Qed.

(** * Invariants of the application collection under every request *)

Lemma laterStateOf_refl a : laterStateOf a a.
Proof. unfold laterStateOf. by split_and!. Qed.

Lemma laterStateOf_trans a b c :
  laterStateOf a b → laterStateOf b c → laterStateOf a c.
Proof.
  unfold laterStateOf.
  intros (?&?&?&?&?&?&?&?&?&?&Hab) (?&?&?&?&?&?&?&?&?&?&Hbc).
  split_and!; try congruence. by etrans.
Qed.

(** The save middleware writes the history and the payment of a loaded
    document, and no other path. *)
Lemma saved_paths now d :
  isNew d = false →
  this (preSaveApplicationSource (preSaveStatusHistory now d))
  = Application.setReferralPayment
      (Application.referralPayment
         (this (preSaveApplicationSource (preSaveStatusHistory now d))))
      (Application.setStatusHistory
         (Application.statusHistory
            (this (preSaveApplicationSource (preSaveStatusHistory now d))))
         (this d)).
Proof.
  destruct d as [a n m pj]. simpl. intros ->.
  unfold preSaveApplicationSource, preSaveStatusHistory.
  destruct a. simpl. by repeat case_match.
Qed.

(** What [save] writes of a loaded document is a later state of the
    document. *)
Lemma saved_laterStateOf now d :
  isNew d = false →
  laterStateOf (this d)
    (Application.touch now
       (this (preSaveApplicationSource (preSaveStatusHistory now d)))).
Proof.
  intros Hnew. rewrite (saved_paths now d Hnew).
  rewrite (saved_statusHistory now d Hnew).
  unfold laterStateOf. simpl. split_and!; try done. by eexists.
Qed.

Lemma saved_valid now d :
  Application.valid
    (Application.touch now
       (this (preSaveApplicationSource (preSaveStatusHistory now d))))
  = Application.valid (this d).
Proof.
  unfold preSaveApplicationSource, preSaveStatusHistory.
  destruct d as [a n m pj]; simpl. by repeat case_match.
Qed.

Lemma processReferralPayment_laterStateOf now d s :
  laterStateOf (this d) (this (processReferralPayment now d s).1).
Proof.
  unfold processReferralPayment, laterStateOf.
  repeat case_match; simpl; by split_and!.
Qed.

(** The applications after a status update: as before, or with the
    updated one replaced by a later state of it that passes the
    validators. *)
Lemma updateApplicationStatus_applications trim now p id body s :
  applications (updateApplicationStatus trim now p id body s).2
  = applications s
  ∨ ∃ a a',
      applications s !! id = Some a
      ∧ applications (updateApplicationStatus trim now p id body s).2
        = <[id:=a']> (applications s)
      ∧ laterStateOf a a'
      ∧ Application.valid a' = true.
Proof.
  unfold updateApplicationStatus, findById.
  destruct (parseStatus _) as [st|]; [|by left].
  destruct (negb _); [by left|].
  destruct (applications s !! id) as [a|] eqn:Hfind; [|by left].
  case_bool_decide; [by left|].
  match goal with
  | |- context [if ?c then ?x else ?y] =>
      match type of x with
      | (Document * Store)%type => set (prepared := if c then x else y)
      end
  end.
  assert (isNew prepared.1 = false
          ∧ laterStateOf a (this prepared.1)
          ∧ applications prepared.2 = applications s)
    as (Hnew & Hlater & Happs).
  { subst prepared.
    assert (∀ d, laterStateOf a (this d) →
              ∀ e, laterStateOf a (this (onThis (Application.pushHistory e) d)))
      as Hpush.
    { intros d Hd e. eapply laterStateOf_trans; [exact Hd|].
      unfold laterStateOf. simpl. split_and!; try done. by eexists. }
    assert (laterStateOf a (this (assignStatus st (hydrate a)))) as Hassign.
    { unfold laterStateOf. simpl. by split_and!. }
    repeat case_match; simpl;
      repeat match goal with
      | E : processReferralPayment ?n ?d ?s = _ |- _ =>
          let F := fresh in let G := fresh in
          pose proof (processReferralPayment_frame n d s) as F;
          pose proof (processReferralPayment_laterStateOf n d s) as G;
          rewrite E in F, G; simpl in F, G;
          destruct F as (F1 & _ & _ & _ & F5 & _); clear E
      end;
      split_and!; try done; try congruence;
      try (eapply laterStateOf_trans; [|eassumption]);
      try (apply Hpush, Hassign);
      try (eapply laterStateOf_trans; [apply Hpush, Hassign|];
           unfold laterStateOf; simpl; by split_and!). }
  destruct prepared as [d s1]; simpl in *.
  destruct (save now id d s1) as [e|s2] eqn:Hsave; simpl.
  - left. done.
  - right. apply save_inv in Hsave as [Hvalid ->]. simpl.
    exists a. eexists. split; [done|]. split; [by rewrite Happs|].
    split.
    + eapply laterStateOf_trans; [exact Hlater|].
      by apply saved_laterStateOf.
    + by rewrite saved_valid.
Qed.

Lemma cleanupExpiredJobs_applications now s :
  applications (cleanupExpiredJobs now s) = applications s.
Proof.
  unfold cleanupExpiredJobs. case_bool_decide; [|done].
  assert (∀ l acc, applications (foldl (decrementActiveJobs now) acc l)
                   = applications acc) as Hfold.
  { induction l as [|q l IH]; intros acc; simpl; [done|]. by rewrite IH. }
  by rewrite Hfold.
Qed.

Lemma withdrawApplication_applications now p id reason s :
  (withdrawApplication now p id reason s).2 = s
  ∨ ∃ a a',
      applications s !! id = Some a
      ∧ (withdrawApplication now p id reason s).2
        = setApplications (insert id a') s
      ∧ laterStateOf a a'
      ∧ Application.valid a' = true.
Proof.
  destruct (applications s !! id) as [a|] eqn:Hfind.
  - rewrite (withdrawApplication_found _ _ _ _ _ _ Hfind).
    repeat case_match; simpl; try by left.
    right. exists a. eexists. split_and!; try done.
    unfold withdrawnApplication, laterStateOf. simpl.
    split_and!; try done. by eexists.
  - left. unfold withdrawApplication, findById. by rewrite Hfind.
Qed.

(** A submission leaves the store as it is, or stores a new application
    under a free [_id] for a pair that had none, and moves the counters of
    its job, its company and its referrer. *)
Lemma submitApplication_effect toUpperCase now newId p body s :
  (submitApplication toUpperCase now newId p body s).2 = s
  ∨ ∃ job,
      jobs s !! SubmitBody.jobId body = Some job
      ∧ findOne (sameJobAndApplicant (SubmitBody.jobId body) (principalId p))
          (applications s) = None
      ∧ applications s !! newId = None
      ∧ Application.valid (newApplication toUpperCase now p body job s)
        = true
      ∧ applications (submitApplication toUpperCase now newId p body s).2
        = <[newId := newApplication toUpperCase now p body job s]>
            (applications s)
      ∧ jobs (submitApplication toUpperCase now newId p body s).2
        = findByIdAndUpdate now (SubmitBody.jobId body)
            (Job.setStats (λ r,
               let r := Job.incApplications 1 r in
               if (referralTracking toUpperCase (principalId p)
                     (SubmitBody.referralCode body) s).2
               then Job.incReferralApplications 1 r else r))
            (jobs s).
Proof.
  unfold submitApplication, findById.
  case_bool_decide as Htype; [by left|].
  destruct (jobs s !! SubmitBody.jobId body) as [job|] eqn:Hjob; [|by left].
  case_bool_decide as Hactive; [by left|].
  destruct (findOne _ (applications s)) eqn:Hdup; [by left|].
  destruct (referralTracking _ _ _ s) as [referredBy isReferral] eqn:Htrack.
  destruct (companies s !! Job.companyId job); [|by left].
  unfold Application_create.
  destruct (Application.valid _) eqn:Hvalid; [|by left].
  destruct (applications s !! newId) eqn:Hfresh; [by left|].
  rewrite Hdup. unfold save. simpl Application.valid. rewrite Hvalid.
  right. exists job. unfold newApplication. rewrite Htrack.
  simpl. split_and!; try done; by destruct isReferral, referredBy.
Qed.

(** The applications after one request: as before, or with one replaced
    by a later state of it, or with a new one for a new pair. *)
Lemma handle_applications toUpperCase trim s r :
  applications (handle toUpperCase trim s r) = applications s
  ∨ (∃ id a a',
       applications s !! id = Some a
       ∧ applications (handle toUpperCase trim s r)
         = <[id:=a']> (applications s)
       ∧ laterStateOf a a'
       ∧ Application.valid a' = true)
  ∨ (∃ newId a,
       applications s !! newId = None
       ∧ applications (handle toUpperCase trim s r)
         = <[newId:=a]> (applications s)
       ∧ Application.valid a = true
       ∧ ∀ i b, applications s !! i = Some b →
           ¬ (Application.jobId b = Application.jobId a
              ∧ Application.applicantId b = Application.applicantId a)).
Proof.
  destruct r as [[now newId p body|now p id body|now p id reason
                 |now id type amount]
                |now newId p body|now p id body|now p id status|now p id
                |now]; simpl.
  - destruct (submitApplication_effect toUpperCase now newId p body s)
      as [->|(job & _ & Hnew & Hfresh & Hvalid & Happs & _)]; [by left|].
    right. right. eexists _, _. split_and!; try done.
    intros i b Hb [Hjob Happlicant].
    pose proof (findOne_None _ _ _ _ Hnew Hb) as Hno.
    unfold sameJobAndApplicant, newApplication in *. simpl in *.
    rewrite !bool_decide_eq_true_2 in Hno by done. discriminate.
  - destruct (updateApplicationStatus_applications trim now p id body s)
      as [->|(a & a' & ? & ? & ? & ?)]; [by left|].
    right. left. by exists id, a, a'.
  - destruct (withdrawApplication_applications now p id reason s)
      as [->|(a & a' & ? & -> & ? & ?)]; [by left|].
    right. left. by exists id, a, a'.
  - left. unfold updateReferralStats. by repeat case_match.
  - left. unfold createJob. by repeat case_match.
  - left. unfold updateJob. by repeat case_match.
  - left. unfold updateJobStatus. by repeat case_match.
  - left. unfold deleteJob. by repeat case_match.
  - left. apply cleanupExpiredJobs_applications.
Qed.

Lemma handle_UniquePairs toUpperCase trim s r :
  UniquePairs s → UniquePairs (handle toUpperCase trim s r).
Proof.
  intros Hs.
  destruct (handle_applications toUpperCase trim s r)
    as [Heq|[(id & a & a' & Ha & Heq & Hlater & _)
            |(newId & a & Hfresh & Heq & _ & Hnew)]];
    unfold UniquePairs; rewrite Heq; [done| |].
  - destruct Hlater as (Hjob & Happlicant & _).
    intros i j x y Hx Hy Hjobs Happlicants.
    apply lookup_insert_Some in Hx as [[<- <-]|[Hi Hx]];
      apply lookup_insert_Some in Hy as [[<- <-]|[Hj Hy]]; try done.
    + apply (Hs id j a y); congruence.
    + apply (Hs i id x a); congruence.
    + by apply (Hs i j x y).
  - intros i j x y Hx Hy Hjobs Happlicants.
    apply lookup_insert_Some in Hx as [[<- <-]|[Hi Hx]];
      apply lookup_insert_Some in Hy as [[<- <-]|[Hj Hy]]; try done.
    + by destruct (Hnew j y Hy).
    + by destruct (Hnew i x Hx).
    + by apply (Hs i j x y).
Qed.

(** X23.  No sequence of requests gives a job two applications of the
    same applicant: the pairs [(jobId, applicantId)] of the stored
    applications stay pairwise different. *)
Theorem one_application_per_job_and_applicant
    toUpperCase trim requests s :
  UniquePairs s → UniquePairs (serve toUpperCase trim requests s).
Proof.
  unfold serve. revert s.
  induction requests as [|r requests IH]; intros s Hs; simpl; [done|].
  apply IH. by apply handle_UniquePairs.
Qed.

Lemma handle_AllValid toUpperCase trim s r :
  AllValid s → AllValid (handle toUpperCase trim s r).
Proof.
  intros Hs.
  destruct (handle_applications toUpperCase trim s r)
    as [Heq|[(id & a & a' & _ & Heq & _ & Hvalid)
            |(newId & a & _ & Heq & Hvalid & _)]];
    unfold AllValid; rewrite Heq; [done| |];
    by apply map_Forall_insert_2.
Qed.

(** X24.  Every stored application passes the validators of its schema
    (cover letter, feedback rating, notes and recommendation) after any
    sequence of requests, when it did before. *)
Theorem stored_applications_stay_valid toUpperCase trim requests s :
  AllValid s → AllValid (serve toUpperCase trim requests s).
Proof.
  unfold serve. revert s.
  induction requests as [|r requests IH]; intros s Hs; simpl; [done|].
  apply IH. by apply handle_AllValid.
Qed.

Lemma handle_laterStateOf toUpperCase trim s r id a :
  applications s !! id = Some a →
  ∃ a', applications (handle toUpperCase trim s r) !! id = Some a'
    ∧ laterStateOf a a'.
Proof.
  intros Ha.
  destruct (handle_applications toUpperCase trim s r)
    as [Heq|[(id' & b & b' & Hb & Heq & Hlater & _)
            |(newId & b & Hfresh & Heq & _ & _)]];
    rewrite Heq.
  - exists a. split; [done|]. apply laterStateOf_refl.
  - destruct (decide (id' = id)) as [->|Hne].
    + rewrite Ha in Hb. injection Hb as <-.
      exists b'. split; [apply lookup_insert_eq|done].
    + exists a. rewrite lookup_insert_ne by done.
      split; [done|]. apply laterStateOf_refl.
  - exists a. rewrite lookup_insert_ne by congruence.
    split; [done|]. apply laterStateOf_refl.
Qed.

(** X25.  No sequence of requests removes an application, rewrites its
    history or changes what was fixed at submission: the application is
    still stored under its id, with the same job, applicant, company,
    referrer, referral code, [isReferral], cover letter, source and
    submission dates, and its earlier history is the beginning of its
    history. *)
Theorem applications_are_kept_and_only_extended
    toUpperCase trim requests s id a :
  applications s !! id = Some a →
  ∃ a', applications (serve toUpperCase trim requests s) !! id = Some a'
    ∧ laterStateOf a a'.
Proof.
  unfold serve. revert s a.
  induction requests as [|r requests IH]; intros s a Ha; simpl.
  - exists a. split; [done|]. apply laterStateOf_refl.
  - destruct (handle_laterStateOf toUpperCase trim s r id a Ha)
      as (a1 & Ha1 & Hlater1).
    destruct (IH _ _ Ha1) as (a2 & Ha2 & Hlater2).
    exists a2. split; [done|]. by eapply laterStateOf_trans.
Qed.

(** ** The counters of a job and the applications they count *)

Section FilterSize.
Context {A : Type} (P : positive * A → Prop) `{!∀ x, Decision (P x)}.
Implicit Types m : gmap positive A.

Lemma filter_size_insert_new m i x :
  m !! i = None →
  size (filter P (<[i:=x]> m))
  = (size (filter P m) + (if decide (P (i, x)) then 1 else 0))%nat.
Proof.
  intros Hnew. rewrite map_filter_insert.
  assert (filter P m !! i = None) as Hout
    by (apply map_lookup_filter_None; by left).
  case_decide.
  - rewrite map_size_insert_None by done. lia.
  - rewrite map_filter_delete, map_size_delete_None by done. lia.
Qed.

Lemma filter_size_insert_same m i x y :
  m !! i = Some y → (P (i, x) ↔ P (i, y)) →
  size (filter P (<[i:=x]> m)) = size (filter P m).
Proof.
  intros Hy Hsame. rewrite map_filter_insert. case_decide as Px.
  - apply map_size_insert_Some. exists y.
    apply map_lookup_filter_Some. split; [done|]. by apply Hsame.
  - rewrite map_filter_delete. apply map_size_delete_None.
    apply map_lookup_filter_None. right. intros z Hz Pz.
    rewrite Hy in Hz. injection Hz as <-. by apply Px, Hsame.
Qed.

Lemma filter_size_zero m :
  size (filter P m) = 0%nat ↔ ∀ i x, m !! i = Some x → ¬ P (i, x).
Proof.
  rewrite map_size_empty_iff, map_empty. split.
  - intros Hnone i x Hx Px.
    assert (filter P m !! i = Some x) as Hin
      by (by apply map_lookup_filter_Some).
    by rewrite Hnone in Hin.
  - intros Hnone i. apply map_lookup_filter_None.
    destruct (m !! i) as [x|] eqn:Hx; [right|by left].
    intros z [= <-]. by apply Hnone.
Qed.
End FilterSize.

(** The counters stay right when the applications are as before and every
    job after is a job before with the same counters, none lost. *)
Lemma JobCounters_jobs_rewritten s s' :
  applications s' = applications s →
  (∀ i job', jobs s' !! i = Some job' →
     ∃ job, jobs s !! i = Some job ∧ Job.stats job' = Job.stats job) →
  (∀ i, is_Some (jobs s !! i) → is_Some (jobs s' !! i)) →
  JobCountersInvariant s → JobCountersInvariant s'.
Proof.
  intros Happs Hjobs Hkept [Hcount Hjob]. split.
  - intros i job' Hi. destruct (Hjobs i job' Hi) as (job & Hjob' & ->).
    rewrite Happs. exact (Hcount i job Hjob').
  - rewrite Happs. intros i a Ha. apply Hkept. exact (Hjob i a Ha).
Qed.

(** The counters stay right when an application is replaced by a later
    state of it and the jobs are as before. *)
Lemma JobCounters_application_rewritten s s' id a a' :
  applications s !! id = Some a →
  applications s' = <[id:=a']> (applications s) →
  laterStateOf a a' →
  jobs s' = jobs s →
  JobCountersInvariant s → JobCountersInvariant s'.
Proof.
  intros Ha Happs (Hjobid & _ & _ & _ & _ & Hreferral & _) Hjobs
    [Hcount Hjob].
  split; rewrite Hjobs, Happs.
  - intros i job Hi. unfold applicationsOf, referralApplicationsOf.
    rewrite !(filter_size_insert_same _ _ id a' a Ha); simpl;
      [exact (Hcount i job Hi)|by rewrite Hjobid, Hreferral
                              |by rewrite Hjobid].
  - intros i b Hb. apply lookup_insert_Some in Hb as [[<- <-]|[_ Hb]].
    + rewrite Hjobid. exact (Hjob id a Ha).
    + exact (Hjob i b Hb).
Qed.

Lemma updateApplicationStatus_jobs trim now p id body s :
  jobs (updateApplicationStatus trim now p id body s).2 = jobs s.
Proof.
  unfold updateApplicationStatus.
  repeat case_match; simpl; try done;
    repeat match goal with
    | E : save _ _ _ _ = inr _ |- _ => apply save_inv in E as [_ ->]
    | E : (_, _) = (_, _) |- _ => injection E as <- <-
    | E : processReferralPayment ?n ?d ?s = (_, _) |- _ =>
        let F := fresh in
        pose proof (processReferralPayment_frame n d s) as F;
        rewrite E in F; simpl in F;
        destruct F as (_ & _ & _ & _ & _ & F & _); clear E
    end; simpl; try done.
Qed.

Lemma handle_JobCounters toUpperCase trim s r :
  isGenericUpdate r = false →
  JobCountersInvariant s →
  JobCountersInvariant (handle toUpperCase trim s r).
Proof.
  intros Hr Hs.
  destruct r as [[now newId p body|now p id body|now p id reason
                 |now id type amount]
                |now newId p body|now p id body|now p id status|now p id
                |now]; simpl.
  - (* submitApplication *)
    destruct (submitApplication_effect toUpperCase now newId p body s)
      as [->|(job & Hjob & _ & Hfresh & _ & Happs & Hjobs)]; [done|].
    destruct Hs as [Hcount Hexists].
    set (a := newApplication toUpperCase now p body job s) in *.
    assert (Application.jobId a = SubmitBody.jobId body) as Hjobid by done.
    assert (Application.isReferral a
            = (referralTracking toUpperCase (principalId p)
                 (SubmitBody.referralCode body) s).2) as Hreferral by done.
    clearbody a.
    split; rewrite Hjobs, Happs.
    + intros i job' Hi. unfold applicationsOf, referralApplicationsOf.
      rewrite !filter_size_insert_new by done. simpl.
      destruct (decide (i = SubmitBody.jobId body)) as [->|Hne].
      * rewrite findByIdAndUpdate_lookup, Hjob in Hi. injection Hi as <-.
        destruct (Hcount _ _ Hjob) as [Happlications Hreferrals].
        unfold applicationsOf, referralApplicationsOf in *.
        rewrite Hjobid, Hreferral. simpl.
        destruct (referralTracking _ _ _ _).2; simpl;
          repeat case_decide; try tauto; try lia;
          try (by intuition discriminate).
      * rewrite findByIdAndUpdate_lookup_ne in Hi by done.
        destruct (Hcount _ _ Hi) as [Happlications Hreferrals].
        unfold applicationsOf, referralApplicationsOf in *.
        rewrite Hjobid.
        repeat case_decide; try tauto; try lia; try (by intuition congruence).
    + intros i b Hb.
      assert (∀ j, is_Some (jobs s !! j) →
                is_Some (findByIdAndUpdate now (SubmitBody.jobId body)
                           (Job.setStats (λ r,
                              let r := Job.incApplications 1 r in
                              if (referralTracking toUpperCase (principalId p)
                                    (SubmitBody.referralCode body) s).2
                              then Job.incReferralApplications 1 r else r))
                           (jobs s) !! j)) as Hkept.
      { intros j [x Hx].
        destruct (decide (SubmitBody.jobId body = j)) as [<-|Hne].
        - rewrite findByIdAndUpdate_lookup, Hx. by eexists.
        - rewrite findByIdAndUpdate_lookup_ne by done. by eexists. }
      apply Hkept.
      apply lookup_insert_Some in Hb as [[<- <-]|[_ Hb]].
      * rewrite Hjobid. by eexists.
      * exact (Hexists i b Hb).
  - (* updateApplicationStatus *)
    destruct (updateApplicationStatus_applications trim now p id body s)
      as [Heq|(a & a' & Ha & Heq & Hlater & _)].
    + apply (JobCounters_jobs_rewritten s); try done.
      * rewrite updateApplicationStatus_jobs. intros i job' Hi. by exists job'.
      * by rewrite updateApplicationStatus_jobs.
    + apply (JobCounters_application_rewritten s _ id a a'); try done.
      apply updateApplicationStatus_jobs.
  - (* withdrawApplication *)
    destruct (withdrawApplication_applications now p id reason s)
      as [->|(a & a' & Ha & -> & Hlater & _)]; [done|].
    by apply (JobCounters_application_rewritten s _ id a a').
  - (* updateReferralStats *)
    apply (JobCounters_jobs_rewritten s); try done;
      unfold updateReferralStats; repeat case_match; simpl; try done;
      intros i job' Hi; by exists job'.
  - (* createJob *)
    assert (∀ job f,
              Job.applications (Job.stats job) = 0%Z →
              Job.referralApplications (Job.stats job) = 0%Z →
              jobs s !! newId = None →
              JobCountersInvariant
                (setCompanies f (setJobs (insert newId job) s))) as Hnew;
      [|unfold createJob; repeat case_match; simpl; try done; by apply Hnew].
    intros job f Happlications Hreferrals Hfresh.
    destruct Hs as [Hcount Hexists]. split; simpl.
    + intros i job' Hi.
      apply lookup_insert_Some in Hi as [[<- <-]|[_ Hi]];
        [|exact (Hcount i job' Hi)].
      rewrite Happlications, Hreferrals.
      unfold applicationsOf, referralApplicationsOf.
      assert (∀ k app, applications s !! k = Some app →
                Application.jobId app ≠ newId) as Hnone.
      { intros k app Happ Hjob. destruct (Hexists k app Happ) as [x Hx].
        rewrite Hjob in Hx. congruence. }
      rewrite !(proj2 (filter_size_zero _ _)); [done| |].
      * intros k app Happ [Hjob _]. by apply (Hnone k app Happ).
      * intros k app Happ Hjob. by apply (Hnone k app Happ).
    + intros i app Happ. destruct (Hexists i app Happ) as [x Hx].
      destruct (decide (newId = Application.jobId app)) as [->|Hne].
      * rewrite lookup_insert_eq. by eexists.
      * rewrite lookup_insert_ne by done. by eexists.
  - (* updateJob *)
    discriminate Hr.
  - (* updateJobStatus *)
    unfold updateJobStatus, findById.
    destruct status as [str|]; [|done].
    destruct (parseJobStatus str) as [st|]; [|done].
    destruct (jobs s !! id) as [job|] eqn:Hjob; [|done].
    case_bool_decide; [done|].
    apply (JobCounters_jobs_rewritten s); [| | |exact Hs].
    + by repeat case_match.
    + intros i x.
      assert (∀ y, Job.stats y = Job.stats job →
                jobs s !! i = Some x ∨ (i = id ∧ x = y) →
                ∃ z, jobs s !! i = Some z ∧ Job.stats x = Job.stats z)
        as Hcases.
      { intros y Hy [Hx|[-> ->]]; [by exists x|by exists job]. }
      repeat case_match; simpl; intros Hi;
        try (by exists x);
        (apply lookup_insert_Some in Hi as [[<- <-]|[_ Hi]];
         [exists job; split; [done|]; by repeat case_match|by exists x]).
    + intros i [x Hx].
      repeat case_match; simpl; try (by eexists);
        (destruct (decide (id = i)) as [->|Hne];
         [rewrite lookup_insert_eq|rewrite lookup_insert_ne by done];
         by eexists).
  - (* deleteJob *)
    unfold deleteJob, findById.
    destruct (jobs s !! id) as [job|] eqn:Hjob; [|done].
    case_bool_decide; [done|].
    case_bool_decide as Hnone; [done|].
    destruct Hs as [Hcount Hexists].
    destruct (Hcount id job Hjob) as [Happlications _].
    assert (size (applicationsOf id (applications s)) = 0%nat) as Hzero
      by lia.
    unfold applicationsOf in Hzero.
    pose proof (proj1 (filter_size_zero _ _) Hzero) as Hfree.
    split; simpl.
    + intros i x Hi. apply lookup_delete_Some in Hi as [_ Hi].
      exact (Hcount i x Hi).
    + intros i b Hb. rewrite lookup_delete_ne; [exact (Hexists i b Hb)|].
      intros Heq. by apply (Hfree i b Hb).
  - (* the sweep *)
    apply (JobCounters_jobs_rewritten s); try done.
    + apply cleanupExpiredJobs_applications.
    + rewrite cleanupExpiredJobs_jobs. intros i x.
      rewrite lookup_fmap. destruct (jobs s !! i) as [job|]; simpl; [|done].
      intros [= <-]. exists job. split; [done|].
      unfold closeIfExpired. by destruct (expired now job).
    + rewrite cleanupExpiredJobs_jobs. intros i [x Hx].
      rewrite lookup_fmap, Hx. by eexists.
Qed.

Lemma serve_JobCounters toUpperCase trim requests s :
  Forall (λ r, isGenericUpdate r = false) requests →
  JobCountersInvariant s →
  JobCountersInvariant (serve toUpperCase trim requests s).
Proof.
  unfold serve. intros Hrequests. revert s.
  induction Hrequests as [|r requests Hr _ IH]; intros s Hs; simpl; [done|].
  apply IH. by apply handle_JobCounters.
Qed.

(** X26.  After any sequence of submissions, status updates, withdrawals,
    [updateReferralStats] calls, job creations, job status changes, job
    deletions and sweeps (the generic job update, whose body is applied as
    it comes, is left out), when it was so before, every job's
    [stats.applications] is the number of stored applications for that
    job, its [stats.referralApplications] the number of those that are
    referrals, and every stored application has its job in the store. *)
Theorem job_counters_count_the_applications
    toUpperCase trim requests s :
  Forall (λ r, isGenericUpdate r = false) requests →
  JobCountersInvariant s →
  JobCountersInvariant (serve toUpperCase trim requests s).
Proof.
  intros Hrequests Hs. unfold serve. revert s Hs.
  induction Hrequests as [|r requests Hr _ IH]; intros s Hs; simpl; [done|].
  apply IH. by apply handle_JobCounters.
Qed.

(** ** The [updateStatus] method of the model *)

(** X27.  The model's [updateStatus] method, called on a loaded
    application that passes the validators, stores the new status and
    appends the entry with the caller's note and author; when the status
    differs from the stored one the save middleware appends a second
    entry for the same change, and none when it is the same. *)
Theorem updateStatus_method_logs_a_change_twice
    now id st note updatedBy model a s :
  Application.valid a = true →
  ∃ a',
    Application_updateStatus now id st note updatedBy model (hydrate a) s
    = inr (setApplications (insert id a') s)
    ∧ Application.status a' = st
    ∧ Application.statusHistory a'
      = Application.statusHistory a
        ++ StatusEntry.mk st now note updatedBy (Some model)
           :: (if bool_decide (Application.status a ≠ st)
               then [middlewareEntry now st] else []).
Proof.
  intros Hvalid. unfold Application_updateStatus.
  eexists. split; [|split].
  - apply save_valid. by destruct a.
  - simpl. by rewrite saved_status.
  - simpl. rewrite saved_statusHistory by done. simpl.
    unfold Application.pushHistory. simpl.
    rewrite <- app_assoc. simpl. by destruct (bool_decide _).
Qed.

(** X28.  Hiring a referred application through the model's [updateStatus]
    method, with its job populated, marks the payment eligible and
    pending and copies the job's fee into the amount when the fee is not
    zero (the amount stays as it was otherwise); the users, the companies
    and the jobs are left as they are, so nobody is credited. *)
Theorem updateStatus_method_hire_sets_the_payment
    now id note updatedBy model a job s :
  Application.valid a = true →
  Application.isReferral a = true →
  Application.status a ≠ hired →
  ∃ a',
    Application_updateStatus now id hired note updatedBy model
      (mkDocument a false false (Some job)) s
    = inr (setApplications (insert id a') s)
    ∧ ReferralPayment.isEligible (Application.referralPayment a') = true
    ∧ ReferralPayment.status (Application.referralPayment a') = payPending
    ∧ ReferralPayment.amount (Application.referralPayment a')
      = (if bool_decide (Job.referralFee job ≠ 0%Z)
         then Job.referralFee job
         else ReferralPayment.amount (Application.referralPayment a))
    ∧ users (setApplications (insert id a') s) = users s
    ∧ companies (setApplications (insert id a') s) = companies s
    ∧ jobs (setApplications (insert id a') s) = jobs s.
Proof.
  intros Hvalid Hreferral Hstatus. unfold Application_updateStatus.
  rewrite assignStatus_changed by done.
  eexists. split; [apply save_valid; by destruct a|].
  unfold preSaveApplicationSource, preSaveStatusHistory. simpl.
  rewrite Hreferral. simpl.
  by destruct (bool_decide (Job.referralFee job ≠ 0%Z)).
Qed.

(** X29.  The statuses that [updateApplicationStatus] accepts are the
    statuses of the schema's enum other than [withdrawn]. *)
Theorem company_statuses_are_the_enum_without_withdrawn str :
  includes validStatuses str = true
  ↔ ∃ st, parseStatus str = Some st ∧ st ≠ withdrawn.
Proof.
  unfold includes, validStatuses. rewrite bool_decide_eq_true. split.
  - intros H.
    repeat (apply elem_of_cons in H as [->|H];
            [eexists; split; [reflexivity|discriminate]|]).
    by apply elem_of_nil in H.
  - intros (st & Hparse & Hne). unfold parseStatus in Hparse.
    repeat case_decide; simplify_eq; set_solver.
Qed.


(** ** The properties above on the fixture *)

Import Cases.

Ltac decided := apply (bool_decide_unpack _); vm_compute; exact I.
Ltac concrete := first [evaluate | vm_compute; discriminate | decided].

Lemma updateJobStatus_counts_active_jobs_witness :
  ActiveJobsInvariant
    (updateJobStatus 400 (company store) 30 (Some "closed") store).2.
Proof.
  apply (updateJobStatus_counts_active_jobs 400 (company store) 30
           (Some "closed") store).
  unfold ActiveJobsInvariant, activeJobCount, activeJobsOf. decided.
Defined.

Lemma sweep_counts_active_jobs_witness :
  ActiveJobsInvariant (cleanupExpiredJobs 6000 store).
Proof.
  apply (sweep_counts_active_jobs 6000 store).
  unfold ActiveJobsInvariant, activeJobCount, activeJobsOf. decided.
Defined.

Lemma deleteJob_counts_active_jobs_witness :
  ActiveJobsInvariant (deleteJob 400 (company store) 30 store).2.
Proof.
  apply (deleteJob_counts_active_jobs 400 (company store) 30 store).
  unfold ActiveJobsInvariant, activeJobCount, activeJobsOf. decided.
Defined.

Lemma createJob_with_status_counts_active_jobs_witness :
  ActiveJobsInvariant
    (createJob trimAscii 400 31 (company store)
       (CreateJobBody.mk "Designer" None None (Some "active")) store).2.
Proof.
  apply (createJob_with_status_counts_active_jobs trimAscii 400 31
           (company store)
           (CreateJobBody.mk "Designer" None None (Some "active")) store).
  - evaluate.
  - unfold ActiveJobsInvariant, activeJobCount, activeJobsOf. decided.
Defined.

Lemma job_with_an_application_is_not_deleted_witness :
  success (deleteJob 500 (company referred) 30 referred).1 = false
  ∧ (deleteJob 500 (company referred) 30 referred).2 = referred.
Proof.
  apply (job_with_an_application_is_not_deleted upperAscii 100 40
           (AsUser 11 beth) (SubmitBody.mk 30 None (Some "ref-john-123456"))
           store engineer 500 (company referred)); concrete.
Defined.

Lemma job_is_written_by_its_owner_only_witness :
  ∃ job, jobs store !! 30%positive = Some job
    ∧ Job.companyId job = 20%positive.
Proof.
  apply (job_is_written_by_its_owner_only trimAscii 400 (company store) 30
           (UpdateJobBody.mk None None (Some "closed")) (Some "closed")
           store).
  left. evaluate.
Defined.

Lemma referral_is_attributed_to_the_code_owner_witness :
  ∃ a, applications referred !! 40%positive = Some a
    ∧ Application.isReferral a = true
    ∧ Application.referredBy a = Some 10%positive
    ∧ Application.referralCode a = Some "REF-JOHN-123456".
Proof.
  destruct (referral_is_attributed_to_the_code_owner upperAscii 100 40
              (AsUser 11 beth)
              (SubmitBody.mk 30 None (Some "ref-john-123456")) store
              "ref-john-123456" 10 john engineer acme)
    as [(a & Ha & Hreferral & Hby & Hcode & _) _];
    [evaluate | discriminate | evaluate | evaluate
    | unfold uniqueReferralCode; decided
    | discriminate | evaluate | evaluate | evaluate |].
  exists a. by split_and!.
Defined.

Lemma unknown_referral_code_is_ignored_witness :
  submitApplication upperAscii 100 40 (AsUser 11 beth)
    (SubmitBody.mk 30 None (Some "ref-nobody")) store
  = submitApplication upperAscii 100 40 (AsUser 11 beth)
      (SubmitBody.mk 30 None None) store.
Proof.
  apply (unknown_referral_code_is_ignored upperAscii 100 40 (AsUser 11 beth)
           30 None "ref-nobody" store).
  decided.
Defined.

Lemma status_update_without_referral_hire_touches_no_counter_witness :
  users (updateApplicationStatus trimAscii 200 (company referred) 40
           (to "reviewing") referred).2 = users referred
  ∧ jobs (updateApplicationStatus trimAscii 200 (company referred) 40
            (to "reviewing") referred).2 = jobs referred
  ∧ companies (updateApplicationStatus trimAscii 200 (company referred) 40
                 (to "reviewing") referred).2 = companies referred.
Proof.
  destruct (status_update_without_referral_hire_touches_no_counter trimAscii
              200 (company referred) 40 (to "reviewing") referred submitted)
    as (Husers & Hjobs & Hcompanies & _);
    [evaluate | left; discriminate |].
  by split_and!.
Defined.

Lemma failed_hire_keeps_its_side_effects_witness :
  (updateApplicationStatus trimAscii 200 (company referred) 40 overrated
     referred).1 = reject 500 "Server error"
  ∧ applications
      (updateApplicationStatus trimAscii 200 (company referred) 40 overrated
         referred).2 = applications referred
  ∧ ∃ u', users
            (updateApplicationStatus trimAscii 200 (company referred) 40
               overrated referred).2 !! 10%positive = Some u'
      ∧ User.referralStats u'
        = User.incSuccessfulReferrals 1
            (User.incTotalEarnings 1000
               (User.incPendingEarnings 1000 (User.referralStats referrer))).
Proof.
  destruct (failed_hire_keeps_its_side_effects trimAscii 200
              (company referred) 40 overrated referred submitted posting 10
              referrer employer 6)
    as (Hanswer & Happs & Huser & _);
    [evaluate | evaluate | evaluate | evaluate | evaluate | evaluate
    | evaluate | evaluate | evaluate | reflexivity |].
  by split_and!.
Defined.

Lemma hire_without_job_pays_nothing_witness :
  (updateApplicationStatus trimAscii 200 (company referred) 40
     (StatusBody.mk "hired" None None None) orphaned).1 = respond 200
  ∧ ∃ u', users
            (updateApplicationStatus trimAscii 200 (company referred) 40
               (StatusBody.mk "hired" None None None) orphaned).2
            !! 10%positive = Some u'
      ∧ User.referralStats u'
        = User.incSuccessfulReferrals 1 (User.referralStats referrer).
Proof.
  destruct (hire_without_job_pays_nothing trimAscii 200 (company referred) 40
              None orphaned submitted 10 referrer employer)
    as (Hanswer & _ & Huser & _);
    [evaluate | evaluate | evaluate | evaluate | evaluate | discriminate
    | evaluate | evaluate | evaluate |].
  by split.
Defined.

Lemma same_status_update_is_logged_once_witness :
  ∃ a', applications
          (updateApplicationStatus trimAscii 200 (company referred) 40
             (to "pending") referred).2 !! 40%positive = Some a'
    ∧ Application.status a' = pending
    ∧ Application.statusHistory a'
      = [companyEntry 200 (company referred) (to "pending") pending].
Proof.
  apply (same_status_update_is_logged_once trimAscii 200 (company referred)
           40 (to "pending") referred submitted); evaluate.
Defined.

Lemma getApplicationById_permissions_witness :
  (getApplicationById (AsUser 11 beth) 40 referred).1 = respond 200
  ∨ (getApplicationById (AsUser 11 beth) 40 referred).1
    = reject 403 "Access denied".
Proof.
  destruct (getApplicationById_permissions 300 None (AsUser 11 beth) 40
              referred submitted beth employer) as [Hanswer _];
    [evaluate | evaluate | evaluate | evaluate |].
  exact Hanswer.
Defined.

Lemma company_notes_are_shown_to_the_company_only_witness :
  ∃ a, applications noted !! 40%positive = Some a
    ∧ shown.1 = a
    ∧ principalId (company noted) = Application.companyId a.
Proof.
  destruct (company_notes_are_shown_to_the_company_only (company noted) 40
              noted shown.1 shown.2) as (a & Ha & Hdata & Hcompany & _);
    [evaluate | evaluate |].
  exists a. by split_and!.
Defined.

Lemma earnings_summary_is_bounded_witness :
  (0 ≤ Earnings.pendingEarnings (earningsSummary 10 hiredOnce)
   ≤ Earnings.totalEarnings (earningsSummary 10 hiredOnce))%Z.
Proof.
  destruct (earnings_summary_is_bounded 10 hiredOnce) as (_ & _ & Hbound).
  apply Hbound. decided.
Defined.

Lemma expired_job_accepts_until_swept_witness :
  (submitApplication upperAscii 6000 40 (AsUser 11 beth)
     (SubmitBody.mk 30 None None) store).1 = respond 201
  ∧ submitApplication upperAscii 6000 40 (AsUser 11 beth)
      (SubmitBody.mk 30 None None) (cleanupExpiredJobs 6000 store)
    = (reject 400 "Job not accepting applications",
       cleanupExpiredJobs 6000 store).
Proof.
  apply (expired_job_accepts_until_swept upperAscii 6000 40 (AsUser 11 beth)
           (SubmitBody.mk 30 None None) store engineer);
    try evaluate.
  by eexists.
Defined.

Lemma one_application_per_job_and_applicant_witness :
  UniquePairs (serve upperAscii trimAscii requests store).
Proof.
  apply (one_application_per_job_and_applicant upperAscii trimAscii requests
           store).
  intros i j a b Ha. unfold store in Ha. simpl in Ha.
  by rewrite lookup_empty in Ha.
Defined.

Lemma stored_applications_stay_valid_witness :
  AllValid (serve upperAscii trimAscii requests store).
Proof.
  apply (stored_applications_stay_valid upperAscii trimAscii requests store).
  unfold AllValid. decided.
Defined.

Lemma applications_are_kept_and_only_extended_witness :
  ∃ a', applications (serve upperAscii trimAscii requests referred)
          !! 40%positive = Some a'
    ∧ laterStateOf submitted a'.
Proof.
  apply (applications_are_kept_and_only_extended upperAscii trimAscii
           requests referred 40 submitted).
  evaluate.
Defined.

Lemma job_counters_count_the_applications_witness :
  JobCountersInvariant (serve upperAscii trimAscii counted store).
Proof.
  apply (job_counters_count_the_applications upperAscii trimAscii counted
           store).
  - decided.
  - unfold JobCountersInvariant, applicationsOf, referralApplicationsOf.
    split; decided.
Defined.

Lemma updateStatus_method_logs_a_change_twice_witness :
  ∃ a',
    Application_updateStatus 200 40 reviewing "Screened" (Some 20%positive)
      CompanyModel (hydrate submitted) referred
    = inr (setApplications (insert 40%positive a') referred)
    ∧ Application.status a' = reviewing
    ∧ Application.statusHistory a'
      = [StatusEntry.mk reviewing 200 "Screened" (Some 20%positive)
           (Some CompanyModel);
         middlewareEntry 200 reviewing].
Proof.
  apply (updateStatus_method_logs_a_change_twice 200 40 reviewing "Screened"
           (Some 20%positive) CompanyModel submitted referred).
  evaluate.
Defined.

Lemma updateStatus_method_hire_sets_the_payment_witness :
  ∃ a',
    Application_updateStatus 200 40 hired "Welcome" (Some 20%positive)
      CompanyModel (mkDocument submitted false false (Some posting)) referred
    = inr (setApplications (insert 40%positive a') referred)
    ∧ ReferralPayment.isEligible (Application.referralPayment a') = true
    ∧ ReferralPayment.status (Application.referralPayment a') = payPending
    ∧ ReferralPayment.amount (Application.referralPayment a') = 1000%Z.
Proof.
  destruct (updateStatus_method_hire_sets_the_payment 200 40 "Welcome"
              (Some 20%positive) CompanyModel submitted posting referred)
    as (a' & Hsaved & Heligible & Hstatus & Hamount & _);
    [evaluate | evaluate | discriminate |].
  exists a'. by split_and!.
Defined.

Lemma putStatus_is_for_the_owning_company_witness :
  ∃ i employer a,
    Some 20%positive = Some i
    ∧ users referred !! i = None
    ∧ companies referred !! i = Some employer
    ∧ applications referred !! 40%positive = Some a
    ∧ Application.companyId a = i.
Proof.
  apply (proj1 (putStatus_is_for_the_owning_company trimAscii 200
                  (Some 20%positive) 40 (to "reviewing") referred)).
  evaluate.
Defined.

Lemma putWithdraw_is_for_the_applicant_witness :
  ∃ i u a,
    Some 11%positive = Some i
    ∧ users referred !! i = Some u
    ∧ applications referred !! 40%positive = Some a
    ∧ Application.applicantId a = i
    ∧ withdrawable (Application.status a).
Proof.
  apply (proj1 (putWithdraw_is_for_the_applicant 300 (Some 11%positive) 40
                  None referred)).
  evaluate.
Defined.

(** ** A second submission, whatever has become of the job *)

(** C6, as the code orders its checks.  A submission by a job seeker for a
    pair (job, applicant) that has its application is refused and leaves
    the store as it is, and with it the counters of the job, of the
    company and of the referrer.  The job is looked at first: the answer
    is 400 "Already applied" when the job is in the store and active, 400
    "Job not accepting applications" when it is in another status, and 404
    "Job not found" when it is gone. *)
Theorem second_submission_is_refused
    toUpperCase now newId p body s i a :
  applications s !! i = Some a →
  Application.jobId a = SubmitBody.jobId body →
  Application.applicantId a = principalId p →
  userType p = "user" →
  (submitApplication toUpperCase now newId p body s).2 = s
  ∧ success (submitApplication toUpperCase now newId p body s).1 = false
  ∧ (submitApplication toUpperCase now newId p body s).1
    = match jobs s !! SubmitBody.jobId body with
      | None => reject 404 "Job not found"
      | Some job =>
          if bool_decide (Job.status job = active)
          then reject 400 "Already applied"
          else reject 400 "Job not accepting applications"
      end.
Proof.
  intros Hfind Hjob Happlicant Htype.
  destruct (findOne_is_Some
              (sameJobAndApplicant (SubmitBody.jobId body) (principalId p))
              (applications s) i a Hfind) as [found Hfound].
  { unfold sameJobAndApplicant. by rewrite !bool_decide_eq_true_2. }
  unfold submitApplication, findById. rewrite Hfound, Htype. simpl.
  destruct (jobs s !! SubmitBody.jobId body) as [job|]; [|done].
  destruct (decide (Job.status job = active)) as [Hactive|Hother].
  - rewrite (bool_decide_eq_false_2 (Job.status job ≠ active)) by tauto.
    by rewrite (bool_decide_eq_true_2 (Job.status job = active)).
  - rewrite (bool_decide_eq_true_2 (Job.status job ≠ active)) by done.
    by rewrite (bool_decide_eq_false_2 (Job.status job = active)).
Qed.

Lemma second_submission_is_refused_witness :
  (submitApplication upperAscii 150 41 (AsUser 11 beth)
     (SubmitBody.mk 30 (Some "Again") None) referred).2 = referred
  ∧ success (submitApplication upperAscii 150 41 (AsUser 11 beth)
               (SubmitBody.mk 30 (Some "Again") None) referred).1 = false
  ∧ (submitApplication upperAscii 150 41 (AsUser 11 beth)
       (SubmitBody.mk 30 (Some "Again") None) referred).1
    = reject 400 "Already applied".
Proof.
  apply (second_submission_is_refused upperAscii 150 41 (AsUser 11 beth)
           (SubmitBody.mk 30 (Some "Again") None) referred 40 submitted);
    evaluate.
Defined.

(** The company has closed the job since beth applied: her application is
    in the store, and her second submission is answered by the check of
    the job, not as a duplicate. *)
Lemma second_submission_to_a_closed_job_is_no_duplicate :
  applications closedAfter !! 40%positive = Some submitted
  ∧ Application.jobId submitted = 30%positive
  ∧ Application.applicantId submitted = 11%positive
  ∧ submitApplication upperAscii 400 41 (AsUser 11 beth)
      (SubmitBody.mk 30 None None) closedAfter
    = (reject 400 "Job not accepting applications", closedAfter)
  ∧ (submitApplication upperAscii 400 41 (AsUser 11 beth)
       (SubmitBody.mk 30 None None) closedAfter).1
    ≠ reject 400 "Already applied".
Proof. split_and!; try evaluate. vm_compute. discriminate. Qed.

(** ** Whole numbers as Numbers

    Rounding leaves a whole number of magnitude below 2^53 as it is, so on
    such numbers [Number.add] and [Number.sub] are the addition and the
    subtraction of [Z]. *)

Section WholeNumbers.

Local Open Scope Z_scope.

Lemma pshift_value q j : Zpos (Number.pshift q j) = Zpos q * 2 ^ Z.of_nat j.
Proof.
  induction j as [|j IH]; [simpl; lia|].
  rewrite Nat2Z.inj_succ, Z.pow_succ_r by lia.
  change (Number.pshift q (S j)) with (xO (Number.pshift q j)). lia.
Qed.

Lemma pshift_digits q j :
  Zpos (digits2_pos (Number.pshift q j)) = Zpos (digits2_pos q) + Z.of_nat j.
Proof.
  induction j as [|j IH]; [simpl; lia|].
  change (Number.pshift q (S j)) with (xO (Number.pshift q j)). simpl digits2_pos. lia.
Qed.

Lemma iter_xO q d : Pos.iter xO q d = Number.pshift q (Pos.to_nat d).
Proof. unfold Number.pshift. rewrite Pos2Nat.inj_iter. reflexivity. Qed.

Lemma iter_pos_nat {A} (f : A -> A) n x :
  SpecFloat.iter_pos f n x = Nat.iter (Pos.to_nat n) f x.
Proof.
  revert x. induction n as [n IH|n IH|]; intros x; cbn [SpecFloat.iter_pos].
  - rewrite !IH, Pos2Nat.inj_xI, Nat.iter_succ_r.
    cbn [Nat.mul]. rewrite Nat.add_0_r, Nat.iter_add. reflexivity.
  - rewrite !IH, Pos2Nat.inj_xO.
    cbn [Nat.mul]. rewrite Nat.add_0_r, Nat.iter_add. reflexivity.
  - reflexivity.
Qed.

Lemma shr_exact q j t :
  Nat.iter t shr_1 (Build_shr_record (Zpos (Number.pshift q (t + j))) false false)
  = Build_shr_record (Zpos (Number.pshift q j)) false false.
Proof.
  induction t as [|t IH]; [reflexivity|].
  rewrite Nat.iter_succ_r. rewrite <- IH. f_equal.
Qed.

Lemma fexp_digits x : -1021 <= x -> fexp Number.prec Number.emax x = x - 53.
Proof. intros Hx. unfold fexp, emin, Number.prec, Number.emax. lia. Qed.

Lemma pshift_add q j t : Number.pshift (Number.pshift q j) t = Number.pshift q (t + j).
Proof. unfold Number.pshift. rewrite Nat.iter_add. reflexivity. Qed.

Lemma binary_round_aux_exact s q (j t : nat) e :
  Zpos (digits2_pos q) + Z.of_nat j = 53 ->
  e + Z.of_nat t <= 0 -> -1074 <= e ->
  binary_round_aux Number.prec Number.emax s (Zpos (Number.pshift q (t + j))) e loc_Exact
  = S754_finite s (Number.pshift q j) (e + Z.of_nat t).
Proof.
  intros Hd He Hmin. unfold binary_round_aux, shr_fexp.
  cbn [Zdigits2 shr_record_of_loc].
  rewrite pshift_digits, fexp_digits by lia.
  replace (Zpos (digits2_pos q) + Z.of_nat (t + j) + e - 53 - e)
    with (Z.of_nat t) by lia.
  assert (shr (Build_shr_record (Zpos (Number.pshift q (t + j))) false false) e
            (Z.of_nat t)
          = (Build_shr_record (Zpos (Number.pshift q j)) false false,
             e + Z.of_nat t)) as ->.
  { destruct t as [|t].
    - simpl. f_equal. lia.
    - change (Z.of_nat (S t)) with (Zpos (Pos.of_succ_nat t)).
      cbn [shr].
      rewrite iter_pos_nat, SuccNat2Pos.id_succ, shr_exact. reflexivity. }
  cbn [shr_m loc_of_shr_record round_nearest_even Zdigits2 shr_record_of_loc].
  rewrite pshift_digits, fexp_digits by lia.
  replace (Zpos (digits2_pos q) + Z.of_nat j + (e + Z.of_nat t) - 53
           - (e + Z.of_nat t)) with 0 by lia.
  cbn [shr shr_m].
  replace (e + Z.of_nat t <=? Number.emax - Number.prec) with true; [reflexivity|].
  symmetry. apply Z.leb_le. unfold Number.emax, Number.prec. lia.
Qed.

Lemma binary_round_shifted s q (k : nat) :
  Zpos (digits2_pos q) <= 53 -> Z.of_nat k <= 1000 ->
  binary_round Number.prec Number.emax s (Number.pshift q k) (- Z.of_nat k)
  = S754_finite s (Number.pshift q (Z.to_nat (53 - Zpos (digits2_pos q))))
      (Zpos (digits2_pos q) - 53).
Proof.
  intros Hd Hk. unfold binary_round.
  rewrite pshift_digits, fexp_digits by lia.
  unfold shl_align.
  set (d := Zpos (digits2_pos q)) in *.
  set (j := Z.to_nat (53 - d)).
  assert (Z.of_nat j = 53 - d) as Hj by lia.
  destruct (d + Z.of_nat k + - Z.of_nat k - 53 - - Z.of_nat k) as [|n|n] eqn:E.
  - replace k with (0 + j)%nat by lia.
    rewrite (binary_round_aux_exact s q j 0) by lia.
    f_equal. lia.
  - replace k with (Pos.to_nat n + j)%nat at 1 by lia.
    rewrite (binary_round_aux_exact s q j (Pos.to_nat n)) by lia.
    f_equal. lia.
  - rewrite iter_xO, pshift_add.
    replace (Pos.to_nat n + k)%nat with (0 + j)%nat by lia.
    rewrite (binary_round_aux_exact s q j 0) by lia.
    f_equal. lia.
Qed.

Lemma digits2_pos_le q n : 0 <= n -> Zpos q < 2 ^ n -> Zpos (digits2_pos q) <= n.
Proof.
  revert n. induction q as [q IH|q IH|]; intros n Hn Hq; cbn [digits2_pos].
  - assert (n <> 0) by (intros ->; simpl in Hq; lia).
    replace n with (Z.succ (n - 1)) in Hq by lia.
    rewrite Z.pow_succ_r in Hq by lia.
    specialize (IH (n - 1)). lia.
  - assert (n <> 0) by (intros ->; simpl in Hq; lia).
    replace n with (Z.succ (n - 1)) in Hq by lia.
    rewrite Z.pow_succ_r in Hq by lia.
    specialize (IH (n - 1)). lia.
  - assert (n <> 0) by (intros ->; simpl in Hq; lia). lia.
Qed.

Lemma binary_normalize_shifted m (k : nat) :
  Z.abs m < 2 ^ 53 -> Z.of_nat k <= 1000 ->
  binary_normalize Number.prec Number.emax (m * 2 ^ Z.of_nat k) (- Z.of_nat k) false
  = binary_normalize Number.prec Number.emax m 0 false.
Proof.
  intros Hm Hk. destruct m as [|q|q].
  - reflexivity.
  - rewrite <- pshift_value. cbn [binary_normalize].
    rewrite binary_round_shifted by (try apply digits2_pos_le; lia).
    symmetry. apply (binary_round_shifted false q 0); [|lia].
    apply digits2_pos_le; lia.
  - replace (Z.neg q * 2 ^ Z.of_nat k) with (Z.neg (Number.pshift q k))
      by (pose proof (pshift_value q k); lia).
    cbn [binary_normalize].
    rewrite binary_round_shifted by (try apply digits2_pos_le; lia).
    symmetry. apply (binary_round_shifted true q 0); [|lia].
    apply digits2_pos_le; lia.
Qed.

Lemma shl_align_value m e e' :
  e' <= e -> Zpos (fst (shl_align m e e')) = Zpos m * 2 ^ (e - e').
Proof.
  intros He. unfold shl_align. destruct (e' - e) as [|n|n] eqn:E.
  - replace (e - e') with 0 by lia. cbn [fst]. lia.
  - lia.
  - cbn [fst]. rewrite iter_xO, pshift_value. f_equal. f_equal. lia.
Qed.

(* the representation of a whole number *)
Lemma ofZ_finite a :
  a <> 0 -> Z.abs a < 2 ^ 53 ->
  exists m e,
    Number.ofZ a = S754_finite (a <? 0) m e
    /\ -53 < e <= 0
    /\ cond_Zopp (a <? 0) (Zpos m) = a * 2 ^ (- e).
Proof.
  intros Ha Hb. unfold Number.ofZ. destruct a as [|q|q]; [done| |].
  - cbn [binary_normalize].
    pose proof (digits2_pos_le q 53 ltac:(lia) ltac:(lia)) as Hd.
    change (binary_round Number.prec Number.emax false q 0)
      with (binary_round Number.prec Number.emax false (Number.pshift q 0) (- Z.of_nat 0)).
    rewrite (binary_round_shifted false q 0 Hd) by lia.
    eexists _, _. split; [reflexivity|]. split; [lia|].
    cbn [cond_Zopp Z.ltb Z.compare]. rewrite pshift_value. f_equal. f_equal. lia.
  - cbn [binary_normalize].
    pose proof (digits2_pos_le q 53 ltac:(lia) ltac:(lia)) as Hd.
    change (binary_round Number.prec Number.emax true q 0)
      with (binary_round Number.prec Number.emax true (Number.pshift q 0) (- Z.of_nat 0)).
    rewrite (binary_round_shifted true q 0 Hd) by lia.
    eexists _, _. split; [reflexivity|]. split; [lia|].
    cbn [cond_Zopp Z.ltb Z.compare].
    pose proof (pshift_value q (Z.to_nat (53 - Z.pos (digits2_pos q)))) as Hv.
    replace (- (Z.pos (digits2_pos q) - 53)) with
      (Z.of_nat (Z.to_nat (53 - Z.pos (digits2_pos q)))) by lia.
    lia.
Qed.

Lemma Number_add_ofZ a b :
  Z.abs a < 2 ^ 53 -> Z.abs b < 2 ^ 53 -> Z.abs (a + b) < 2 ^ 53 ->
  Number.add (Number.ofZ a) (Number.ofZ b) = Number.ofZ (a + b).
Proof.
  intros Ha Hb Hab.
  destruct (Z.eq_dec a 0) as [->|Hna].
  { rewrite Z.add_0_l.
    destruct (Z.eq_dec b 0) as [->|Hnb]; [reflexivity|].
    destruct (ofZ_finite b Hnb Hb) as (m & e & -> & _). reflexivity. }
  destruct (Z.eq_dec b 0) as [->|Hnb].
  { rewrite Z.add_0_r. destruct (ofZ_finite a Hna Ha) as (m & e & -> & _).
    reflexivity. }
  destruct (ofZ_finite a Hna Ha) as (ma & ea & -> & Hea & Hma).
  destruct (ofZ_finite b Hnb Hb) as (mb & eb & -> & Heb & Hmb).
  unfold Number.add, SFadd.
  set (ez := Z.min ea eb).
  assert (cond_Zopp (a <? 0) (Zpos (fst (shl_align ma ea ez)))
          = a * 2 ^ (- ez)) as ->.
  { rewrite shl_align_value by lia.
    destruct (a <? 0); cbn [cond_Zopp] in *.
    - replace (- (Zpos ma * 2 ^ (ea - ez))) with
        (- Zpos ma * 2 ^ (ea - ez)) by lia.
      rewrite Hma, <- Z.mul_assoc, <- Z.pow_add_r by lia.
      f_equal. f_equal. lia.
    - rewrite Hma, <- Z.mul_assoc, <- Z.pow_add_r by lia.
      f_equal. f_equal. lia. }
  assert (cond_Zopp (b <? 0) (Zpos (fst (shl_align mb eb ez)))
          = b * 2 ^ (- ez)) as ->.
  { rewrite shl_align_value by lia.
    destruct (b <? 0); cbn [cond_Zopp] in *.
    - replace (- (Zpos mb * 2 ^ (eb - ez))) with
        (- Zpos mb * 2 ^ (eb - ez)) by lia.
      rewrite Hmb, <- Z.mul_assoc, <- Z.pow_add_r by lia.
      f_equal. f_equal. lia.
    - rewrite Hmb, <- Z.mul_assoc, <- Z.pow_add_r by lia.
      f_equal. f_equal. lia. }
  rewrite <- Z.mul_add_distr_r.
  replace (- ez) with (Z.of_nat (Z.to_nat (- ez))) by lia.
  replace ez with (- Z.of_nat (Z.to_nat (- ez))) at 2 by lia.
  apply binary_normalize_shifted; lia.
Qed.

Lemma ofZ_opp b :
  b <> 0 -> Z.abs b < 2 ^ 53 -> Number.ofZ (- b) = SFopp (Number.ofZ b).
Proof.
  intros Hn Hb. unfold Number.ofZ. destruct b as [|q|q]; [done| |];
    pose proof (digits2_pos_le q 53 ltac:(lia) ltac:(lia)) as Hd;
    try change (- Z.pos q) with (Z.neg q);
    try change (- Z.neg q) with (Z.pos q);
    cbn [binary_normalize];
    change (binary_round Number.prec Number.emax true q 0)
      with (binary_round Number.prec Number.emax true (Number.pshift q 0) (- Z.of_nat 0));
    change (binary_round Number.prec Number.emax false q 0)
      with (binary_round Number.prec Number.emax false (Number.pshift q 0) (- Z.of_nat 0));
    rewrite !(binary_round_shifted _ q 0 Hd) by lia; reflexivity.
Qed.

Lemma Number_sub_ofZ a b :
  Z.abs a < 2 ^ 53 -> Z.abs b < 2 ^ 53 -> Z.abs (a - b) < 2 ^ 53 ->
  Number.sub (Number.ofZ a) (Number.ofZ b) = Number.ofZ (a - b).
Proof.
  intros Ha Hb Hab.
  destruct (Z.eq_dec b 0) as [->|Hnb].
  { rewrite Z.sub_0_r. destruct (Z.eq_dec a 0) as [->|Hna]; [reflexivity|].
    destruct (ofZ_finite a Hna Ha) as (m & e & -> & _). reflexivity. }
  destruct (Z.eq_dec a 0) as [->|Hna].
  { rewrite Z.sub_0_l, ofZ_opp by done.
    destruct (ofZ_finite b Hnb Hb) as (m & e & -> & _). reflexivity. }
  destruct (ofZ_finite a Hna Ha) as (ma & ea & -> & Hea & Hma).
  destruct (ofZ_finite b Hnb Hb) as (mb & eb & -> & Heb & Hmb).
  unfold Number.sub, SFsub.
  set (ez := Z.min ea eb).
  assert (cond_Zopp (a <? 0) (Zpos (fst (shl_align ma ea ez)))
          = a * 2 ^ (- ez)) as ->.
  { rewrite shl_align_value by lia.
    destruct (a <? 0); cbn [cond_Zopp] in *.
    - replace (- (Zpos ma * 2 ^ (ea - ez))) with
        (- Zpos ma * 2 ^ (ea - ez)) by lia.
      rewrite Hma, <- Z.mul_assoc, <- Z.pow_add_r by lia.
      f_equal. f_equal. lia.
    - rewrite Hma, <- Z.mul_assoc, <- Z.pow_add_r by lia.
      f_equal. f_equal. lia. }
  assert (cond_Zopp (b <? 0) (Zpos (fst (shl_align mb eb ez)))
          = b * 2 ^ (- ez)) as ->.
  { rewrite shl_align_value by lia.
    destruct (b <? 0); cbn [cond_Zopp] in *.
    - replace (- (Zpos mb * 2 ^ (eb - ez))) with
        (- Zpos mb * 2 ^ (eb - ez)) by lia.
      rewrite Hmb, <- Z.mul_assoc, <- Z.pow_add_r by lia.
      f_equal. f_equal. lia.
    - rewrite Hmb, <- Z.mul_assoc, <- Z.pow_add_r by lia.
      f_equal. f_equal. lia. }
  rewrite <- Z.mul_sub_distr_r.
  replace (- ez) with (Z.of_nat (Z.to_nat (- ez))) by lia.
  replace ez with (- Z.of_nat (Z.to_nat (- ez))) at 2 by lia.
  apply binary_normalize_shifted; lia.
Qed.

Lemma Number_eqb_refl a :
  Z.abs a < 2 ^ 53 -> Number.eqb (Number.ofZ a) (Number.ofZ a) = true.
Proof.
  intros Ha. destruct (Z.eq_dec a 0) as [->|Hna]; [reflexivity|].
  destruct (ofZ_finite a Hna Ha) as (m & e & -> & _).
  unfold Number.eqb, SFeqb, SFcompare.
  rewrite Z.compare_refl, Pos.compare_cont_refl. by destruct (a <? 0).
Qed.

(** One write of whole amounts to stats that are whole, balanced and within
    [B]. *)
Lemma write_whole B tr sr t p d w :
  t = p + d ->
  Z.abs tr <= B -> Z.abs sr <= B -> Z.abs t <= B -> Z.abs p <= B ->
  Z.abs d <= B ->
  B + NumberStats.weight w < 2 ^ 53 ->
  exists tr' sr' t' p' d',
    NumberStats.write (NumberStats.whole tr sr t p d) (NumberStats.ofWhole w)
    = NumberStats.whole tr' sr' t' p' d'
    /\ t' = p' + d'
    /\ Z.abs tr' <= B + NumberStats.weight w
    /\ Z.abs sr' <= B + NumberStats.weight w
    /\ Z.abs t' <= B + NumberStats.weight w
    /\ Z.abs p' <= B + NumberStats.weight w
    /\ Z.abs d' <= B + NumberStats.weight w.
Proof.
  intros Hbalance Htr Hsr Ht Hp Hd Hroom.
  assert (forall r tr' sr' t' p' d',
            r = NumberStats.whole tr' sr' t' p' d' ->
            t' = p' + d'
            /\ Z.abs tr' <= B + NumberStats.weight w
            /\ Z.abs sr' <= B + NumberStats.weight w
            /\ Z.abs t' <= B + NumberStats.weight w
            /\ Z.abs p' <= B + NumberStats.weight w
            /\ Z.abs d' <= B + NumberStats.weight w ->
            exists tr' sr' t' p' d',
              r = NumberStats.whole tr' sr' t' p' d'
              /\ t' = p' + d'
              /\ Z.abs tr' <= B + NumberStats.weight w
              /\ Z.abs sr' <= B + NumberStats.weight w
              /\ Z.abs t' <= B + NumberStats.weight w
              /\ Z.abs p' <= B + NumberStats.weight w
              /\ Z.abs d' <= B + NumberStats.weight w) as Hexists.
  { intros r tr' sr' t' p' d' Hr Hrest. by exists tr', sr', t', p', d'. }
  destruct w as [|fee| |type amount];
    cbn [NumberStats.write NumberStats.ofWhole];
    cbn [NumberStats.weight] in *.
  - apply (Hexists _ (tr + 1) sr t p d); [|lia].
    unfold NumberStats.incTotalReferrals, NumberStats.whole.
    cbn [NumberStats.totalReferrals NumberStats.successfulReferrals
         NumberStats.totalEarnings NumberStats.pendingEarnings
         NumberStats.paidEarnings].
    by rewrite Number_add_ofZ by lia.
  - apply (Hexists _ tr sr (t + fee) (p + fee) d); [|lia].
    unfold NumberStats.processReferralPayment, NumberStats.whole.
    cbn [NumberStats.totalReferrals NumberStats.successfulReferrals
         NumberStats.totalEarnings NumberStats.pendingEarnings
         NumberStats.paidEarnings].
    by rewrite !Number_add_ofZ by lia.
  - apply (Hexists _ tr (sr + 1) t p d); [|lia].
    unfold NumberStats.incSuccessfulReferrals, NumberStats.whole.
    cbn [NumberStats.totalReferrals NumberStats.successfulReferrals
         NumberStats.totalEarnings NumberStats.pendingEarnings
         NumberStats.paidEarnings].
    by rewrite Number_add_ofZ by lia.
  - unfold NumberStats.updateReferralStats, NumberStats.whole.
    cbn [NumberStats.totalReferrals NumberStats.successfulReferrals
         NumberStats.totalEarnings NumberStats.pendingEarnings
         NumberStats.paidEarnings].
    repeat case_bool_decide.
    + apply (Hexists _ (tr + 1) sr t p d); [|lia].
      unfold NumberStats.whole. by rewrite Number_add_ofZ by lia.
    + apply (Hexists _ tr (sr + 1) (t + amount) (p + amount) d); [|lia].
      unfold NumberStats.whole. by rewrite !Number_add_ofZ by lia.
    + apply (Hexists _ tr sr t (p - amount) (d + amount)); [|lia].
      unfold NumberStats.whole.
      by rewrite Number_add_ofZ, Number_sub_ofZ by lia.
    + apply (Hexists _ tr sr t p d); [done|lia].
Qed.

Lemma run_whole ws :
  forall B tr sr t p d,
    t = p + d ->
    Z.abs tr <= B -> Z.abs sr <= B -> Z.abs t <= B -> Z.abs p <= B ->
    Z.abs d <= B ->
    B + NumberStats.weights ws < 2 ^ 53 ->
    exists tr' sr' t' p' d',
      NumberStats.run (NumberStats.ofWhole <$> ws)
        (NumberStats.whole tr sr t p d)
      = NumberStats.whole tr' sr' t' p' d'
      /\ t' = p' + d'
      /\ Z.abs t' < 2 ^ 53 /\ Z.abs p' < 2 ^ 53 /\ Z.abs d' < 2 ^ 53.
Proof.
  induction ws as [|w ws IH]; intros B tr sr t p d Hb Htr Hsr Ht Hp Hd Hroom.
  - exists tr, sr, t, p, d. cbn in *. split; [done|]. lia.
  - cbn [NumberStats.weights foldr] in Hroom.
    fold (NumberStats.weights ws) in Hroom.
    assert (0 <= NumberStats.weights ws) as Hpos.
    { clear. induction ws as [|w ws IH]; cbn; [lia|].
      fold (NumberStats.weights ws). destruct w; cbn; lia. }
    destruct (write_whole B tr sr t p d w)
      as (tr1 & sr1 & t1 & p1 & d1 & Hw & Hb1 & Htr1 & Hsr1 & Ht1 & Hp1 & Hd1);
      try done; [lia|].
    unfold NumberStats.run. cbn [fmap list_fmap foldl]. rewrite Hw.
    apply (IH (B + NumberStats.weight w)); try done. lia.
Qed.

End WholeNumbers.

(** ** The earnings balance in the arithmetic of the program *)

(** After hires for fees of 0.1, 0.2 and 0.3 with a payout of 0.1 between
    them, [totalEarnings] is 0.6000000000000001 while [pendingEarnings]
    is 0.5 and [paidEarnings] 0.1, whose sum is 0.6:
    [totalEarnings == pendingEarnings + paidEarnings] is false. *)
Lemma fractional_fees_unbalance_the_earnings :
  NumberStats.balanced (NumberStats.run fractional NumberStats.zero) = false
  ∧ NumberStats.totalEarnings (NumberStats.run fractional NumberStats.zero)
    = S754_finite false 5404319552844596 (-53)
  ∧ Number.add
      (NumberStats.pendingEarnings
         (NumberStats.run fractional NumberStats.zero))
      (NumberStats.paidEarnings
         (NumberStats.run fractional NumberStats.zero))
    = S754_finite false 5404319552844595 (-53).
Proof. split_and!; evaluate. Qed.

(** C5, for whole amounts.  On the stats of a user that are whole numbers
    with [totalEarnings = pendingEarnings + paidEarnings], after any
    sequence of the program's writes to them (the count of a referred
    submission, the payment and the count of a hire, any call of
    [updateReferralStats], the payout among them) with amounts that are
    whole numbers, [totalEarnings == pendingEarnings + paidEarnings] holds
    of the Numbers stored, as long as the amounts written, added to the
    largest number the stats began with, stay below 2^53. *)
Theorem whole_amounts_balance_the_earnings
    ws B totalReferrals successfulReferrals totalEarnings pendingEarnings
    paidEarnings :
  totalEarnings = (pendingEarnings + paidEarnings)%Z →
  (Z.abs totalReferrals ≤ B)%Z →
  (Z.abs successfulReferrals ≤ B)%Z →
  (Z.abs totalEarnings ≤ B)%Z →
  (Z.abs pendingEarnings ≤ B)%Z →
  (Z.abs paidEarnings ≤ B)%Z →
  (B + NumberStats.weights ws < 2 ^ 53)%Z →
  NumberStats.balanced
    (NumberStats.run (NumberStats.ofWhole <$> ws)
       (NumberStats.whole totalReferrals successfulReferrals totalEarnings
          pendingEarnings paidEarnings))
  = true.
Proof.
  intros Hbalance Htr Hsr Ht Hp Hd Hroom.
  destruct (run_whole ws B _ _ _ _ _ Hbalance Htr Hsr Ht Hp Hd Hroom)
    as (tr' & sr' & t' & p' & d' & -> & -> & Ht' & Hp' & Hd').
  unfold NumberStats.balanced, NumberStats.whole. cbn.
  rewrite Number_add_ofZ by done. by apply Number_eqb_refl.
Qed.

Lemma whole_amounts_balance_the_earnings_witness :
  NumberStats.balanced
    (NumberStats.run (NumberStats.ofWhole <$> paidOut) NumberStats.zero)
  = true.
Proof.
  apply (whole_amounts_balance_the_earnings paidOut 0 0 0 0 0 0);
    concrete.
Defined.

(** ** A job that has an application *)

Lemma serve_laterStateOf toUpperCase trim requests s id a :
  applications s !! id = Some a →
  ∃ a', applications (serve toUpperCase trim requests s) !! id = Some a'
    ∧ laterStateOf a a'.
Proof.
  unfold serve. revert s a.
  induction requests as [|r requests IH]; intros s a Ha; simpl.
  - exists a. split; [done|]. apply laterStateOf_refl.
  - destruct (handle_laterStateOf toUpperCase trim s r id a Ha)
      as (a1 & Ha1 & Hlater1).
    destruct (IH _ _ Ha1) as (a2 & Ha2 & Hlater2).
    exists a2. split; [done|]. by eapply laterStateOf_trans.
Qed.

(** Where the counters count the applications, [deleteJob] refuses a job
    that has an application in the store. *)
Lemma deleteJob_counted now p s i a :
  JobCountersInvariant s →
  applications s !! i = Some a →
  success (deleteJob now p (Application.jobId a) s).1 = false
  ∧ (deleteJob now p (Application.jobId a) s).2 = s.
Proof.
  intros [Hcount Hexists] Ha.
  destruct (Hexists i a Ha) as [job Hjob].
  destruct (Hcount _ _ Hjob) as [Happlications _].
  assert (size (applicationsOf (Application.jobId a) (applications s))
          ≠ 0%nat) as Hsome.
  { unfold applicationsOf. intros Hzero.
    by apply (proj1 (filter_size_zero _ _) Hzero i a Ha). }
  unfold deleteJob, findById. rewrite Hjob.
  case_bool_decide; [done|].
  rewrite bool_decide_eq_true_2 by lia. done.
Qed.

(** X30.  From a store whose job counters count the applications, after
    any sequence of submissions, status updates, withdrawals,
    [updateReferralStats] calls, job creations, job status changes, job
    deletions and sweeps (the generic job update left out), the job of a
    stored application is still refused to [deleteJob], whoever calls, and
    the refusal changes nothing. *)
Theorem job_with_an_application_is_never_deleted
    toUpperCase trim requests s i a now p :
  JobCountersInvariant s →
  applications s !! i = Some a →
  Forall (λ r, isGenericUpdate r = false) requests →
  success (deleteJob now p (Application.jobId a)
             (serve toUpperCase trim requests s)).1 = false
  ∧ (deleteJob now p (Application.jobId a)
       (serve toUpperCase trim requests s)).2
    = serve toUpperCase trim requests s.
Proof.
  intros Hs Ha Hrequests.
  destruct (serve_laterStateOf toUpperCase trim requests s i a Ha)
    as (a' & Ha' & Hjob & _).
  rewrite <- Hjob.
  apply (deleteJob_counted now p _ i a'); [|done].
  by apply serve_JobCounters.
Qed.

Lemma job_with_an_application_is_never_deleted_witness :
  success (deleteJob 2000 (company store) 30
             (serve upperAscii trimAscii counted referred)).1 = false
  ∧ (deleteJob 2000 (company store) 30
       (serve upperAscii trimAscii counted referred)).2
    = serve upperAscii trimAscii counted referred.
Proof.
  apply (job_with_an_application_is_never_deleted upperAscii trimAscii
           counted referred 40 submitted 2000 (company store)).
  - unfold JobCountersInvariant, applicationsOf, referralApplicationsOf.
    split; decided.
  - evaluate.
  - decided.
Defined.
